(** * Dreamscapes llama-stylist: scene-document transforms and resolvers

    A shallow embedding of the Python service under
    [services/llama-stylist]: the validator and repairer
    ([utils/validators.py]), the deterministic transforms ([safe_patch],
    [apply_style], and the development stubs of [main.py]), the JSON
    extraction of [utils/json_parser.py], and the two resolvers
    ([services/patch_service.py], [services/style_service.py]).

    Conventions of the embedding.
    - A Python object born from JSON is a [value]; a [dict] is an
      association list in insertion order (lookup finds the first binding,
      assignment replaces it in place or appends), which is how Python
      dictionaries iterate and serialise.
    - Python [float]s are idealised as exact rationals kept in reduced
      form; NaN, the infinities, rounding and overflow are not modelled.
    - Python [str] is modelled by [string]; [lower] and the whitespace
      class act on the ASCII range.
    - An exception is the [Raise] outcome of the [res] monad.
    - Wall-clock time and the random generator are inputs, gathered in a
      [clock] record that stays fixed during one call.
    - The second part of the file ([Module Store]) re-embeds the same code
      over an explicit object store with references, where [copy.deepcopy]
      and in-place mutation are visible.

    The definitions come first: the embedding on values, the embedding
    over the store, and the predicates and sample inputs of the
    properties.  The lemmas and the theorems follow, grouped by source
    file; [Module StoreFacts] holds the ownership argument. *)

From Stdlib Require Import String Ascii List ZArith QArith Bool Lia Arith.
From Stdlib Require Import DecimalString Lqa.
Import ListNotations.

Local Open Scope string_scope.
Local Open Scope list_scope.

Set Warnings "-register-all".

(* ================================================================== *)
(** ** Exceptions and the result monad *)

(** The Python exceptions the code can raise, and [Dangling], which is no
    Python exception: it marks a reference that points outside the object
    store, which no run from a well-formed store reaches. *)
Inductive exn : Type :=
| AttributeError
| TypeError
| KeyError
| IndexError
| RecursionError
| Dangling.

Inductive res (A : Type) : Type :=
| Ok (a : A)
| Raise (e : exn).

Arguments Ok {A} a.
Arguments Raise {A} e.

Definition bind {A B : Type} (m : res A) (k : A -> res B) : res B :=
  match m with
  | Ok a => k a
  | Raise e => Raise e
  end.

Declare Scope res_scope.
Delimit Scope res_scope with res.
Notation "x <- m ;; k" := (bind m (fun x => k))
  (at level 61, m at next level, right associativity) : res_scope.
Notation "' p <- m ;; k" := (bind m (fun p => k))
  (at level 61, p pattern, m at next level, right associativity) : res_scope.
Local Open Scope res_scope.

Definition returns {A : Type} (m : res A) : bool :=
  match m with Ok _ => true | Raise _ => false end.

(** [for x in xs: x := f x], stopping at the first exception. *)
Fixpoint mapM {A B : Type} (f : A -> res B) (xs : list A) : res (list B) :=
  match xs with
  | [] => Ok []
  | x :: xs' =>
      y <- f x ;;
      ys <- mapM f xs' ;;
      Ok (y :: ys)
  end.

Fixpoint foldM {A S : Type} (f : S -> A -> res S) (xs : list A) (s : S)
  : res S :=
  match xs with
  | [] => Ok s
  | x :: xs' => s' <- f s x ;; foldM f xs' s'
  end.

(* ================================================================== *)
(** ** Strings *)

Definition dq : string := String (ascii_of_nat 34) EmptyString.

(** [str.lower()] on the ASCII range. *)
Definition lower_ascii (c : ascii) : ascii :=
  let n := nat_of_ascii c in
  if (65 <=? n)%nat && (n <=? 90)%nat then ascii_of_nat (n + 32) else c.

Fixpoint lower (s : string) : string :=
  match s with
  | EmptyString => EmptyString
  | String c s' => String (lower_ascii c) (lower s')
  end.

(** [k in s] for strings. *)
Fixpoint contains (k s : string) : bool :=
  String.prefix k s
  || match s with
     | EmptyString => false
     | String _ s' => contains k s'
     end.

(** [sep.join(xs)]. *)
Fixpoint join (sep : string) (xs : list string) : string :=
  match xs with
  | [] => ""
  | [x] => x
  | x :: xs' => x ++ sep ++ join sep xs'
  end.

(** [str(n)] for an integer. *)
Definition str_of_Z (z : Z) : string := NilZero.string_of_int (Z.to_int z).

(* ================================================================== *)
(** ** JSON-born Python values *)

Inductive value : Type :=
| VNone
| VBool (b : bool)
| VInt (z : Z)
| VFloat (q : Q)
| VStr (s : string)
| VList (xs : list value)
| VDict (kv : list (string * value)).

Definition dict : Type := list (string * value).

(** Association lists in insertion order, shared by both embeddings. *)
Section Assoc.
Variable V : Type.

Fixpoint aget (k : string) (d : list (string * V)) : option V :=
  match d with
  | [] => None
  | (k', v) :: d' => if String.eqb k k' then Some v else aget k d'
  end.

(** [d[k] = v] *)
Fixpoint aset (k : string) (v : V) (d : list (string * V))
  : list (string * V) :=
  match d with
  | [] => [(k, v)]
  | (k', v') :: d' =>
      if String.eqb k k' then (k, v) :: d' else (k', v') :: aset k v d'
  end.

Definition ahas (k : string) (d : list (string * V)) : bool :=
  match aget k d with Some _ => true | None => false end.

(** [d.get(k, dflt)] *)
Definition aget_or (k : string) (dflt : V) (d : list (string * V)) : V :=
  match aget k d with Some v => v | None => dflt end.
End Assoc.

Arguments aget {V} k d.
Arguments aset {V} k v d.
Arguments ahas {V} k d.
Arguments aget_or {V} k dflt d.

Definition dget : string -> dict -> option value := @aget value.
Definition dset : string -> value -> dict -> dict := @aset value.
Definition dhas : string -> dict -> bool := @ahas value.
Definition dget_or : string -> value -> dict -> value := @aget_or value.

(** [d.setdefault(k, dflt)]: the dictionary afterwards. *)
Definition setdefault (k : string) (dflt : value) (d : dict) : dict :=
  if dhas k d then d else dset k dflt d.

(** Python truthiness. *)
Definition truthy (v : value) : bool :=
  match v with
  | VNone => false
  | VBool b => b
  | VInt z => negb (Z.eqb z 0)
  | VFloat q => negb (Qeq_bool q 0)
  | VStr s => negb (String.eqb s "")
  | VList xs => match xs with [] => false | _ => true end
  | VDict kv => match kv with [] => false | _ => true end
  end.

Definition is_dict (v : value) : bool :=
  match v with VDict _ => true | _ => false end.

Definition is_list (v : value) : bool :=
  match v with VList _ => true | _ => false end.

(* ================================================================== *)
(** ** Numbers *)

(** The numeric reading of a value ([bool] is a subclass of [int]). *)
Definition num_of (v : value) : option Q :=
  match v with
  | VBool b => Some (if b then 1 else 0)
  | VInt z => Some (inject_Z z)
  | VFloat q => Some q
  | _ => None
  end.

Definition Qltb (a b : Q) : bool := negb (Qle_bool b a).

(** [v * m] for a float literal [m]. *)
Definition py_mul_float (v : value) (m : Q) : res value :=
  match num_of v with
  | Some x => Ok (VFloat (Qred (x * m)))
  | None => Raise TypeError
  end.

(** [min(a, x)]: the first minimal argument. *)
Definition py_min (a x : value) : res value :=
  match num_of a, num_of x with
  | Some qa, Some qx => Ok (if Qltb qx qa then x else a)
  | _, _ => Raise TypeError
  end.

(** [max(a, x)]: the first maximal argument. *)
Definition py_max (a x : value) : res value :=
  match num_of a, num_of x with
  | Some qa, Some qx => Ok (if Qltb qa qx then x else a)
  | _, _ => Raise TypeError
  end.

Definition int_of (v : value) : option Z :=
  match v with
  | VBool b => Some (if b then 1 else 0)%Z
  | VInt z => Some z
  | _ => None
  end.

(** [a + b] on numbers, as [sum] uses it from the integer [0]. *)
Definition py_add (a b : value) : res value :=
  match int_of a, int_of b with
  | Some x, Some y => Ok (VInt (x + y))
  | _, _ =>
      match num_of a, num_of b with
      | Some x, Some y => Ok (VFloat (Qred (x + y)))
      | _, _ => Raise TypeError
      end
  end.

(* ================================================================== *)
(** ** Time and randomness *)

(** [now] is [int(time.time())], [stamp] is
    [time.strftime("%Y-%m-%dT%H:%M:%SZ", time.gmtime())], and [rnd k] is
    the [k]-th draw of [random.random()] in a call. *)
Record clock : Type := {
  now : Z;
  stamp : string;
  rnd : nat -> Q
}.

(** [random.uniform(a, b)] on the [k]-th draw. *)
Definition uniform (clk : clock) (k : nat) (a b : Q) : Q :=
  Qred (a + (b - a) * rnd clk k).

(* ================================================================== *)
(** ** utils/validators.py: [validate_dream] *)

Definition REQUIRED_FIELDS : list string := ["id"; "title"; "style"].

Definition STYLE_NAMES : list string :=
  ["ethereal"; "cyberpunk"; "surreal"; "fantasy"; "nightmare"].

(** [v in ["ethereal", ..., "nightmare"]] *)
Definition in_style_enum (v : value) : bool :=
  match v with
  | VStr s => existsb (String.eqb s) STYLE_NAMES
  | _ => false
  end.

(** The error codes of the validator. Each constructor stands for the
    string the code appends: ["dream must be an object"],
    [f"missing_required:{field}"], [f"invalid_style:{dream['style']}"],
    ["cinematography_not_object"],
    ["cinematography_missing_duration_or_shots"] and
    ["cinematography_shots_invalid"]. *)
Inductive verror : Type :=
| NotAnObject
| MissingRequired (field : string)
| InvalidStyle (v : value)
| CinematographyNotObject
| CinematographyMissingDurationOrShots
| CinematographyShotsInvalid.

Definition validate_dream (dream : value) : bool * list verror :=
  match dream with
  | VDict d =>
      let errors :=
        flat_map (fun field =>
                    if dhas field d then [] else [MissingRequired field])
                 REQUIRED_FIELDS in
      let errors :=
        errors ++
        match dget "style" d with
        | Some s => if in_style_enum s then [] else [InvalidStyle s]
        | None => []
        end in
      let errors :=
        errors ++
        match dget "cinematography" d with
        | None => []
        | Some (VDict c) =>
            if negb (dhas "durationSec" c) || negb (dhas "shots" c)
            then [CinematographyMissingDurationOrShots]
            else match dget "shots" c with
                 | Some (VList (_ :: _)) => []
                 | _ => [CinematographyShotsInvalid]
                 end
        | Some _ => [CinematographyNotObject]
        end in
      (Nat.eqb (length errors) 0, errors)
  | _ => (false, [NotAnObject])
  end.

(* ================================================================== *)
(** ** utils/validators.py: [repair_dream] *)

(** [d.setdefault(k, []).append(x)] *)
Definition append_to (k : string) (x : value) (d : dict) : res dict :=
  match dget k d with
  | None => Ok (dset k (VList [x]) d)
  | Some (VList xs) => Ok (dset k (VList (xs ++ [x])) d)
  | Some _ => Raise AttributeError
  end.

(** The elements a [for] loop or a comprehension draws from [v]. *)
Definition iterate (v : value) : res (list value) :=
  match v with
  | VList xs => Ok xs
  | VDict kv => Ok (map (fun p => VStr (fst p)) kv)
  | VStr s => Ok (map (fun c => VStr (String c "")) (list_ascii_of_string s))
  | _ => Raise TypeError
  end.

(** [v[k]] for a string key [k]. *)
Definition subscript_str (v : value) (k : string) : res value :=
  match v with
  | VDict d => match dget k d with Some x => Ok x | None => Raise KeyError end
  | _ => Raise TypeError
  end.

(** [repaired["structures"][0]["id"] if repaired.get("structures") else "s1"],
    evaluated once [structures] has been coerced to a list. *)
Definition first_structure_id (d : dict) : res value :=
  match dget "structures" d with
  | Some (VList (s0 :: _)) => subscript_str s0 "id"
  | Some (VDict (_ :: _)) => Raise KeyError
  | Some v => if truthy v then Raise TypeError else Ok (VStr "s1")
  | None => Ok (VStr "s1")
  end.

(** [sum([s.get("duration", 0) for s in shots])] *)
Definition sum_durations (shots : value) : res value :=
  xs <- iterate shots ;;
  durs <- mapM (fun s => match s with
                         | VDict sd => Ok (dget_or "duration" (VInt 0) sd)
                         | _ => Raise AttributeError
                         end) xs ;;
  foldM py_add durs (VInt 0).

Definition establish_shot (target duration : value) : value :=
  VDict [("type", VStr "establish"); ("target", target);
         ("duration", duration)].

Definition coerce_list (k : string) (d : dict) : dict :=
  let v := dget_or k (VList []) d in
  dset k (if is_list v then v else VList []) d.

(** The block under the comment "Ensure required fields". *)
Definition ensure_required_fields (clk : clock) (repaired : dict) : dict :=
  let repaired :=
    dset "id"
         (dget_or "id" (VStr ("repaired_" ++ str_of_Z (now clk))) repaired)
         repaired in
  let repaired :=
    dset "title" (dget_or "title" (VStr "Repaired Dream") repaired)
         repaired in
  if in_style_enum (dget_or "style" VNone repaired) then repaired
  else dset "style" (VStr "ethereal") repaired.

(** The block under the comment "Ensure arrays". *)
Definition ensure_arrays (repaired : dict) : dict :=
  coerce_list "entities" (coerce_list "structures" repaired).

(** The block under the comment "Cinematography defaults". *)
Definition cinematography_defaults (repaired : dict) : res dict :=
  match dget "cinematography" repaired with
  | Some (VDict c) =>
      c <- (if dhas "durationSec" c then Ok c
            else
              total <- sum_durations (dget_or "shots" (VList []) c) ;;
              Ok (dset "durationSec"
                       (if truthy total then total else VInt 30) c)) ;;
      c <- match dget "shots" c with
           | Some (VList (_ :: _)) => Ok c
           | _ =>
               target <- first_structure_id repaired ;;
               Ok (dset "shots"
                     (VList [establish_shot target
                               (dget_or "durationSec" (VInt 30) c)])
                     c)
           end ;;
      Ok (dset "cinematography" (VDict c) repaired)
  | _ =>
      target <- first_structure_id repaired ;;
      Ok (dset "cinematography"
               (VDict [("durationSec", VInt 30);
                       ("shots", VList [establish_shot target (VInt 30)])])
               repaired)
  end.

Definition repair_dream (clk : clock) (dream : value) : res value :=
  match dream with
  | VDict repaired =>
      let repaired := ensure_required_fields clk repaired in
      let repaired := ensure_arrays repaired in
      repaired <- cinematography_defaults repaired ;;
      repaired <- append_to "assumptions"
                            (VStr "auto_repaired_missing_fields") repaired ;;
      Ok (VDict repaired)
  | _ => Raise AttributeError
  end.

(* ================================================================== *)
(** ** utils/validators.py: [safe_patch] *)

Definition color_map : list (string * string) :=
  [("red", "#ff0000"); ("blue", "#0000ff"); ("green", "#00ff00");
   ("yellow", "#ffff00"); ("purple", "#800080"); ("pink", "#ff69b4");
   ("orange", "#ffa500"); ("white", "#ffffff"); ("black", "#000000");
   ("gold", "#ffd700"); ("cyan", "#00ffff")].

(** [e.setdefault("params", {})[key] = v] *)
Definition set_param (key : string) (v : value) (e : value) : res value :=
  match e with
  | VDict ed =>
      match dget_or "params" (VDict []) ed with
      | VDict p => Ok (VDict (dset "params" (VDict (dset key v p)) ed))
      | _ => Raise TypeError
      end
  | _ => Raise AttributeError
  end.

(** [p = e.setdefault("params", {}); p["speed"] = f(p.get("speed", dflt))] *)
Definition update_speed (f : value -> res value) (dflt : value) (e : value)
  : res value :=
  match e with
  | VDict ed =>
      match dget_or "params" (VDict []) ed with
      | VDict p =>
          v <- f (dget_or "speed" dflt p) ;;
          Ok (VDict (dset "params" (VDict (dset "speed" v p)) ed))
      | _ => Raise AttributeError
      end
  | _ => Raise AttributeError
  end.

(** [for e in patched.get("entities", []): body(e)], where [body] mutates
    the entity in place.  Only the elements of a list are mutable objects
    of the document; the elements drawn from a dictionary or a string are
    fresh strings. *)
Definition for_entities (body : value -> res value) (patched : dict)
  : res dict :=
  match dget "entities" patched with
  | None => Ok patched
  | Some (VList es) =>
      es' <- mapM body es ;;
      Ok (dset "entities" (VList es') patched)
  | Some v =>
      xs <- iterate v ;;
      _ <- mapM body xs ;;
      Ok patched
  end.

(** [if patched.get("environment"):
       patched.setdefault("environment", {})["skyColor"] = v] *)
Definition set_sky (v : value) (patched : dict) : res dict :=
  if truthy (dget_or "environment" VNone patched) then
    match dget "environment" patched with
    | Some (VDict env) =>
        Ok (dset "environment" (VDict (dset "skyColor" v env)) patched)
    | _ => Raise TypeError
    end
  else Ok patched.

(** [d[k].append(x)] *)
Definition append_at (k : string) (x : value) (d : dict) : res dict :=
  match dget k d with
  | None => Raise KeyError
  | Some (VList xs) => Ok (dset k (VList (xs ++ [x])) d)
  | Some _ => Raise AttributeError
  end.

(** ["add island" in edit or ("add" in edit and "island" in edit)] *)
Definition wants (what : string) (edit : string) : bool :=
  contains ("add " ++ what) edit || (contains "add" edit && contains what edit).

Definition mentions_any (keys : list string) (edit : string) : bool :=
  existsb (fun k => contains k edit) keys.

Definition FASTER_WORDS : list string := ["faster"; "speed up"; "quick"].
Definition SLOWER_WORDS : list string := ["slower"; "calm"; "gentle"].

(** [min(10, speed * 1.5)] *)
Definition speed_up (speed : value) : res value :=
  x <- py_mul_float speed (3 # 2) ;;
  py_min (VInt 10) x.

(** [max(0.01, speed * 0.7)] *)
Definition slow_down (speed : value) : res value :=
  x <- py_mul_float speed (7 # 10) ;;
  py_max (VFloat (1 # 100)) x.

Definition history_entry (edit_text stamp source : string) : value :=
  VDict [("editText", VStr edit_text); ("appliedAt", VStr stamp);
         ("source", VStr source)].

(** One round of the colour loop of [safe_patch]: the body for the table
    entry [(k, v)]. *)
Definition safe_color_step (edit : string) (st : dict * list string)
           (kv : string * string) : res (dict * list string) :=
  let '(patched, applied) := st in
  let '(k, v) := kv in
  if contains k edit then
    patched <- for_entities (set_param "color" (VStr v)) patched ;;
    patched <- set_sky (VStr v) patched ;;
    Ok (patched, applied ++ [("color:" ++ k)%string])
  else Ok (patched, applied).

(** The structure [safe_patch] appends for an island. *)
Definition safe_island (clk : clock) : value :=
  VDict [("id", VStr ("added_island_" ++ str_of_Z (now clk)));
         ("template", VStr "floating_island");
         ("pos", VList [VInt 0; VInt 15; VInt 0]);
         ("scale", VFloat (4 # 5));
         ("features", VList [])].

Definition safe_patch (clk : clock) (base : value) (edit_text : string)
  : res value :=
  match base with
  | VDict patched =>
      let patched := setdefault "assumptions" (VList []) patched in
      let edit := lower edit_text in
      '(patched, applied) <-
        foldM (safe_color_step edit) color_map (patched, []) ;;
      '(patched, applied) <-
        (if wants "island" edit then
           patched <-
             append_to "structures" (safe_island clk) patched ;;
           Ok (patched, applied ++ ["added_island"])
         else Ok (patched, applied)) ;;
      '(patched, applied) <-
        (if mentions_any FASTER_WORDS edit then
           patched <- for_entities (update_speed speed_up (VFloat 1)) patched ;;
           Ok (patched, applied ++ ["increased_speed"])
         else Ok (patched, applied)) ;;
      patched <-
        append_at "assumptions"
          (match applied with
           | [] => VStr ("Requested edit recorded: " ++ dq ++ edit_text ++ dq)
           | _ => VStr ("safe_patch_applied:" ++ join "," applied)
           end)
          patched ;;
      patched <-
        append_to "patchHistory"
          (history_entry edit_text (stamp clk) "safe_patch") patched ;;
      Ok (VDict patched)
  | _ => Raise AttributeError
  end.

(* ================================================================== *)
(** ** main.py: the rule-based stub [stub_apply_patch] *)

(** [_ensure_lists(d)] *)
Definition ensure_list (k : string) (d : dict) : dict :=
  match dget k d with
  | Some (VList _) => d
  | _ => dset k (VList []) d
  end.

Definition _ensure_lists (d : dict) : dict :=
  ensure_list "assumptions" (ensure_list "entities" (ensure_list "structures" d)).

Definition stub_color_step (edit : string) (st : dict * list string)
           (kv : string * string) : res (dict * list string) :=
  let '(patched, applied) := st in
  let '(name, hexv) := kv in
  if contains name edit then
    patched <- for_entities (set_param "color" (VStr hexv)) patched ;;
    patched <- set_sky (VStr hexv) patched ;;
    Ok (patched, applied ++ [("color -> " ++ name)%string])
  else Ok (patched, applied).

Definition stub_apply_patch (clk : clock) (base_json : value)
           (edit_text : string) : res value :=
  match base_json with
  | VDict patched =>
      let patched := _ensure_lists patched in
      let edit := lower edit_text in
      '(patched, applied) <-
        foldM (stub_color_step edit) color_map (patched, []) ;;
      '(patched, applied, drawn) <-
        (if wants "island" edit then
           patched <-
             append_at "structures"
               (VDict [("id", VStr ("added_island_" ++ str_of_Z (now clk)));
                       ("template", VStr "floating_island");
                       ("pos",
                        VList [VFloat (uniform clk 0 (-30) 30);
                               VFloat (Qred (15 + uniform clk 1 0 5));
                               VFloat (uniform clk 2 (-30) 30)]);
                       ("scale", VFloat (4 # 5));
                       ("features", VList [])])
               patched ;;
           Ok (patched, applied ++ ["added floating_island"], 3%nat)
         else Ok (patched, applied, 0%nat)) ;;
      '(patched, applied) <-
        (if wants "tower" edit then
           patched <-
             append_at "structures"
               (VDict [("id", VStr ("added_tower_" ++ str_of_Z (now clk)));
                       ("template", VStr "crystal_tower");
                       ("pos",
                        VList [VFloat (uniform clk drawn (-20) 20);
                               VFloat (Qred (10 + uniform clk (drawn + 1) 0 20));
                               VFloat (uniform clk (drawn + 2) (-20) 20)]);
                       ("scale", VFloat (11 # 10));
                       ("features", VList [])])
               patched ;;
           Ok (patched, applied ++ ["added crystal_tower"])
         else Ok (patched, applied)) ;;
      '(patched, applied) <-
        (if mentions_any FASTER_WORDS edit then
           patched <- for_entities (update_speed speed_up (VFloat 1)) patched ;;
           Ok (patched, applied ++ ["increased speed"])
         else Ok (patched, applied)) ;;
      '(patched, applied) <-
        (if mentions_any SLOWER_WORDS edit then
           patched <- for_entities (update_speed slow_down (VFloat 1)) patched ;;
           Ok (patched, applied ++ ["decreased speed"])
         else Ok (patched, applied)) ;;
      '(patched, applied) <-
        (match applied with
         | [] =>
             patched <-
               append_to "assumptions"
                 (VStr ("Requested edit recorded: " ++ dq ++ edit_text ++ dq))
                 patched ;;
             Ok (patched, applied ++ ["recorded as assumption"])
         | _ => Ok (patched, applied)
         end) ;;
      patched <-
        append_to "patchHistory"
          (history_entry edit_text (stamp clk) "stub") patched ;;
      patched <-
        append_to "assumptions"
          (VStr ("Stub patch applied: " ++ join ", " applied)) patched ;;
      Ok (VDict patched)
  | _ => Raise TypeError
  end.

(* ================================================================== *)
(** ** utils/style_mapper.py: [apply_style] *)

(** One entry of [STYLE_CONFIGS]: the ["environment"] overrides and the
    three ["entityDefaults"]. *)
Record style_config : Type := {
  cfg_environment : dict;
  cfg_speed : Q;
  cfg_glow : Q;
  cfg_color : string
}.

Definition environment_of (preset : string) (fog : Q) (sky : string)
           (ambient : Q) : dict :=
  [("preset", VStr preset); ("fog", VFloat fog); ("skyColor", VStr sky);
   ("ambientLight", VFloat ambient)].

Definition ethereal_config : style_config :=
  {| cfg_environment := environment_of "dusk" (2 # 5) "#a6d8ff" (9 # 10);
     cfg_speed := 1; cfg_glow := 7 # 10; cfg_color := "#ffffff" |}.

Definition STYLE_CONFIGS : list (string * style_config) :=
  [("ethereal", ethereal_config);
   ("cyberpunk",
    {| cfg_environment := environment_of "night" (1 # 5) "#001133" (2 # 5);
       cfg_speed := 2; cfg_glow := 1; cfg_color := "#00ffff" |});
   ("surreal",
    {| cfg_environment := environment_of "void" (3 # 5) "#2d1a4a" (3 # 5);
       cfg_speed := 3 # 2; cfg_glow := 9 # 10; cfg_color := "#ff0080" |});
   ("fantasy",
    {| cfg_environment := environment_of "dawn" (3 # 10) "#ffb347" (11 # 10);
       cfg_speed := 4 # 5; cfg_glow := 3 # 5; cfg_color := "#ffd700" |});
   ("nightmare",
    {| cfg_environment := environment_of "night" (7 # 10) "#1a0d1a" (1 # 5);
       cfg_speed := 3 # 5; cfg_glow := 3 # 10; cfg_color := "#800020" |})].

Definition get_style_config (style : string) : style_config :=
  aget_or (lower style) ethereal_config STYLE_CONFIGS.

(** [d.update(other)] *)
Definition dict_update (d other : dict) : dict :=
  fold_left (fun acc kv => dset (fst kv) (snd kv) acc) other d.

(** The body of the entity loop of [apply_style]. *)
Definition style_entity (cfg : style_config) (entity : value) : res value :=
  match entity with
  | VDict ed =>
      match dget_or "params" (VDict []) ed with
      | VDict params =>
          let params := dset "color" (VStr (cfg_color cfg)) params in
          g <- py_mul_float (dget_or "glow" (VFloat (1 # 2)) params)
                            (cfg_glow cfg) ;;
          g <- py_min (VFloat 1) g ;;
          let params := dset "glow" g params in
          let params :=
            dset "speed" (dget_or "speed" (VFloat (cfg_speed cfg)) params)
                 params in
          Ok (VDict (dset "params" (VDict params) ed))
      | _ => Raise TypeError
      end
  | _ => Raise AttributeError
  end.

Definition apply_style (base : value) (style : string) : res value :=
  match base with
  | VDict out =>
      let cfg := get_style_config style in
      let out := setdefault "environment" (VDict []) out in
      out <- match dget "environment" out with
             | Some (VDict env) =>
                 Ok (dset "environment"
                          (VDict (dict_update env (cfg_environment cfg))) out)
             | _ => Raise AttributeError
             end ;;
      let out := dset "style" (VStr style) out in
      out <- for_entities (style_entity cfg) out ;;
      out <- append_to "assumptions"
               (VStr ("Deterministic style mapping applied -> " ++ style))
               out ;;
      Ok (VDict out)
  | _ => Raise AttributeError
  end.

(* ================================================================== *)
(** ** main.py: the rule-based stub [stub_enrich_style] *)

(** One entry of the stub's [style_map]. *)
Record stub_style : Type := {
  stub_ambient : Q;
  stub_sky : string;
  stub_color : string;
  stub_glow : Q
}.

Definition stub_ethereal : stub_style :=
  {| stub_ambient := 9 # 10; stub_sky := "#a6d8ff";
     stub_color := "#ffffff"; stub_glow := 11 # 10 |}.

Definition style_map : list (string * stub_style) :=
  [("ethereal", stub_ethereal);
   ("cyberpunk",
    {| stub_ambient := 2 # 5; stub_sky := "#001133";
       stub_color := "#00ffff"; stub_glow := 8 # 5 |});
   ("surreal",
    {| stub_ambient := 3 # 5; stub_sky := "#2d1a4a";
       stub_color := "#ff0080"; stub_glow := 6 # 5 |});
   ("fantasy",
    {| stub_ambient := 11 # 10; stub_sky := "#ffb347";
       stub_color := "#ffd700"; stub_glow := 1 |});
   ("nightmare",
    {| stub_ambient := 1 # 4; stub_sky := "#1a0d1a";
       stub_color := "#800020"; stub_glow := 3 # 5 |})].

(** [(target_style or enriched.get("style") or "ethereal").lower()] *)
Definition stub_style_name (target_style : string) (enriched : dict)
  : res string :=
  if negb (String.eqb target_style "") then Ok (lower target_style)
  else
    let v := dget_or "style" VNone enriched in
    if truthy v then
      match v with
      | VStr s => Ok (lower s)
      | _ => Raise AttributeError
      end
    else Ok (lower "ethereal").

(** The body of the entity loop of [stub_enrich_style]. *)
Definition stub_style_entity (cfg : stub_style) (e : value) : res value :=
  match e with
  | VDict ed =>
      match dget_or "params" (VDict []) ed with
      | VDict p =>
          let p := dset "color" (VStr (stub_color cfg)) p in
          g <- py_mul_float (dget_or "glow" (VFloat (1 # 2)) p)
                            (stub_glow cfg) ;;
          g <- py_min (VFloat 1) g ;;
          Ok (VDict (dset "params" (VDict (dset "glow" g p)) ed))
      | _ => Raise TypeError
      end
  | _ => Raise AttributeError
  end.

Definition stub_enrich_style (base_json : value) (target_style : string)
  : res value :=
  match base_json with
  | VDict enriched =>
      let enriched := _ensure_lists enriched in
      style <- stub_style_name target_style enriched ;;
      let cfg := aget_or style stub_ethereal style_map in
      let enriched := setdefault "environment" (VDict []) enriched in
      enriched <-
        match dget "environment" enriched with
        | Some (VDict env) =>
            Ok (dset "environment"
                     (VDict (dset "skyColor" (VStr (stub_sky cfg))
                               (dset "ambientLight"
                                     (VFloat (stub_ambient cfg)) env)))
                     enriched)
        | _ => Raise TypeError
        end ;;
      let enriched := dset "style" (VStr style) enriched in
      enriched <- for_entities (stub_style_entity cfg) enriched ;;
      enriched <-
        append_to "assumptions"
          (VStr ("Applied stub style enrichment -> " ++ style)) enriched ;;
      Ok (VDict enriched)
  | _ => Raise TypeError
  end.

(* ================================================================== *)
(** ** The standard library's [json.loads]

    A model of the decoder of Python's [json] package ([json/decoder.py],
    [json/scanner.py]), which the service calls but does not define.  It
    covers objects, arrays, strings with their escapes, integers, decimal
    numbers and the three literals; the non-standard literals [NaN],
    [Infinity] and [-Infinity] are rejected, since [value] has no such
    floats.  The recursion is bounded by the length of the text: every
    nested call has consumed at least one character. *)

Definition is_json_ws (c : ascii) : bool :=
  let n := nat_of_ascii c in
  (n =? 32)%nat || (n =? 9)%nat || (n =? 10)%nat || (n =? 13)%nat.

Fixpoint skip_ws (s : string) : string :=
  match s with
  | String c s' => if is_json_ws c then skip_ws s' else s
  | EmptyString => s
  end.

Definition digit_of (c : ascii) : option Z :=
  let n := nat_of_ascii c in
  if (48 <=? n)%nat && (n <=? 57)%nat then Some (Z.of_nat (n - 48)) else None.

Definition hex_of (c : ascii) : option Z :=
  let n := nat_of_ascii c in
  if (48 <=? n)%nat && (n <=? 57)%nat then Some (Z.of_nat (n - 48))
  else if (97 <=? n)%nat && (n <=? 102)%nat then Some (Z.of_nat (n - 87))
  else if (65 <=? n)%nat && (n <=? 70)%nat then Some (Z.of_nat (n - 55))
  else None.

Definition hex4 (a b c d : ascii) : option Z :=
  match hex_of a, hex_of b, hex_of c, hex_of d with
  | Some x, Some y, Some z, Some w => Some (((x * 16 + y) * 16 + z) * 16 + w)%Z
  | _, _, _, _ => None
  end.

Definition byte_of (z : Z) : ascii := ascii_of_nat (Z.to_nat z).

(** The UTF-8 bytes of a code point. *)
Definition utf8 (cp : Z) : list ascii :=
  if (cp <? 128)%Z then [byte_of cp]
  else if (cp <? 2048)%Z then
    [byte_of (192 + cp / 64); byte_of (128 + cp mod 64)]
  else if (cp <? 65536)%Z then
    [byte_of (224 + cp / 4096); byte_of (128 + (cp / 64) mod 64);
     byte_of (128 + cp mod 64)]
  else
    [byte_of (240 + cp / 262144); byte_of (128 + (cp / 4096) mod 64);
     byte_of (128 + (cp / 64) mod 64); byte_of (128 + cp mod 64)].

Fixpoint string_of_rev (acc : list ascii) (tail : string) : string :=
  match acc with
  | [] => tail
  | c :: acc' => string_of_rev acc' (String c tail)
  end.

Definition simple_escape (c : ascii) : option ascii :=
  match nat_of_ascii c with
  | 34 => Some (ascii_of_nat 34)   (* quote *)
  | 92 => Some (ascii_of_nat 92)   (* backslash *)
  | 47 => Some (ascii_of_nat 47)   (* slash *)
  | 98 => Some (ascii_of_nat 8)    (* b *)
  | 102 => Some (ascii_of_nat 12)  (* f *)
  | 110 => Some (ascii_of_nat 10)  (* n *)
  | 114 => Some (ascii_of_nat 13)  (* r *)
  | 116 => Some (ascii_of_nat 9)   (* t *)
  | _ => None
  end%nat.

Definition is_quote (c : ascii) : bool := (nat_of_ascii c =? 34)%nat.
Definition is_backslash (c : ascii) : bool := (nat_of_ascii c =? 92)%nat.
Definition is_char (n : nat) (c : ascii) : bool := (nat_of_ascii c =? n)%nat.

(** [py_scanstring] in strict mode, entered after the opening quote:
    the decoded string and the text after the closing quote. *)
Fixpoint scan_string (s : string) (acc : list ascii) : option (string * string) :=
  match s with
  | EmptyString => None
  | String c s1 =>
      if is_quote c then Some (string_of_rev acc "", s1)
      else if is_backslash c then
        match s1 with
        | String e s2 =>
            if is_char 117 e then
              match s2 with
              | String h1 (String h2 (String h3 (String h4 s3))) =>
                  match hex4 h1 h2 h3 h4 with
                  | Some hi =>
                      match s3 with
                      | String b (String u (String l1 (String l2
                          (String l3 (String l4 s4))))) =>
                          match hex4 l1 l2 l3 l4 with
                          | Some lo =>
                              if (55296 <=? hi)%Z && (hi <=? 56319)%Z
                                 && is_backslash b && is_char 117 u
                                 && (56320 <=? lo)%Z && (lo <=? 57343)%Z
                              then
                                scan_string s4
                                  (rev (utf8 (65536 + (hi - 55296) * 1024
                                              + (lo - 56320))) ++ acc)
                              else scan_string s3 (rev (utf8 hi) ++ acc)
                          | None => scan_string s3 (rev (utf8 hi) ++ acc)
                          end
                      | _ => scan_string s3 (rev (utf8 hi) ++ acc)
                      end
                  | None => None
                  end
              | _ => None
              end
            else
              match simple_escape e with
              | Some x => scan_string s2 (x :: acc)
              | None => None
              end
        | EmptyString => None
        end
      else if (nat_of_ascii c <? 32)%nat then None
      else scan_string s1 (c :: acc)
  end.

(** A maximal run of decimal digits: its value, its length, the rest. *)
Fixpoint scan_digits (s : string) (acc : Z) (n : nat) : Z * nat * string :=
  match s with
  | String c s' =>
      match digit_of c with
      | Some d => scan_digits s' (acc * 10 + d) (S n)
      | None => (acc, n, s)
      end
  | EmptyString => (acc, n, s)
  end.

Definition pow10 (e : Z) : Q :=
  if (0 <=? e)%Z then inject_Z (10 ^ e) else 1 / inject_Z (10 ^ (- e)).

(** The number pattern of the scanner at the head of [s]: an optional
    minus sign, then a zero or a digit run without leading zero, then an
    optional fraction (a dot and at least one digit), then an optional
    exponent (e or E, an optional sign, at least one digit).  The result
    is an [int] when neither fraction nor exponent is present, a [float]
    otherwise. *)
Definition scan_number (s : string) : option (value * string) :=
  let '(neg, s0) :=
    match s with
    | String c s' => if is_char 45 c then (true, s') else (false, s)
    | EmptyString => (false, s)
    end in
  let int_part :=
    match s0 with
    | String c s' =>
        if is_char 48 c then Some (0%Z, s')
        else match digit_of c with
             | Some _ => let '(v, _, r) := scan_digits s0 0 0 in Some (v, r)
             | None => None
             end
    | EmptyString => None
    end in
  match int_part with
  | None => None
  | Some (ip, s1) =>
      let '(frac, s2) :=
        match s1 with
        | String c s' =>
            if is_char 46 c then
              let '(v, n, r) := scan_digits s' 0 0 in
              match n with
              | O => (None, s1)
              | _ => (Some (v, n), r)
              end
            else (None, s1)
        | EmptyString => (None, s1)
        end in
      let '(expo, s3) :=
        match s2 with
        | String c s' =>
            if is_char 101 c || is_char 69 c then
              let '(sign, s'') :=
                match s' with
                | String g t =>
                    if is_char 45 g then ((-1)%Z, t)
                    else if is_char 43 g then (1%Z, t)
                    else (1%Z, s')
                | EmptyString => (1%Z, s')
                end in
              let '(v, n, r) := scan_digits s'' 0 0 in
              match n with
              | O => (None, s2)
              | _ => (Some (sign * v)%Z, r)
              end
            else (None, s2)
        | EmptyString => (None, s2)
        end in
      match frac, expo with
      | None, None => Some (VInt (if neg then - ip else ip), s3)
      | _, _ =>
          let '(fv, fn) := match frac with Some p => p | None => (0%Z, O) end in
          let e := match expo with Some e => e | None => 0%Z end in
          let m := (inject_Z ip + inject_Z fv * pow10 (- Z.of_nat fn)) * pow10 e in
          Some (VFloat (Qred (if neg then - m else m)), s3)
      end
  end.

Definition strip_prefix (p s : string) : option string :=
  if String.prefix p s
  then Some (substring (String.length p) (String.length s - String.length p) s)
  else None.

Fixpoint scan_value (fuel : nat) (s : string) : option (value * string) :=
  match fuel with
  | O => None
  | S fuel' =>
      match s with
      | EmptyString => None
      | String c rest =>
          if is_quote c then
            match scan_string rest [] with
            | Some (str, r) => Some (VStr str, r)
            | None => None
            end
          else if is_char 123 c then
            match skip_ws rest with
            | String c' r =>
                if is_char 125 c' then Some (VDict [], r)
                else scan_members fuel' (String c' r) []
            | EmptyString => None
            end
          else if is_char 91 c then
            match skip_ws rest with
            | String c' r =>
                if is_char 93 c' then Some (VList [], r)
                else scan_elements fuel' (String c' r) []
            | EmptyString => None
            end
          else
            match strip_prefix "null" s, strip_prefix "true" s,
                  strip_prefix "false" s with
            | Some r, _, _ => Some (VNone, r)
            | _, Some r, _ => Some (VBool true, r)
            | _, _, Some r => Some (VBool false, r)
            | None, None, None => scan_number s
            end
      end
  end

with scan_members (fuel : nat) (s : string) (acc : dict)
  : option (value * string) :=
  match fuel with
  | O => None
  | S fuel' =>
      match s with
      | String c rest =>
          if is_quote c then
            match scan_string rest [] with
            | Some (key, r) =>
                match skip_ws r with
                | String colon r1 =>
                    if is_char 58 colon then
                      match scan_value fuel' (skip_ws r1) with
                      | Some (v, r2) =>
                          match skip_ws r2 with
                          | String d r3 =>
                              if is_char 44 d then
                                scan_members fuel' (skip_ws r3) (dset key v acc)
                              else if is_char 125 d then
                                Some (VDict (dset key v acc), r3)
                              else None
                          | EmptyString => None
                          end
                      | None => None
                      end
                    else None
                | EmptyString => None
                end
            | None => None
            end
          else None
      | EmptyString => None
      end
  end

with scan_elements (fuel : nat) (s : string) (acc : list value)
  : option (value * string) :=
  match fuel with
  | O => None
  | S fuel' =>
      match scan_value fuel' s with
      | Some (v, r) =>
          match skip_ws r with
          | String d r1 =>
              if is_char 44 d then scan_elements fuel' (skip_ws r1) (acc ++ [v])
              else if is_char 93 d then Some (VList (acc ++ [v]), r1)
              else None
          | EmptyString => None
          end
      | None => None
      end
  end.

(** [json.loads(s)]: [None] stands for a raised [JSONDecodeError]. *)
Definition json_loads (s : string) : option value :=
  match scan_value (S (String.length s)) (skip_ws s) with
  | Some (v, r) =>
      match skip_ws r with
      | EmptyString => Some v
      | _ => None
      end
  | None => None
  end.

(* ================================================================== *)
(** ** utils/json_parser.py *)

Definition is_open (c : ascii) : bool := is_char 123 c.
Definition is_close (c : ascii) : bool := is_char 125 c.

(** [text.find(c)] for a one-character class. *)
Fixpoint find_first (p : ascii -> bool) (s : string) (i : nat) : option nat :=
  match s with
  | EmptyString => None
  | String c s' => if p c then Some i else find_first p s' (S i)
  end.

(** The index of the last character of [s] in the class [p]. *)
Fixpoint find_last (p : ascii -> bool) (s : string) (i : nat) : option nat :=
  match s with
  | EmptyString => None
  | String c s' =>
      match find_last p s' (S i) with
      | Some j => Some j
      | None => if p c then Some i else None
      end
  end.

(** The depth-counting loop of [_extract_first_json_block]: [i] is the
    index of the head of [cs] in the text; the result is the pair
    [(start, i)] at which the loop returns [text[start : i + 1]]. *)
Fixpoint scan_block (cs : string) (i : nat) (depth : Z) (start : option nat)
  : option (nat * nat) :=
  match cs with
  | EmptyString => None
  | String ch cs' =>
      if is_open ch then
        scan_block cs' (S i) (depth + 1)
                   (match start with None => Some i | Some _ => start end)
      else if is_close ch then
        let depth := (depth - 1)%Z in
        match start with
        | Some st =>
            if (depth =? 0)%Z then Some (st, i)
            else scan_block cs' (S i) depth start
        | None => scan_block cs' (S i) depth start
        end
      else scan_block cs' (S i) depth start
  end.

(** [text[a : b + 1]] *)
Definition slice (text : string) (a b : nat) : string :=
  substring a (S b - a) text.

(** The fallback [re.search] for an opening brace, any characters
    (greedy), and a closing brace: from the first opening brace to the
    last closing brace after it. *)
Definition regex_block (text : string) : option string :=
  match find_first is_open text 0, find_last is_close text 0 with
  | Some a, Some b => if (a <? b)%nat then Some (slice text a b) else None
  | _, _ => None
  end.

Definition _extract_first_json_block (text : value) : option string :=
  match text with
  | VStr t =>
      if String.eqb t "" then None
      else
        match find_first is_open t 0 with
        | None => None
        | Some _ =>
            match scan_block t 0 0 None with
            | Some (start, i) => Some (slice t start i)
            | None => regex_block t
            end
        end
  | _ => None
  end.

(** The whitespace class [\s] on the ASCII range. *)
Definition is_space (c : ascii) : bool :=
  let n := nat_of_ascii c in
  ((9 <=? n)%nat && (n <=? 13)%nat) || ((28 <=? n)%nat && (n <=? 32)%nat).

(** The substitution [re.sub] of [extract_json_from_text], which drops
    every comma that is followed by optional whitespace and a closing
    brace or bracket (together with that whitespace), as a left-to-right
    scan: [pending] holds a comma and the whitespace after it, reversed,
    until the next character decides whether they are dropped. *)
Fixpoint tidy_from (s : string) (pending : option (list ascii)) : string :=
  match s with
  | EmptyString =>
      match pending with
      | Some buf => string_of_rev buf ""
      | None => ""
      end
  | String c s' =>
      match pending with
      | None =>
          if is_char 44 c then tidy_from s' (Some [c])
          else String c (tidy_from s' None)
      | Some buf =>
          if is_space c then tidy_from s' (Some (c :: buf))
          else if is_char 125 c || is_char 93 c then String c (tidy_from s' None)
          else if is_char 44 c then
            string_of_rev buf (tidy_from s' (Some [c]))
          else string_of_rev buf (String c (tidy_from s' None))
      end
  end.

Definition tidy_trailing_commas (block : string) : string :=
  tidy_from block None.

Definition extract_json_from_text (text : value) : option value :=
  match _extract_first_json_block text with
  | None => None
  | Some block =>
      if String.eqb block "" then None
      else
        match json_loads block with
        | Some v => Some v
        | None => json_loads (tidy_trailing_commas block)
        end
  end.

Definition parse_json_or_none (text : value) : option value :=
  if truthy text then
    match text with
    | VStr t => json_loads t
    | _ => None
    end
  else None.

(* ================================================================== *)
(** ** services/patch_service.py and services/style_service.py

    The resolvers call the generation backend once, through
    [client.generate(prompt, ...)].  The prompt and the options only feed
    that call, so the embedding takes its outcome as the input [response]:
    the object the call returns, or the exception it raises.  Every theorem
    below quantifies over it or fixes it to a concrete text. *)

(** [x or y] on optional parse results ([None] is falsy). *)
Definition or_else (x : option value) (y : option value) : option value :=
  match x with
  | Some v => if truthy v then x else y
  | None => y
  end.

(** [k in v] for a string [k]. *)
Definition value_is_str (k : string) (v : value) : bool :=
  match v with
  | VStr s => String.eqb s k
  | _ => false
  end.

Definition py_in (k : string) (v : value) : res bool :=
  match v with
  | VDict d => Ok (dhas k d)
  | VList xs => Ok (existsb (value_is_str k) xs)
  | VStr s => Ok (contains k s)
  | _ => Raise TypeError
  end.

(** [d.get("assumptions", []) + [x]] *)
Definition assumptions_plus (x : value) (d : dict) : res value :=
  match dget_or "assumptions" (VList []) d with
  | VList xs => Ok (VList (xs ++ [x]))
  | _ => Raise TypeError
  end.

(** [safe_patch(base_json, edit_text)] followed by
    [fallback.setdefault("assumptions", []).append(tag)]. *)
Definition tagged (tag : string) (m : res value) : res value :=
  r <- m ;;
  match r with
  | VDict d => d' <- append_to "assumptions" (VStr tag) d ;; Ok (VDict d')
  | _ => Raise AttributeError
  end.

(** The body of the [try] block of [apply_patch]. *)
Definition apply_patch_try (clk : clock) (response : res value)
           (base_json : value) (edit_text : string) : res value :=
  response_text <- response ;;
  let patched :=
    or_else (extract_json_from_text response_text)
            (parse_json_or_none response_text) in
  match patched with
  | Some (VDict (b :: p')) =>
      let p := b :: p' in
      let '(valid, errors) := validate_dream (VDict p) in
      if valid then
        p <- (if negb (dhas "id" p) then
                has_id <- py_in "id" base_json ;;
                if has_id then
                  id <- subscript_str base_json "id" ;;
                  Ok (dset "id" id p)
                else Ok p
              else Ok p) ;;
        p <- append_to "patchHistory"
               (history_entry edit_text (stamp clk) "llama-stylist") p ;;
        Ok (VDict p)
      else
        repaired <- repair_dream clk (VDict p) ;;
        let '(v2, errs2) := validate_dream repaired in
        if v2 then tagged "auto-repaired after validation errors" (Ok repaired)
        else tagged "fallback_after_failed_repair"
                    (safe_patch clk base_json edit_text)
  | _ =>
      patched <- safe_patch clk base_json edit_text ;;
      match patched with
      | VDict d =>
          a <- assumptions_plus (VStr "used_safe_fallback") d ;;
          Ok (VDict (dset "assumptions" a d))
      | _ => Raise AttributeError
      end
  end.

(** [try: ... except Exception: fallback] *)
Definition try_except {A : Type} (body handler : res A) : res A :=
  match body with
  | Ok a => Ok a
  | Raise _ => handler
  end.

Definition apply_patch (clk : clock) (response : res value)
           (base_json : value) (edit_text : string) : res value :=
  try_except
    (apply_patch_try clk response base_json edit_text)
    (tagged "fallback_on_exception" (safe_patch clk base_json edit_text)).

(** [parsed.setdefault("metadata", {}).update({...})] *)
Definition merge_metadata (target_style : string) (parsed : dict) : res dict :=
  match dget_or "metadata" (VDict []) parsed with
  | VDict m =>
      Ok (dset "metadata"
               (VDict (dict_update m
                         [("enrichedBy", VStr "llama-stylist");
                          ("targetStyle", VStr target_style)]))
               parsed)
  | _ => Raise AttributeError
  end.

(** The body of the [try] block of [enrich_style]. *)
Definition enrich_style_try (clk : clock) (response : res value)
           (base_json : value) (target_style : string) : res value :=
  response_text <- response ;;
  let parsed :=
    or_else (extract_json_from_text response_text)
            (parse_json_or_none response_text) in
  match parsed with
  | Some (VDict (b :: p')) =>
      let p := b :: p' in
      let '(valid, errors) := validate_dream (VDict p) in
      if valid then
        let p := setdefault "style" (VStr target_style) p in
        p <- merge_metadata target_style p ;;
        Ok (VDict p)
      else
        repaired <- repair_dream clk (VDict p) ;;
        let '(v2, errs2) := validate_dream repaired in
        if v2 then tagged "repaired_enriched_result" (Ok repaired)
        else tagged "fallback_after_failed_repair"
                    (apply_style base_json target_style)
  | _ =>
      tagged "applied_deterministic_style_mapper"
             (apply_style base_json target_style)
  end.

Definition enrich_style (clk : clock) (response : res value)
           (base_json : value) (target_style : string) : res value :=
  try_except
    (enrich_style_try clk response base_json target_style)
    (tagged "fallback_on_exception" (apply_style base_json target_style)).

(* ================================================================== *)
(** * The same code over an object store

    Python dictionaries and lists are mutable objects reached through
    references.  This module embeds the transforms and resolvers once
    more, statement by statement, over an explicit store: a reference
    [RLoc l] names the cell at index [l], [copy.deepcopy] allocates new
    cells, and every assignment or [append] overwrites the cell it goes
    through.  Immutable objects (numbers, strings, [None]) are carried by
    value.  [copy.deepcopy] is modelled without its memo table, which
    agrees with Python on the tree-shaped documents JSON gives; its
    recursion is bounded by the size of the store, and the bound is
    reported as [RecursionError]. *)

Module Store.

Inductive ref : Type :=
| RNone
| RBool (b : bool)
| RInt (z : Z)
| RFloat (q : Q)
| RStr (s : string)
| RLoc (l : nat).

Inductive cell : Type :=
| CList (xs : list ref)
| CDict (kv : list (string * ref)).

Definition store : Type := list cell.

(** Computations that read and write the store and may raise; the store
    survives an exception. *)
Definition M (A : Type) : Type := store -> res A * store.

Definition ret {A : Type} (a : A) : M A := fun h => (Ok a, h).

Definition raise {A : Type} (e : exn) : M A := fun h => (Raise e, h).

Definition mbind {A B : Type} (m : M A) (k : A -> M B) : M B :=
  fun h =>
    match m h with
    | (Ok a, h') => k a h'
    | (Raise e, h') => (Raise e, h')
    end.

(** [try: body except Exception: handler] *)
Definition try_except {A : Type} (body handler : M A) : M A :=
  fun h =>
    match body h with
    | (Ok a, h') => (Ok a, h')
    | (Raise _, h') => handler h'
    end.

Declare Scope m_scope.
Delimit Scope m_scope with M.
Notation "x <- m ;; k" := (mbind m (fun x => k))
  (at level 61, m at next level, right associativity) : m_scope.
Notation "' p <- m ;; k" := (mbind m (fun p => k))
  (at level 61, p pattern, m at next level, right associativity) : m_scope.
Notation "m ;;; k" := (mbind m (fun _ => k))
  (at level 61, right associativity) : m_scope.
Local Open Scope m_scope.

Fixpoint set_nth {A : Type} (n : nat) (a : A) (l : list A) : list A :=
  match l, n with
  | [], _ => []
  | _ :: l', O => a :: l'
  | x :: l', S n' => x :: set_nth n' a l'
  end.

(** A new object. *)
Definition alloc (c : cell) : M ref :=
  fun h => (Ok (RLoc (length h)), h ++ [c]).

Definition load (l : nat) : M cell :=
  fun h =>
    match nth_error h l with
    | Some c => (Ok c, h)
    | None => (Raise Dangling, h)
    end.

Definition save (l : nat) (c : cell) : M unit :=
  fun h =>
    match nth_error h l with
    | Some _ => (Ok tt, set_nth l c h)
    | None => (Raise Dangling, h)
    end.

Fixpoint mapM {A B : Type} (f : A -> M B) (xs : list A) : M (list B) :=
  match xs with
  | [] => ret []
  | x :: xs' => y <- f x ;; ys <- mapM f xs' ;; ret (y :: ys)
  end.

(** [for x in xs: body(x)] *)
Fixpoint forM {A : Type} (body : A -> M unit) (xs : list A) : M unit :=
  match xs with
  | [] => ret tt
  | x :: xs' => body x ;;; forM body xs'
  end.

Fixpoint foldM {A S : Type} (f : S -> A -> M S) (xs : list A) (s : S) : M S :=
  match xs with
  | [] => ret s
  | x :: xs' => s' <- f s x ;; foldM f xs' s'
  end.

(** *** Objects *)

(** The items of a dictionary object; [e] is raised for anything else. *)
Definition items (r : ref) (e : exn) : M (list (string * ref)) :=
  match r with
  | RLoc l =>
      c <- load l ;;
      match c with
      | CDict kv => ret kv
      | CList _ => raise e
      end
  | _ => raise e
  end.

(** The elements of a list object; [e] is raised for anything else. *)
Definition elements (r : ref) (e : exn) : M (list ref) :=
  match r with
  | RLoc l =>
      c <- load l ;;
      match c with
      | CList xs => ret xs
      | CDict _ => raise e
      end
  | _ => raise e
  end.

(** [isinstance(r, dict)] and [isinstance(r, list)] *)
Definition is_dict (r : ref) : M bool :=
  match r with
  | RLoc l => c <- load l ;; ret (match c with CDict _ => true | _ => false end)
  | _ => ret false
  end.

Definition is_list (r : ref) : M bool :=
  match r with
  | RLoc l => c <- load l ;; ret (match c with CList _ => true | _ => false end)
  | _ => ret false
  end.

(** Python truthiness. *)
Definition truthy_at (r : ref) : M bool :=
  match r with
  | RNone => ret false
  | RBool b => ret b
  | RInt z => ret (negb (Z.eqb z 0))
  | RFloat q => ret (negb (Qeq_bool q 0))
  | RStr s => ret (negb (String.eqb s ""))
  | RLoc l =>
      c <- load l ;;
      ret (match c with
           | CList [] | CDict [] => false
           | _ => true
           end)
  end.

(** [d.get(k)], as an option. *)
Definition get (d : ref) (k : string) : M (option ref) :=
  kv <- items d AttributeError ;;
  ret (aget k kv).

(** [d.get(k, dflt)] for an immutable default. *)
Definition get_or (d : ref) (k : string) (dflt : ref) : M ref :=
  o <- get d k ;;
  ret (match o with Some v => v | None => dflt end).

(** [d.get(k, [])]: the method is looked up, the default list is built,
    and the call is made. *)
Definition get_or_new_list (d : ref) (k : string) : M ref :=
  _ <- items d AttributeError ;;
  dflt <- alloc (CList []) ;;
  get_or d k dflt.

(** [k in d] for a dictionary [d]. *)
Definition has (d : ref) (k : string) : M bool :=
  kv <- items d TypeError ;;
  ret (ahas k kv).

(** [d[k]] for a string key. *)
Definition subscript_str (d : ref) (k : string) : M ref :=
  kv <- items d TypeError ;;
  match aget k kv with
  | Some v => ret v
  | None => raise KeyError
  end.

(** [d[k] = v] *)
Definition setitem (d : ref) (k : string) (v : ref) : M unit :=
  match d with
  | RLoc l =>
      c <- load l ;;
      match c with
      | CDict kv => save l (CDict (aset k v kv))
      | CList _ => raise TypeError
      end
  | _ => raise TypeError
  end.

(** [d.setdefault(k, dflt)]: the method is looked up, the default is
    built, and the call is made. *)
Definition setdefault (d : ref) (k : string) (mk_default : M ref) : M ref :=
  kv <- items d AttributeError ;;
  dflt <- mk_default ;;
  match aget k kv with
  | Some v => ret v
  | None => setitem d k dflt ;;; ret dflt
  end.

Definition new_list : M ref := alloc (CList []).
Definition new_dict : M ref := alloc (CDict []).

(** [xs.append(v)] *)
Definition append (xs : ref) (v : ref) : M unit :=
  match xs with
  | RLoc l =>
      c <- load l ;;
      match c with
      | CList ys => save l (CList (ys ++ [v]))
      | CDict _ => raise AttributeError
      end
  | _ => raise AttributeError
  end.

(** [xs.append(arg)] where [arg] builds a new object: the method is
    looked up before the argument is built. *)
Definition append_new (xs : ref) (arg : M ref) : M unit :=
  _ <- elements xs AttributeError ;;
  v <- arg ;;
  append xs v.

(** The elements a [for] loop or a comprehension draws from [r]. *)
Definition iterate (r : ref) : M (list ref) :=
  match r with
  | RLoc l =>
      c <- load l ;;
      ret (match c with
           | CList xs => xs
           | CDict kv => map (fun p => RStr (fst p)) kv
           end)
  | RStr s => ret (map (fun c => RStr (String c "")) (list_ascii_of_string s))
  | _ => raise TypeError
  end.

(** [copy.deepcopy(r)] with recursion budget [fuel]. *)
Fixpoint deepcopy_fuel (fuel : nat) (r : ref) : M ref :=
  match r with
  | RLoc l =>
      match fuel with
      | O => raise RecursionError
      | S fuel' =>
          c <- load l ;;
          match c with
          | CList xs =>
              ys <- mapM (deepcopy_fuel fuel') xs ;;
              alloc (CList ys)
          | CDict kv =>
              kv' <- mapM (fun p => v <- deepcopy_fuel fuel' (snd p) ;;
                                    ret (fst p, v)) kv ;;
              alloc (CDict kv')
          end
      end
  | _ => ret r
  end.

Definition deepcopy (r : ref) : M ref :=
  fun h => deepcopy_fuel (S (length h)) r h.

(** A new object tree for a value, as [json.loads] or a literal builds
    it. *)
Fixpoint build (v : value) : M ref :=
  match v with
  | VNone => ret RNone
  | VBool b => ret (RBool b)
  | VInt z => ret (RInt z)
  | VFloat q => ret (RFloat q)
  | VStr s => ret (RStr s)
  | VList xs =>
      (fix build_list (xs : list value) (acc : list ref) : M ref :=
         match xs with
         | [] => alloc (CList acc)
         | x :: xs' => r <- build x ;; build_list xs' (acc ++ [r])
         end) xs []
  | VDict kv =>
      (fix build_items (kv : list (string * value))
           (acc : list (string * ref)) : M ref :=
         match kv with
         | [] => alloc (CDict acc)
         | (k, x) :: kv' => r <- build x ;; build_items kv' (acc ++ [(k, r)])
         end) kv []
  end.

(** The value a reference stands for, read with budget [fuel]. *)
Fixpoint read (fuel : nat) (h : store) (r : ref) : option value :=
  match r with
  | RNone => Some VNone
  | RBool b => Some (VBool b)
  | RInt z => Some (VInt z)
  | RFloat q => Some (VFloat q)
  | RStr s => Some (VStr s)
  | RLoc l =>
      match fuel with
      | O => None
      | S fuel' =>
          match nth_error h l with
          | Some (CList xs) =>
              option_map VList
                (fold_right (fun x acc =>
                               match read fuel' h x, acc with
                               | Some v, Some vs => Some (v :: vs)
                               | _, _ => None
                               end) (Some []) xs)
          | Some (CDict kv) =>
              option_map VDict
                (fold_right (fun p acc =>
                               match read fuel' h (snd p), acc with
                               | Some v, Some vs => Some ((fst p, v) :: vs)
                               | _, _ => None
                               end) (Some []) kv)
          | None => None
          end
      end
  end.

(** *** Numbers *)

Definition num_of (r : ref) : option Q :=
  match r with
  | RBool b => Some (if b then 1 else 0)
  | RInt z => Some (inject_Z z)
  | RFloat q => Some q
  | _ => None
  end.

Definition int_of (r : ref) : option Z :=
  match r with
  | RBool b => Some (if b then 1 else 0)%Z
  | RInt z => Some z
  | _ => None
  end.

Definition py_mul_float (v : ref) (m : Q) : M ref :=
  match num_of v with
  | Some x => ret (RFloat (Qred (x * m)))
  | None => raise TypeError
  end.

Definition py_min (a x : ref) : M ref :=
  match num_of a, num_of x with
  | Some qa, Some qx => ret (if Qltb qx qa then x else a)
  | _, _ => raise TypeError
  end.

Definition py_max (a x : ref) : M ref :=
  match num_of a, num_of x with
  | Some qa, Some qx => ret (if Qltb qa qx then x else a)
  | _, _ => raise TypeError
  end.

Definition py_add (a b : ref) : M ref :=
  match int_of a, int_of b with
  | Some x, Some y => ret (RInt (x + y))
  | _, _ =>
      match num_of a, num_of b with
      | Some x, Some y => ret (RFloat (Qred (x + y)))
      | _, _ => raise TypeError
      end
  end.

(** *** utils/validators.py over the store *)

Definition in_style_enum (r : ref) : bool :=
  match r with
  | RStr s => existsb (String.eqb s) STYLE_NAMES
  | _ => false
  end.

(** The value shown in an [invalid_style] code. *)
Definition shown (r : ref) : M value :=
  fun h => (Ok (match read (S (length h)) h r with
                | Some v => v
                | None => VNone
                end), h).

Definition validate_dream (dream : ref) : M (bool * list verror) :=
  isd <- is_dict dream ;;
  if negb isd then ret (false, [NotAnObject])
  else
    kv <- items dream TypeError ;;
    let errors :=
      flat_map (fun field =>
                  if ahas field kv then [] else [MissingRequired field])
               REQUIRED_FIELDS in
    errors <-
      match aget "style" kv with
      | Some s =>
          if in_style_enum s then ret errors
          else v <- shown s ;; ret (errors ++ [InvalidStyle v])
      | None => ret errors
      end ;;
    errors <-
      match aget "cinematography" kv with
      | None => ret errors
      | Some c =>
          cd <- is_dict c ;;
          if negb cd then ret (errors ++ [CinematographyNotObject])
          else
            ckv <- items c TypeError ;;
            if negb (ahas "durationSec" ckv) || negb (ahas "shots" ckv)
            then ret (errors ++ [CinematographyMissingDurationOrShots])
            else
              shots <- subscript_str c "shots" ;;
              sl <- is_list shots ;;
              if negb sl then ret (errors ++ [CinematographyShotsInvalid])
              else
                xs <- elements shots TypeError ;;
                match xs with
                | [] => ret (errors ++ [CinematographyShotsInvalid])
                | _ => ret errors
                end
      end ;;
    ret (Nat.eqb (length errors) 0, errors).

(** [x[0]] for a list, a string or anything else. *)
Definition first_item (x : ref) : M ref :=
  match x with
  | RLoc l =>
      c <- load l ;;
      match c with
      | CList (y :: _) => ret y
      | CList [] => raise IndexError
      | CDict _ => raise KeyError
      end
  | RStr (String c _) => ret (RStr (String c ""))
  | RStr EmptyString => raise IndexError
  | _ => raise TypeError
  end.

(** [repaired["structures"][0]["id"] if repaired.get("structures")
    else "s1"] *)
Definition first_structure_id (repaired : ref) : M ref :=
  o <- get repaired "structures" ;;
  t <- truthy_at (match o with Some v => v | None => RNone end) ;;
  if t then
    ss <- subscript_str repaired "structures" ;;
    s0 <- first_item ss ;;
    subscript_str s0 "id"
  else ret (RStr "s1").

(** [sum([s.get("duration", 0) for s in shots])] *)
Definition sum_durations (shots : ref) : M ref :=
  xs <- iterate shots ;;
  durs <- mapM (fun s => get_or s "duration" (RInt 0)) xs ;;
  foldM py_add durs (RInt 0).

(** [{"type": "establish", "target": target, "duration": duration}] *)
Definition establish_shot (target : M ref) (duration : M ref) : M ref :=
  t <- target ;;
  d <- duration ;;
  alloc (CDict [("type", RStr "establish"); ("target", t); ("duration", d)]).

(** [repaired[k] = repaired.get(k, []) if isinstance(repaired.get(k, []),
    list) else []] *)
Definition coerce_list (k : string) (repaired : ref) : M unit :=
  probe <- get_or_new_list repaired k ;;
  il <- is_list probe ;;
  v <- (if il then get_or_new_list repaired k else new_list) ;;
  setitem repaired k v.

Definition ensure_required_fields (clk : clock) (repaired : ref) : M unit :=
  id <- get_or repaired "id" (RStr ("repaired_" ++ str_of_Z (now clk))) ;;
  setitem repaired "id" id ;;;
  title <- get_or repaired "title" (RStr "Repaired Dream") ;;
  setitem repaired "title" title ;;;
  style <- get_or repaired "style" RNone ;;
  if in_style_enum style then ret tt
  else setitem repaired "style" (RStr "ethereal").

Definition ensure_arrays (repaired : ref) : M unit :=
  coerce_list "structures" repaired ;;;
  coerce_list "entities" repaired.

Definition cinematography_defaults (repaired : ref) : M unit :=
  present <- has repaired "cinematography" ;;
  usable <- (if present then
               c <- subscript_str repaired "cinematography" ;; is_dict c
             else ret false) ;;
  if negb usable then
    shot <- establish_shot (first_structure_id repaired) (ret (RInt 30)) ;;
    shots <- alloc (CList [shot]) ;;
    c <- alloc (CDict [("durationSec", RInt 30); ("shots", shots)]) ;;
    setitem repaired "cinematography" c
  else
    c <- subscript_str repaired "cinematography" ;;
    has_duration <- has c "durationSec" ;;
    (if has_duration then ret tt
     else
       shots <- get_or_new_list c "shots" ;;
       total <- sum_durations shots ;;
       t <- truthy_at total ;;
       setitem c "durationSec" (if t then total else RInt 30)) ;;;
    has_shots <- has c "shots" ;;
    good <- (if has_shots then
               shots <- subscript_str c "shots" ;;
               sl <- is_list shots ;;
               if sl then
                 xs <- elements shots TypeError ;;
                 ret (match xs with [] => false | _ => true end)
               else ret false
             else ret false) ;;
    if good then ret tt
    else
      shot <- establish_shot (first_structure_id repaired)
                             (get_or c "durationSec" (RInt 30)) ;;
      shots <- alloc (CList [shot]) ;;
      setitem c "shots" shots.

Definition repair_dream (clk : clock) (dream : ref) : M ref :=
  repaired <- deepcopy dream ;;
  ensure_required_fields clk repaired ;;;
  ensure_arrays repaired ;;;
  cinematography_defaults repaired ;;;
  assumptions <- setdefault repaired "assumptions" new_list ;;
  append assumptions (RStr "auto_repaired_missing_fields") ;;;
  ret repaired.

(** [e.setdefault("params", {})[key] = v] *)
Definition set_param (key : string) (v : ref) (e : ref) : M unit :=
  params <- setdefault e "params" new_dict ;;
  setitem params key v.

(** [min(10, speed * 1.5)] and [max(0.01, speed * 0.7)] *)
Definition speed_up (speed : ref) : M ref :=
  x <- py_mul_float speed (3 # 2) ;;
  py_min (RInt 10) x.

Definition slow_down (speed : ref) : M ref :=
  x <- py_mul_float speed (7 # 10) ;;
  py_max (RFloat (1 # 100)) x.

(** [p = e.setdefault("params", {}); p["speed"] = f(p.get("speed", 1.0))] *)
Definition update_speed (f : ref -> M ref) (e : ref) : M unit :=
  p <- setdefault e "params" new_dict ;;
  old <- get_or p "speed" (RFloat 1) ;;
  v <- f old ;;
  setitem p "speed" v.

(** [for e in patched.get("entities", []): body(e)] *)
Definition for_entities (body : ref -> M unit) (patched : ref) : M unit :=
  es <- get_or_new_list patched "entities" ;;
  xs <- iterate es ;;
  forM body xs.

(** [if patched.get("environment"):
       patched.setdefault("environment", {})["skyColor"] = v] *)
Definition set_sky (v : ref) (patched : ref) : M unit :=
  env <- get_or patched "environment" RNone ;;
  t <- truthy_at env ;;
  if t then
    env <- setdefault patched "environment" new_dict ;;
    setitem env "skyColor" v
  else ret tt.

Definition history_entry (edit_text stamp source : string) : M ref :=
  alloc (CDict [("editText", RStr edit_text); ("appliedAt", RStr stamp);
                ("source", RStr source)]).

(** The dictionary literal of a new structure. *)
Definition new_structure (id template : string) (pos : list ref) (scale : Q)
  : M ref :=
  p <- alloc (CList pos) ;;
  f <- new_list ;;
  alloc (CDict [("id", RStr id); ("template", RStr template); ("pos", p);
                ("scale", RFloat scale); ("features", f)]).

Definition safe_color_step (edit : string) (patched : ref)
           (applied : list string) (kv : string * string) : M (list string) :=
  let '(k, v) := kv in
  if contains k edit then
    for_entities (set_param "color" (RStr v)) patched ;;;
    set_sky (RStr v) patched ;;;
    ret (applied ++ [("color:" ++ k)%string])
  else ret applied.

Definition safe_patch (clk : clock) (base : ref) (edit_text : string) : M ref :=
  patched <- deepcopy base ;;
  _ <- setdefault patched "assumptions" new_list ;;
  let edit := lower edit_text in
  applied <- foldM (safe_color_step edit patched) color_map [] ;;
  applied <-
    (if wants "island" edit then
       structures <- setdefault patched "structures" new_list ;;
       append_new structures
         (new_structure ("added_island_" ++ str_of_Z (now clk))
                        "floating_island"
                        [RInt 0; RInt 15; RInt 0] (4 # 5)) ;;;
       ret (applied ++ ["added_island"])
     else ret applied) ;;
  applied <-
    (if mentions_any FASTER_WORDS edit then
       for_entities (update_speed speed_up) patched ;;;
       ret (applied ++ ["increased_speed"])
     else ret applied) ;;
  assumptions <- subscript_str patched "assumptions" ;;
  append assumptions
         (match applied with
          | [] => RStr ("Requested edit recorded: " ++ dq ++ edit_text ++ dq)
          | _ => RStr ("safe_patch_applied:" ++ join "," applied)
          end) ;;;
  history <- setdefault patched "patchHistory" new_list ;;
  append_new history (history_entry edit_text (stamp clk) "safe_patch") ;;;
  ret patched.

(** *** utils/style_mapper.py over the store *)

Definition ref_of_prim (v : value) : ref :=
  match v with
  | VBool b => RBool b
  | VInt z => RInt z
  | VFloat q => RFloat q
  | VStr s => RStr s
  | _ => RNone
  end.

(** [d.update(other)] for a table of immutable values. *)
Definition update (d : ref) (other : dict) : M unit :=
  match d with
  | RLoc l =>
      c <- load l ;;
      match c with
      | CDict kv =>
          save l (CDict (fold_left
                           (fun acc p => aset (fst p) (ref_of_prim (snd p)) acc)
                           other kv))
      | CList _ => raise AttributeError
      end
  | _ => raise AttributeError
  end.

Definition style_entity (cfg : style_config) (entity : ref) : M unit :=
  params <- setdefault entity "params" new_dict ;;
  setitem params "color" (RStr (cfg_color cfg)) ;;;
  glow <- get_or params "glow" (RFloat (1 # 2)) ;;
  g <- py_mul_float glow (cfg_glow cfg) ;;
  g <- py_min (RFloat 1) g ;;
  setitem params "glow" g ;;;
  speed <- get_or params "speed" (RFloat (cfg_speed cfg)) ;;
  setitem params "speed" speed.

Definition apply_style (base : ref) (style : string) : M ref :=
  out <- deepcopy base ;;
  let cfg := get_style_config style in
  _ <- setdefault out "environment" new_dict ;;
  env <- subscript_str out "environment" ;;
  update env (cfg_environment cfg) ;;;
  setitem out "style" (RStr style) ;;;
  for_entities (style_entity cfg) out ;;;
  assumptions <- setdefault out "assumptions" new_list ;;
  append assumptions
         (RStr ("Deterministic style mapping applied -> " ++ style)) ;;;
  ret out.

(** *** The resolvers over the store *)

(** [fallback.setdefault("assumptions", []).append(tag)] *)
Definition tag_with (tag : string) (doc : ref) : M ref :=
  assumptions <- setdefault doc "assumptions" new_list ;;
  append assumptions (RStr tag) ;;;
  ret doc.

(** The object a parse builds, paired with the value it stands for. *)
Definition built (parsed : option value) : M (option (value * ref)) :=
  match parsed with
  | Some v => r <- build v ;; ret (Some (v, r))
  | None => ret None
  end.

(** [patched = extract_json_from_text(text)], then
    [patched = parse_json_or_none(text)] when that is falsy; the result is
    kept when it is a non-empty dictionary. *)
Definition parse_response (text : value) : M (option ref) :=
  first <- built (extract_json_from_text text) ;;
  chosen <-
    match first with
    | Some (v, r) =>
        if truthy v then ret first
        else built (parse_json_or_none text)
    | None => built (parse_json_or_none text)
    end ;;
  ret (match chosen with
       | Some (VDict (_ :: _), r) => Some r
       | _ => None
       end).

(** [k in v] for a string [k] and any object [v]. *)
Definition py_in (k : string) (v : ref) : M bool :=
  match v with
  | RLoc l =>
      c <- load l ;;
      ret (match c with
           | CDict kv => ahas k kv
           | CList xs =>
               existsb (fun x => match x with
                                 | RStr s => String.eqb s k
                                 | _ => false
                                 end) xs
           end)
  | RStr s => ret (contains k s)
  | _ => raise TypeError
  end.

Definition apply_patch_try (clk : clock) (response : res value)
           (base_json : ref) (edit_text : string) : M ref :=
  match response with
  | Raise e => raise e
  | Ok response_text =>
      parsed <- parse_response response_text ;;
      match parsed with
      | None =>
          patched <- safe_patch clk base_json edit_text ;;
          old <- get_or_new_list patched "assumptions" ;;
          tag <- alloc (CList [RStr "used_safe_fallback"]) ;;
          xs <- elements old TypeError ;;
          ys <- elements tag TypeError ;;
          a <- alloc (CList (xs ++ ys)) ;;
          setitem patched "assumptions" a ;;;
          ret patched
      | Some patched =>
          '(valid, errors) <- validate_dream patched ;;
          if valid then
            has_id <- has patched "id" ;;
            (if negb has_id then
               base_has <- py_in "id" base_json ;;
               if base_has then
                 id <- subscript_str base_json "id" ;;
                 setitem patched "id" id
               else ret tt
             else ret tt) ;;;
            history <- setdefault patched "patchHistory" new_list ;;
            append_new history
              (history_entry edit_text (stamp clk) "llama-stylist") ;;;
            ret patched
          else
            repaired <- repair_dream clk patched ;;
            '(v2, errs2) <- validate_dream repaired ;;
            if v2 then tag_with "auto-repaired after validation errors" repaired
            else
              fallback <- safe_patch clk base_json edit_text ;;
              tag_with "fallback_after_failed_repair" fallback
      end
  end.

Definition apply_patch (clk : clock) (response : res value)
           (base_json : ref) (edit_text : string) : M ref :=
  try_except
    (apply_patch_try clk response base_json edit_text)
    (fallback <- safe_patch clk base_json edit_text ;;
     tag_with "fallback_on_exception" fallback).

Definition enrich_style_try (clk : clock) (response : res value)
           (base_json : ref) (target_style : string) : M ref :=
  match response with
  | Raise e => raise e
  | Ok response_text =>
      parsed <- parse_response response_text ;;
      match parsed with
      | None =>
          enriched <- apply_style base_json target_style ;;
          tag_with "applied_deterministic_style_mapper" enriched
      | Some parsed =>
          '(valid, errors) <- validate_dream parsed ;;
          if valid then
            _ <- setdefault parsed "style" (ret (RStr target_style)) ;;
            metadata <- setdefault parsed "metadata" new_dict ;;
            update metadata [("enrichedBy", VStr "llama-stylist");
                             ("targetStyle", VStr target_style)] ;;;
            ret parsed
          else
            repaired <- repair_dream clk parsed ;;
            '(v2, errs2) <- validate_dream repaired ;;
            if v2 then tag_with "repaired_enriched_result" repaired
            else
              enriched <- apply_style base_json target_style ;;
              tag_with "fallback_after_failed_repair" enriched
      end
  end.

Definition enrich_style (clk : clock) (response : res value)
           (base_json : ref) (target_style : string) : M ref :=
  try_except
    (enrich_style_try clk response base_json target_style)
    (enriched <- apply_style base_json target_style ;;
     tag_with "fallback_on_exception" enriched).

(** *** Ownership

    The predicates the frame properties of the service are stated with.
    The cells below [n0] are the caller's; the cells from [n0] on are the
    callee's own. *)

Local Open Scope nat_scope.

(** A reference the run may write through: an immutable object or a cell
    allocated after the first [n0]. *)
Definition fresh (n0 : nat) (r : ref) : Prop :=
  match r with
  | RLoc l => n0 <= l
  | _ => True
  end.

Definition cell_fresh (n0 : nat) (c : cell) : Prop :=
  match c with
  | CList xs => Forall (fresh n0) xs
  | CDict kv => Forall (fun p => fresh n0 (snd p)) kv
  end.

Definition closed (n0 : nat) (h : store) : Prop :=
  forall l c, n0 <= l -> nth_error h l = Some c -> cell_fresh n0 c.

(** The first [n0] cells are the same in [h'] as in [h]. *)
Definition frame (n0 : nat) (h h' : store) : Prop :=
  length h <= length h' /\
  forall l, l < n0 -> nth_error h' l = nth_error h l.

(** [m] keeps the first [n0] cells and the invariant, and its result
    satisfies [Q]. *)
Definition safe {A : Type} (n0 : nat) (m : M A) (Q : A -> Prop) : Prop :=
  forall h,
    n0 <= length h -> closed n0 h ->
    frame n0 h (snd (m h)) /\
    closed n0 (snd (m h)) /\
    match fst (m h) with
    | Ok a => Q a
    | Raise _ => True
    end.

(** [m] keeps the first [n0] cells; nothing is said about the rest. *)
Definition keeps {A : Type} (n0 : nat) (m : M A) : Prop :=
  forall h, n0 <= length h -> closed n0 h -> frame n0 h (snd (m h)).

(** [m] keeps every cell of the store it starts in. *)
Definition preserves {A : Type} (m : M A) : Prop :=
  forall h, frame (length h) h (snd (m h)).

(** [m], started in a store where [P] holds, keeps the first [n0] cells
    and ends, when it returns [a], in a store where [Q a] holds. *)
Definition triple {A : Type} (n0 : nat) (P : store -> Prop) (m : M A)
           (Q : A -> store -> Prop) : Prop :=
  forall h,
    n0 <= length h -> P h ->
    frame n0 h (snd (m h)) /\
    match fst (m h) with
    | Ok a => Q a (snd (m h))
    | Raise _ => True
    end.

(** The dictionary at [l] keeps a history list of its own, if it has one. *)
Definition history_slot (n0 l : nat) (h : store) : Prop :=
  exists kv,
    nth_error h l = Some (CDict kv) /\
    forall v, aget "patchHistory" kv = Some v -> fresh n0 v.

End Store.

(** * Properties

    The predicates and sample inputs the theorems below are stated with. *)

(** What the validator requires of a document, read off the document. *)
Definition repaired_ok (r : value) : Prop :=
  exists d,
    r = VDict d /\
    dhas "id" d = true /\
    dhas "title" d = true /\
    (exists s, dget "style" d = Some (VStr s) /\ In s STYLE_NAMES) /\
    (exists c shot shots,
        dget "cinematography" d = Some (VDict c) /\
        dhas "durationSec" c = true /\
        dget "shots" c = Some (VList (shot :: shots))).

(** The shapes on which [repair_dream] does not raise. *)
Definition is_num (v : value) : bool :=
  match num_of v with Some _ => true | None => false end.




(** The document after the default cinematography has been installed. *)
Definition cinematography_defaults_target (d : dict) (target : value)
           (d' : dict) : Prop :=
  d' = dset "cinematography"
            (VDict [("durationSec", VInt 30);
                    ("shots", VList [establish_shot target (VInt 30)])]) d.


(** Observers of a document. *)
Definition field (k : string) (r : value) : option value :=
  match r with VDict d => dget k d | _ => None end.

Definition entities_of (r : value) : list value :=
  match field "entities" r with Some (VList es) => es | _ => [] end.

Definition param_of (key : string) (e : value) : option value :=
  match field "params" e with Some p => field key p | None => None end.

Definition or_default (dflt : value) (o : option value) : value :=
  match o with Some v => v | None => dflt end.

(** [min(1.0, glow * m)] on the numeric reading [x] of [glow]. *)
Definition scaled_glow (m x : Q) : value :=
  if Qltb (Qred (x * m)) 1 then VFloat (Qred (x * m)) else VFloat 1.

(** Whether the entity loop runs to its end, given the value under
    [entities]. *)
Definition loop_returns (body : value -> res value) (ev : option value)
  : bool :=
  match ev with
  | None => true
  | Some v =>
      match iterate v with
      | Ok xs => forallb (fun e => returns (body e)) xs
      | Raise _ => false
      end
  end.

(** The colour loops of [safe_patch] and [stub_apply_patch] differ in the
    label they record only. *)
Definition color_step_with (label : string -> string) (edit : string)
           (st : dict * list string) (kv : string * string)
  : res (dict * list string) :=
  let '(patched, applied) := st in
  let '(k, v) := kv in
  if contains k edit then
    patched <- for_entities (set_param "color" (VStr v)) patched ;;
    patched <- set_sky (VStr v) patched ;;
    Ok (patched, applied ++ [label k])
  else Ok (patched, applied).

(** The hex value of the last table entry whose keyword occurs in the
    text. *)
Fixpoint last_hex (cm : list (string * string)) (edit : string)
  : option string :=
  match cm with
  | [] => None
  | (k, v) :: cm' =>
      match last_hex cm' edit with
      | Some h => Some h
      | None => if contains k edit then Some v else None
      end
  end.

Definition mentioned (cm : list (string * string)) (edit : string)
  : list string :=
  filter (fun k => contains k edit) (map fst cm).

(** What the colour loop does to one entity. *)
Definition painted (hex : option string) (e e' : value) : Prop :=
  match hex with
  | None => e' = e
  | Some h =>
      param_of "color" e' = Some (VStr h) /\
      (forall k, k <> "color" -> param_of k e' = param_of k e)
  end.

(** What the colour loop does to the environment. *)
Definition sky_painted (hex : option string) (p p' : dict) : Prop :=
  match hex with
  | None => dget "environment" p' = dget "environment" p
  | Some h =>
      (truthy (dget_or "environment" VNone p) = true ->
       exists env env',
         dget "environment" p = Some (VDict env) /\
         dget "environment" p' = Some (VDict env') /\
         dget "skyColor" env' = Some (VStr h) /\
         (forall k, k <> "skyColor" -> dget k env' = dget k env)) /\
      (truthy (dget_or "environment" VNone p) = false ->
       dget "environment" p' = dget "environment" p)
  end.

(** The value under [entities] stays a list, or stays what it was. *)
Definition same_kind (p p' : dict) : Prop :=
  (is_list (or_default VNone (dget "entities" p)) = true ->
   is_list (or_default VNone (dget "entities" p')) = true) /\
  (is_list (or_default VNone (dget "entities" p)) = false ->
   dget "entities" p' = dget "entities" p).

(** The rules [safe_patch] reports for a lower-cased edit text. *)
Definition safe_applied (edit : string) : list string :=
  map (fun k => ("color:" ++ k)%string) (mentioned color_map edit)
  ++ (if wants "island" edit then ["added_island"] else [])
  ++ (if mentions_any FASTER_WORDS edit then ["increased_speed"] else []).

(** The entry [safe_patch] appends to [assumptions]. *)
Definition safe_note (edit_text : string) : value :=
  match safe_applied (lower edit_text) with
  | [] => VStr ("Requested edit recorded: " ++ dq ++ edit_text ++ dq)
  | applied => VStr ("safe_patch_applied:" ++ join "," applied)
  end.

(** What [safe_patch] does to one entity. *)
Definition safe_entity (edit : string) (e e' : value) : Prop :=
  exists e1,
    painted (last_hex color_map edit) e e1 /\
    if mentions_any FASTER_WORDS edit
    then update_speed speed_up (VFloat 1) e1 = Ok e'
    else e' = e1.


Definition sample_clock : clock :=
  {| now := 1700000000; stamp := "2023-11-14T22:13:20Z";
     rnd := fun _ => 1 # 2 |}.

(** A document without [id], [title], [style] and [cinematography], and
    with one structure that carries an [id]. *)
Definition bare_document : dict :=
  [("structures",
    VList [VDict [("id", VStr "s1"); ("template", VStr "floating_library")]]);
   ("entities", VList [])].

Definition glow_num (e : value) : option Q :=
  match param_of "glow" e with Some g => num_of g | None => None end.

(** The glow of [e2] is at most the glow of [e1]. *)
Definition glow_le (e1 e2 : value) : Prop :=
  exists q1 q2, glow_num e1 = Some q1 /\ glow_num e2 = Some q2 /\ q2 <= q1.

Definition colors_of (r : value) : list (option value) :=
  map (param_of "color") (entities_of r).

(** The glow an entity starts from is absent or a non-negative number. *)
Definition glow_not_negative (e : value) : Prop :=
  forall q,
    num_of (or_default (VFloat (1 # 2)) (param_of "glow" e)) = Some q ->
    0 <= q.

(** C8 as stated: for every mapping document and style name, the second
    application keeps environment and colours and, for a multiplier below
    one, does not raise any glow. *)
Definition style_idempotence_claim : Prop :=
  forall d s r1 r2,
    apply_style (VDict d) s = Ok r1 ->
    apply_style r1 s = Ok r2 ->
    field "environment" r2 = field "environment" r1 /\
    colors_of r2 = colors_of r1 /\
    (cfg_glow (get_style_config s) < 1 ->
     Forall2 glow_le (entities_of r1) (entities_of r2)).

Definition dim_entity : value :=
  VDict [("id", VStr "e1"); ("params", VDict [("glow", VInt (-1))])].

Definition styled_once_sample : dict :=
  [("entities",
    VList [VDict [("id", VStr "e1");
                  ("params", VDict [("glow", VFloat (7 # 10))])]])].





Definition plain_entity : value :=
  VDict [("id", VStr "e1"); ("type", VStr "book_swarm")].





(** The non-empty mapping the resolvers obtain from the backend's
    outcome, if any. *)
Definition parsed_document (response : res value) : option dict :=
  match response with
  | Ok text =>
      match or_else (extract_json_from_text text) (parse_json_or_none text) with
      | Some (VDict (b :: p)) => Some (b :: p)
      | _ => None
      end
  | Raise _ => None
  end.

Definition prose : value := VStr "Sorry, I cannot help with that.".

Definition null_assumptions : value :=
  VDict [("id", VStr "d1"); ("title", VStr "Dream"); ("assumptions", VNone)].

Definition list_field (k : string) (r : value) : bool :=
  is_list (or_default VNone (field k r)).

(** The three containers are present as sequences. *)
Definition containers (r : value) : Prop :=
  list_field "structures" r = true /\
  list_field "entities" r = true /\
  list_field "assumptions" r = true.



Definition backend_document : value :=
  VStr ("{" ++ dq ++ "id" ++ dq ++ ": " ++ dq ++ "a" ++ dq ++ ", "
        ++ dq ++ "title" ++ dq ++ ": " ++ dq ++ "t" ++ dq ++ ", "
        ++ dq ++ "style" ++ dq ++ ": " ++ dq ++ "ethereal" ++ dq ++ "}").

Definition small_scene : dict :=
  [("id", VStr "test1");
   ("structures", VList [VDict [("id", VStr "s1")]]);
   ("entities", VList [plain_entity])].

(** ** The extraction as the specification words it

    The definitions from [from_first_open] to [spec_extractJson] follow the specification, not the
    code: the first balanced brace-delimited substring starting at the
    first opening brace, parsed, with one retry after the trailing commas
    are stripped. *)







(** ** Sample inputs of the extraction *)




Definition comma_response : string :=
  "noise {" ++ dq ++ "a" ++ dq ++ ": [1, 2,], } {".

(** ** Runs over the store *)

(** A function run on a document built in an empty store: what it returns,
    and what the caller reads of the document afterwards. *)
Definition run (f : Store.ref -> Store.M Store.ref) (v : value)
  : res (option value) * option value :=
  match Store.build v [] with
  | (Ok d, h) =>
      match f d h with
      | (Ok r, h') =>
          (Ok (Store.read (S (length h')) h' r),
           Store.read (S (length h')) h' d)
      | (Raise e, h') => (Raise e, Store.read (S (length h')) h' d)
      end
  | (Raise e, _) => (Raise e, None)
  end.

(** What the embedding on values predicts for [run]. *)
Definition expected (out : res value) (v : value)
  : res (option value) * option value :=
  match out with
  | Ok r => (Ok (Some r), Some v)
  | Raise e => (Raise e, Some v)
  end.

Definition caller_scene : value :=
  VDict [("id", VStr "d1");
         ("structures", VList [VDict [("id", VStr "s1")]]);
         ("entities",
          VList [VDict [("id", VStr "e1");
                        ("params", VDict [("speed", VFloat 1);
                                          ("glow", VFloat (7 # 10))])]]);
         ("environment", VDict [("preset", VStr "dusk")])].

Definition caller_store : Store.store := snd (Store.build caller_scene []).

Definition caller_ref : Store.ref :=
  match fst (Store.build caller_scene []) with
  | Ok r => r
  | Raise _ => Store.RNone
  end.

(** ** Sample documents and well-formed documents *)

(** A document in the shape the repairer aims at. *)
Definition healthy_scene : dict :=
  [("id", VStr "d1"); ("title", VStr "Library"); ("style", VStr "surreal");
   ("structures", VList [VDict [("id", VStr "s1")]]);
   ("entities", VList []);
   ("cinematography",
    VDict [("durationSec", VInt 30);
           ("shots", VList [establish_shot (VStr "s1") (VInt 30)])])].




(** A well-formed document with one entity. *)
Definition caller_scene_dict : dict :=
  [("id", VStr "d1");
   ("structures", VList [VDict [("id", VStr "s1")]]);
   ("entities",
    VList [VDict [("id", VStr "e1");
                  ("params", VDict [("speed", VFloat 1);
                                    ("glow", VFloat (7 # 10))])]]);
   ("environment", VDict [("preset", VStr "dusk")])].



(** A backend answer whose document lacks [id] and [style]. *)
Definition partial_document : value :=
  VStr ("{" ++ dq ++ "title" ++ dq ++ ": " ++ dq ++ "t" ++ dq ++ "}").



(** A structure of a template, at a scale, placed in a box: the first and
    third coordinates between [lo] and [hi], the second between [ylo] and
    [yhi]. *)
Definition placed (template : string) (scale lo hi ylo yhi : Q) (s : value)
  : Prop :=
  field "template" s = Some (VStr template) /\
  field "scale" s = Some (VFloat scale) /\
  field "features" s = Some (VList []) /\
  exists x y z,
    field "pos" s = Some (VList [VFloat x; VFloat y; VFloat z]) /\
    lo <= x <= hi /\ ylo <= y <= yhi /\ lo <= z <= hi.
(* ================================================================== *)
(** ** Basic facts about dictionaries and the monad *)

Lemma aget_aset_same {V} k (v : V) d : aget k (aset k v d) = Some v.
Proof.
  induction d as [|[k' v'] d IH]; simpl.
  - now rewrite String.eqb_refl.
  - destruct (String.eqb k k') eqn:E; simpl.
    + now rewrite String.eqb_refl.
    + now rewrite E.
Qed.

Lemma aget_aset_other {V} k k' (v : V) d :
  k <> k' -> aget k (aset k' v d) = aget k d.
Proof.
  intros Hne. induction d as [|[k2 v2] d IH]; simpl.
  - destruct (String.eqb_spec k k'); [contradiction | reflexivity].
  - destruct (String.eqb_spec k' k2) as [->|Hk]; simpl.
    + destruct (String.eqb_spec k k2); [contradiction | reflexivity].
    + destruct (String.eqb_spec k k2); [reflexivity | exact IH].
Qed.


Lemma dget_dset_same k v d : dget k (dset k v d) = Some v.
Proof. apply aget_aset_same. Qed.

Lemma dget_dset_other k k' v d : k <> k' -> dget k (dset k' v d) = dget k d.
Proof. apply aget_aset_other. Qed.


Lemma dhas_dset_same k v d : dhas k (dset k v d) = true.
Proof. unfold dhas, ahas. fold dget dset. now rewrite dget_dset_same. Qed.

Lemma dhas_dset_other k k' v d : k <> k' -> dhas k (dset k' v d) = dhas k d.
Proof.
  intros H. unfold dhas, ahas. fold dget dset.
  now rewrite dget_dset_other.
Qed.

Lemma dhas_dget k d : dhas k d = true <-> exists v, dget k d = Some v.
Proof.
  unfold dhas, ahas. fold dget. destruct (dget k d) as [v|].
  - split; [eauto | reflexivity].
  - split; [discriminate | intros [v H]; discriminate].
Qed.

Lemma dget_or_some k dflt d v : dget k d = Some v -> dget_or k dflt d = v.
Proof. unfold dget_or, aget_or. fold dget. now intros ->. Qed.

Lemma dget_or_none k dflt d : dget k d = None -> dget_or k dflt d = dflt.
Proof. unfold dget_or, aget_or. fold dget. now intros ->. Qed.

Lemma dget_setdefault_same k dflt d :
  dget k (setdefault k dflt d) = Some (dget_or k dflt d).
Proof.
  unfold setdefault, dhas, ahas, dget_or, aget_or. fold dget.
  destruct (dget k d) eqn:E; [exact E | apply dget_dset_same].
Qed.

Lemma dget_setdefault_other k k' dflt d :
  k <> k' -> dget k (setdefault k' dflt d) = dget k d.
Proof.
  intros H. unfold setdefault. destruct (dhas k' d); [reflexivity|].
  now apply dget_dset_other.
Qed.

Lemma dget_or_dset_other k k' v dflt d :
  k <> k' -> dget_or k dflt (dset k' v d) = dget_or k dflt d.
Proof.
  intros H. unfold dget_or, aget_or. fold dget dset.
  now rewrite dget_dset_other.
Qed.

Lemma dget_or_dset_same k v dflt d : dget_or k dflt (dset k v d) = v.
Proof.
  unfold dget_or, aget_or. fold dget dset. now rewrite dget_dset_same.
Qed.

(** Simplification of lookups through updates at literal keys. *)
Ltac dsimp :=
  repeat first
    [ rewrite dget_dset_same
    | rewrite dhas_dset_same
    | rewrite dget_setdefault_same
    | rewrite dget_or_dset_same
    | rewrite dget_dset_other by discriminate
    | rewrite dget_or_dset_other by discriminate
    | rewrite dhas_dset_other by discriminate
    | rewrite dget_setdefault_other by discriminate ].

Tactic Notation "dsimp" "in" hyp(H) :=
  repeat first
    [ rewrite dget_dset_same in H
    | rewrite dhas_dset_same in H
    | rewrite dget_setdefault_same in H
    | rewrite dget_or_dset_same in H
    | rewrite dget_dset_other in H by discriminate
    | rewrite dget_or_dset_other in H by discriminate
    | rewrite dhas_dset_other in H by discriminate
    | rewrite dget_setdefault_other in H by discriminate ].

Lemma Ok_inj {A} (a b : A) : Ok a = Ok b -> a = b.
Proof. intros H. now inversion H. Qed.

Lemma bind_Ok {A B} (m : res A) (k : A -> res B) b :
  bind m k = Ok b -> exists a, m = Ok a /\ k a = Ok b.
Proof. destruct m as [a|e]; simpl; [eauto | discriminate]. Qed.

(** Inversion of a successful monadic computation, one [bind] at a time. *)
Ltac inv_bind H :=
  let a := fresh "x" in
  let Ha := fresh "E" in
  apply bind_Ok in H; destruct H as (a & Ha & H).

Lemma mapM_Ok_Forall2 {A B} (f : A -> res B) xs ys :
  mapM f xs = Ok ys -> Forall2 (fun x y => f x = Ok y) xs ys.
Proof.
  revert ys. induction xs as [|x xs IH]; simpl; intros ys H.
  - inversion H. constructor.
  - inv_bind H. inv_bind H. inversion H; subst. constructor; auto.
Qed.

Lemma Forall2_mapM_Ok {A B} (f : A -> res B) xs ys :
  Forall2 (fun x y => f x = Ok y) xs ys -> mapM f xs = Ok ys.
Proof.
  induction 1 as [|x y xs ys Hxy _ IH]; simpl; [reflexivity|].
  now rewrite Hxy, IH.
Qed.

Lemma mapM_returns {A B} (f : A -> res B) xs :
  returns (mapM f xs) = forallb (fun x => returns (f x)) xs.
Proof.
  induction xs as [|x xs IH]; simpl; [reflexivity|].
  destruct (f x); simpl; [|reflexivity].
  destruct (mapM f xs); simpl in *; exact IH.
Qed.

Lemma append_to_other k k' x d d' :
  k <> k' -> append_to k' x d = Ok d' -> dget k d' = dget k d.
Proof.
  intros Hne. unfold append_to.
  destruct (dget k' d) as [[]|]; intros H; inversion H; subst;
    now apply dget_dset_other.
Qed.

Lemma append_to_same k x d d' :
  append_to k x d = Ok d' ->
  exists xs, dget k d' = Some (VList (xs ++ [x])) /\
             dget_or k (VList []) d = VList xs.
Proof.
  unfold append_to. destruct (dget k d) as [v|] eqn:E.
  - destruct v; intros H; inversion H; subst.
    exists xs. rewrite dget_dset_same. split; [reflexivity|].
    now apply dget_or_some.
  - intros H; inversion H; subst. exists []. rewrite dget_dset_same.
    split; [reflexivity | now apply dget_or_none].
Qed.

Lemma append_to_returns k x d :
  returns (append_to k x d) = is_list (dget_or k (VList []) d).
Proof.
  unfold append_to, dget_or, aget_or. fold dget.
  destruct (dget k d) as [[]|]; reflexivity.
Qed.

(* ================================================================== *)
(** ** The repairer and the validator *)

Lemma in_style_enum_spec v :
  in_style_enum v = true <-> exists s, v = VStr s /\ In s STYLE_NAMES.
Proof.
  destruct v; unfold in_style_enum;
    try (split; [discriminate | intros (s0 & H & _); discriminate]).
  rewrite existsb_exists. split.
  - intros (x & Hin & Heq). apply String.eqb_eq in Heq. subst. eauto.
  - intros (s0 & H & Hin). inversion H; subst. exists s0.
    split; [assumption | apply String.eqb_refl].
Qed.

Lemma validate_dream_ok r : repaired_ok r -> validate_dream r = (true, []).
Proof.
  intros (d & -> & Hid & Htitle & (s & Hs & Hin) & (c & sh & shs & Hc & Hdur & Hshots)).
  unfold validate_dream, REQUIRED_FIELDS. simpl flat_map.
  rewrite Hid, Htitle. rewrite Hs, Hc, Hdur.
  assert (Hst : dhas "style" d = true) by (apply dhas_dget; eauto).
  assert (Hsh : dhas "shots" c = true) by (apply dhas_dget; eauto).
  rewrite Hst, Hsh, Hshots.
  assert (He : in_style_enum (VStr s) = true)
    by (apply in_style_enum_spec; eauto).
  rewrite He. reflexivity.
Qed.

Lemma ensure_required_fields_spec clk d :
  let d' := ensure_required_fields clk d in
  dhas "id" d' = true /\ dhas "title" d' = true /\
  (exists s, dget "style" d' = Some (VStr s) /\ In s STYLE_NAMES) /\
  (forall k, k <> "id" -> k <> "title" -> k <> "style" ->
             dget k d' = dget k d).
Proof.
  unfold ensure_required_fields.
  set (d1 := dset "id" _ d). set (d2 := dset "title" _ d1).
  destruct (in_style_enum (dget_or "style" VNone d2)) eqn:E; simpl.
  - repeat split.
    + unfold d2, d1. now dsimp.
    + unfold d2. now dsimp.
    + apply in_style_enum_spec in E. destruct E as (s & Hs & Hin).
      exists s. split; [|assumption].
      unfold dget_or, aget_or in Hs. fold dget in Hs.
      destruct (dget "style" d2); [now subst | discriminate].
    + intros k H1 H2 H3. unfold d2, d1.
      rewrite !dget_dset_other by assumption. reflexivity.
  - repeat split.
    + unfold d2, d1. now dsimp.
    + unfold d2. now dsimp.
    + exists "ethereal". dsimp. split; [reflexivity | simpl; auto].
    + intros k H1 H2 H3. unfold d2, d1.
      rewrite !dget_dset_other by assumption. reflexivity.
Qed.

Lemma ensure_arrays_spec d :
  let d' := ensure_arrays d in
  dget "structures" d' =
    Some (let v := dget_or "structures" (VList []) d in
          if is_list v then v else VList []) /\
  (forall k, k <> "structures" -> k <> "entities" -> dget k d' = dget k d).
Proof.
  unfold ensure_arrays, coerce_list. split.
  - now dsimp.
  - intros k H1 H2. rewrite !dget_dset_other by assumption. reflexivity.
Qed.

Lemma dhas_eq_of_dget k d d' : dget k d' = dget k d -> dhas k d' = dhas k d.
Proof. unfold dhas, ahas. fold dget. now intros ->. Qed.

Lemma cinematography_defaults_spec d d' :
  cinematography_defaults d = Ok d' ->
  (exists c shot shots,
      dget "cinematography" d' = Some (VDict c) /\
      dhas "durationSec" c = true /\
      dget "shots" c = Some (VList (shot :: shots))) /\
  (forall k, k <> "cinematography" -> dget k d' = dget k d).
Proof.
  assert (Hdefault : forall target,
    cinematography_defaults_target d target d' ->
    (exists c shot shots,
      dget "cinematography" d' = Some (VDict c) /\
      dhas "durationSec" c = true /\
      dget "shots" c = Some (VList (shot :: shots))) /\
    (forall k, k <> "cinematography" -> dget k d' = dget k d)).
  { intros target ->. split.
    - exists [("durationSec", VInt 30);
              ("shots", VList [establish_shot target (VInt 30)])],
             (establish_shot target (VInt 30)), [].
      rewrite dget_dset_same. repeat split; reflexivity.
    - intros k Hk. now rewrite dget_dset_other. }
  unfold cinematography_defaults.
  destruct (dget "cinematography" d) as [v|] eqn:Ec.
  2:{ intros H. inv_bind H. inversion H; subst. now apply (Hdefault x). }
  destruct v;
    try (intros H; inv_bind H; inversion H; subst; now apply (Hdefault x)).
  clear Hdefault.
  intros H. inv_bind H. inv_bind H. inversion H; subst; clear H.
  assert (Hdur : dhas "durationSec" x = true).
  { destruct (dhas "durationSec" kv) eqn:Ed.
    - now inversion E; subst.
    - inv_bind E. inversion E; subst. apply dhas_dset_same. }
  assert (Hfresh : forall y,
    first_structure_id d = Ok y ->
    exists shot shots,
      dhas "durationSec"
           (dset "shots"
              (VList [establish_shot y (dget_or "durationSec" (VInt 30) x)]) x)
        = true /\
      dget "shots"
           (dset "shots"
              (VList [establish_shot y (dget_or "durationSec" (VInt 30) x)]) x)
        = Some (VList (shot :: shots))).
  { intros y _. do 2 eexists. split.
    - rewrite dhas_dset_other by discriminate. exact Hdur.
    - apply dget_dset_same. }
  split.
  - exists x0. rewrite dget_dset_same.
    destruct (dget "shots" x) as [sv|] eqn:Es.
    + destruct sv;
        try (inv_bind E0; inversion E0; subst;
             destruct (Hfresh _ E1) as (sh & shs & H1 & H2);
             exists sh, shs; auto).
      destruct xs as [|sh shs].
      * inv_bind E0; inversion E0; subst.
        destruct (Hfresh _ E1) as (sh & shs & H1 & H2).
        exists sh, shs; auto.
      * inversion E0; subst. exists sh, shs. auto.
    + inv_bind E0; inversion E0; subst.
      destruct (Hfresh _ E1) as (sh & shs & H1 & H2).
      exists sh, shs; auto.
  - intros k Hk. now rewrite dget_dset_other.
Qed.

Lemma repair_dream_post clk d r :
  repair_dream clk (VDict d) = Ok r -> repaired_ok r.
Proof.
  unfold repair_dream. intros H. inv_bind H. inv_bind H.
  inversion H; subst; clear H.
  destruct (ensure_required_fields_spec clk d) as (Hid & Ht & Hs & _).
  destruct (ensure_arrays_spec (ensure_required_fields clk d)) as (_ & Ha).
  destruct (cinematography_defaults_spec _ _ E) as ((c & sh & shs & Hc & Hd & Hsh) & Hk).
  pose proof (fun k (H : k <> "assumptions") =>
                append_to_other k _ _ _ _ H E0) as Hap.
  exists x0. split; [reflexivity|]. repeat split.
  - etransitivity; [apply dhas_eq_of_dget | exact Hid].
    rewrite Hap, Hk, Ha by discriminate. reflexivity.
  - etransitivity; [apply dhas_eq_of_dget | exact Ht].
    rewrite Hap, Hk, Ha by discriminate. reflexivity.
  - destruct Hs as (s & Hs & Hin). exists s. split; [|assumption].
    rewrite Hap, Hk, Ha by discriminate. assumption.
  - exists c, sh, shs. rewrite Hap by discriminate. auto.
Qed.

(** *** When the repairer returns *)

Lemma py_add_num a b :
  is_num a = true -> is_num b = true ->
  exists c, py_add a b = Ok c /\ is_num c = true.
Proof.
  unfold is_num, py_add.
  destruct (int_of a) as [x|] eqn:Ea, (int_of b) as [y|] eqn:Eb;
    destruct (num_of a) eqn:Na, (num_of b) eqn:Nb;
    try discriminate; intros _ _; eexists; split; reflexivity.
Qed.

Lemma py_add_not_num a b : is_num b = false -> py_add a b = Raise TypeError.
Proof.
  unfold is_num, py_add. destruct b; try discriminate; intros _;
    destruct (int_of a), (num_of a); reflexivity.
Qed.

Lemma foldM_py_add_returns xs a :
  is_num a = true ->
  returns (foldM py_add xs a) = forallb is_num xs.
Proof.
  revert a. induction xs as [|x xs IH]; intros a Ha; simpl; [reflexivity|].
  destruct (is_num x) eqn:Ex.
  - destruct (py_add_num a x Ha Ex) as (c & -> & Hc). simpl. now apply IH.
  - now rewrite py_add_not_num.
Qed.




Lemma returns_bind {A B} (m : res A) (k : A -> res B) :
  returns (bind m k)
  = match m with Ok a => returns (k a) | Raise _ => false end.
Proof. destruct m; reflexivity. Qed.




(* ================================================================== *)
(** ** The style-enrichment transform *)

Lemma style_entity_spec cfg e e' :
  style_entity cfg e = Ok e' ->
  exists x,
    num_of (or_default (VFloat (1 # 2)) (param_of "glow" e)) = Some x /\
    param_of "color" e' = Some (VStr (cfg_color cfg)) /\
    param_of "glow" e' = Some (scaled_glow (cfg_glow cfg) x) /\
    param_of "speed" e'
    = Some (or_default (VFloat (cfg_speed cfg)) (param_of "speed" e)) /\
    (forall k, k <> "params" -> field k e' = field k e).
Proof.
  unfold style_entity. destruct e as [| | | | | |ed]; try discriminate.
  destruct (dget_or "params" (VDict []) ed) as [| | | | | |p] eqn:Ep;
    try discriminate.
  intros H. inv_bind H. inv_bind H. inversion H; subst; clear H.
  rewrite dget_or_dset_other in E by discriminate.
  assert (Hg : or_default (VFloat (1 # 2)) (param_of "glow" (VDict ed))
               = dget_or "glow" (VFloat (1 # 2)) p).
  { unfold param_of, field, dget_or, aget_or in *. fold dget in *.
    destruct (dget "params" ed) as [pv|].
    - subst pv. reflexivity.
    - inversion Ep; subst. reflexivity. }
  assert (Hs : or_default (VFloat (cfg_speed cfg)) (param_of "speed" (VDict ed))
               = dget_or "speed" (VFloat (cfg_speed cfg)) p).
  { unfold param_of, field, dget_or, aget_or in *. fold dget in *.
    destruct (dget "params" ed) as [pv|].
    - subst pv. reflexivity.
    - inversion Ep; subst. reflexivity. }
  unfold py_mul_float in E.
  destruct (num_of (dget_or "glow" (VFloat (1 # 2)) p)) as [gx|] eqn:En;
    [|discriminate].
  inversion E; subst; clear E. unfold py_min in E0. simpl num_of in E0.
  inversion E0; subst; clear E0.
  exists gx. rewrite Hg, Hs, En. unfold param_of, field. dsimp.
  repeat split; try reflexivity.
  intros k Hk. now rewrite dget_dset_other.
Qed.

Lemma for_entities_spec body d d' :
  for_entities body d = Ok d' ->
  Forall2 (fun e e' => body e = Ok e')
          (entities_of (VDict d)) (entities_of (VDict d')) /\
  (forall k, k <> "entities" -> dget k d' = dget k d) /\
  (is_list (or_default VNone (dget "entities" d)) = false -> d' = d) /\
  (is_list (or_default VNone (dget "entities" d)) = true ->
   dget "entities" d' = Some (VList (entities_of (VDict d')))).
Proof.
  unfold for_entities, entities_of, field.
  destruct (dget "entities" d) as [v|] eqn:Ee.
  - destruct v;
      try (intros H; inv_bind H; inv_bind H; inversion H; subst;
           rewrite Ee; repeat split; auto; try constructor;
           simpl; discriminate).
    intros H. inv_bind H. inversion H; subst. dsimp. repeat split.
    + now apply mapM_Ok_Forall2.
    + intros k Hk. now apply dget_dset_other.
    + simpl. discriminate.
  - intros H. inversion H; subst. rewrite Ee.
    repeat split; auto; try constructor. simpl. discriminate.
Qed.

Lemma cfg_glow_positive s : 0 < cfg_glow (get_style_config s).
Proof.
  unfold get_style_config, aget_or, STYLE_CONFIGS. simpl.
  repeat match goal with
         | |- context [String.eqb ?a ?b] => destruct (String.eqb a b)
         end; reflexivity.
Qed.

Lemma cfg_environment_shape s :
  exists preset fog sky ambient,
    cfg_environment (get_style_config s) = environment_of preset fog sky ambient.
Proof.
  unfold get_style_config, aget_or, STYLE_CONFIGS. simpl.
  repeat match goal with
         | |- context [String.eqb ?a ?b] => destruct (String.eqb a b)
         end; do 4 eexists; reflexivity.
Qed.

Lemma aset_noop {V} k (v : V) d : aget k d = Some v -> aset k v d = d.
Proof.
  induction d as [|[k' v'] d IH]; simpl; [discriminate|].
  destruct (String.eqb_spec k k') as [->|Hne].
  - intros H. inversion H. reflexivity.
  - intros H. now rewrite IH.
Qed.

Lemma dset_noop k v d : dget k d = Some v -> dset k v d = d.
Proof. apply aset_noop. Qed.

Lemma dict_update_idempotent env s :
  let o := cfg_environment (get_style_config s) in
  dict_update (dict_update env o) o = dict_update env o.
Proof.
  destruct (cfg_environment_shape s) as (preset & fog & sky & ambient & ->).
  unfold dict_update, environment_of. simpl.
  match goal with |- _ = ?rhs => set (e1 := rhs) end.
  assert (H1 : dget "preset" e1 = Some (VStr preset)) by (unfold e1; now dsimp).
  assert (H2 : dget "fog" e1 = Some (VFloat fog)) by (unfold e1; now dsimp).
  assert (H3 : dget "skyColor" e1 = Some (VStr sky)) by (unfold e1; now dsimp).
  assert (H4 : dget "ambientLight" e1 = Some (VFloat ambient))
    by (unfold e1; now dsimp).
  rewrite (dset_noop _ _ _ H1), (dset_noop _ _ _ H2), (dset_noop _ _ _ H3).
  now apply dset_noop.
Qed.

Lemma apply_style_spec d s r :
  apply_style (VDict d) s = Ok r ->
  exists env,
    is_dict r = true /\
    or_default (VDict []) (dget "environment" d) = VDict env /\
    field "environment" r
    = Some (VDict (dict_update env (cfg_environment (get_style_config s)))) /\
    field "style" r = Some (VStr s) /\
    Forall2 (fun e e' => style_entity (get_style_config s) e = Ok e')
            (entities_of (VDict d)) (entities_of r) /\
    (is_list (or_default VNone (dget "entities" d)) = false ->
     field "entities" r = dget "entities" d) /\
    (is_list (or_default VNone (dget "entities" d)) = true ->
     field "entities" r = Some (VList (entities_of r))) /\
    (exists xs, field "assumptions" r
                = Some (VList (xs ++ [VStr ("Deterministic style mapping applied -> " ++ s)]))
                /\ dget_or "assumptions" (VList []) d = VList xs).
Proof.
  unfold apply_style. intros H. cbv zeta in H.
  inv_bind H. inv_bind H. inv_bind H. inversion H; subst; clear H.
  rewrite dget_setdefault_same in E.
  destruct (dget_or "environment" (VDict []) d) as [| | | | | |env] eqn:Eenv;
    try discriminate.
  inversion E; subst; clear E.
  destruct (for_entities_spec _ _ _ E0) as (Hes & Hk & Hnl & Hl).
  destruct (append_to_same _ _ _ _ E1) as (xs & Hxs & Hold).
  pose proof (fun k (H : k <> "assumptions") =>
                append_to_other k _ _ _ _ H E1) as Hap.
  exists env. unfold field. split; [reflexivity|]. repeat split.
  - unfold dget_or, aget_or in Eenv. fold dget in Eenv.
    destruct (dget "environment" d); exact Eenv.
  - rewrite Hap, Hk by discriminate. now dsimp.
  - rewrite Hap, Hk by discriminate. now dsimp.
  - unfold entities_of, field in *. rewrite Hap by discriminate.
    rewrite !dget_dset_other in Hes by discriminate.
    rewrite dget_setdefault_other in Hes by discriminate. exact Hes.
  - intros Hl0. rewrite Hap by discriminate.
    rewrite !dget_dset_other in Hnl by discriminate.
    rewrite dget_setdefault_other in Hnl by discriminate.
    rewrite (Hnl Hl0). now dsimp.
  - intros Hl'. unfold entities_of, field in *.
    rewrite !Hap by discriminate.
    rewrite !dget_dset_other in Hl by discriminate.
    rewrite dget_setdefault_other in Hl by discriminate.
    now apply Hl.
  - exists xs. split; [exact Hxs|].
    unfold dget_or, aget_or in *. fold dget in *.
    rewrite Hk in Hold by discriminate. dsimp in Hold. exact Hold.
Qed.

(** *** When the style transform returns *)

Lemma for_entities_returns body d :
  returns (for_entities body d) = loop_returns body (dget "entities" d).
Proof.
  unfold for_entities, loop_returns.
  destruct (dget "entities" d) as [v|]; [|reflexivity].
  destruct v; try reflexivity.
  - rewrite returns_bind. destruct (iterate (VStr s)) as [xs|]; [|reflexivity].
    rewrite returns_bind, <- mapM_returns.
    destruct (mapM body xs); reflexivity.
  - simpl iterate. rewrite returns_bind, <- mapM_returns.
    destruct (mapM body xs); reflexivity.
  - rewrite returns_bind. destruct (iterate (VDict kv)) as [xs|]; [|reflexivity].
    rewrite returns_bind, <- mapM_returns.
    destruct (mapM body xs); reflexivity.
Qed.

Lemma apply_style_returns d s :
  returns (apply_style (VDict d) s)
  = is_dict (dget_or "environment" (VDict []) d)
    && loop_returns (style_entity (get_style_config s)) (dget "entities" d)
    && is_list (dget_or "assumptions" (VList []) d).
Proof.
  unfold apply_style. cbv zeta. rewrite dget_setdefault_same.
  destruct (dget_or "environment" (VDict []) d) as [| | | | | |env];
    try reflexivity.
  cbn [bind is_dict andb]. rewrite returns_bind.
  pose proof (for_entities_returns (style_entity (get_style_config s))
    (dset "style" (VStr s)
       (dset "environment"
          (VDict (dict_update env (cfg_environment (get_style_config s))))
          (setdefault "environment" (VDict []) d)))) as Hf.
  rewrite !dget_dset_other in Hf by discriminate.
  rewrite dget_setdefault_other in Hf by discriminate.
  rewrite <- Hf.
  destruct (for_entities _ _) as [d1|] eqn:E; [|reflexivity].
  cbn [andb]. rewrite returns_bind.
  pose proof (append_to_returns "assumptions"
    (VStr ("Deterministic style mapping applied -> " ++ s)) d1) as Ha.
  destruct (for_entities_spec _ _ _ E) as (_ & Hk & _ & _).
  unfold dget_or, aget_or in *. fold dget in *.
  rewrite Hk in Ha by discriminate.
  rewrite !dget_dset_other in Ha by discriminate.
  rewrite dget_setdefault_other in Ha by discriminate.
  rewrite <- Ha. destruct (append_to _ _ d1); reflexivity.
Qed.

Lemma style_entity_returns cfg e :
  returns (style_entity cfg e)
  = match e with
    | VDict ed =>
        match dget_or "params" (VDict []) ed with
        | VDict p => is_num (dget_or "glow" (VFloat (1 # 2)) p)
        | _ => false
        end
    | _ => false
    end.
Proof.
  unfold style_entity. destruct e as [| | | | | |ed]; try reflexivity.
  destruct (dget_or "params" (VDict []) ed) as [| | | | | |p]; try reflexivity.
  rewrite dget_or_dset_other by discriminate.
  unfold py_mul_float, is_num.
  destruct (num_of (dget_or "glow" (VFloat (1 # 2)) p)) as [gx|];
    reflexivity.
Qed.

Lemma style_entity_shape cfg e e' :
  style_entity cfg e = Ok e' ->
  exists ed p gx,
    e = VDict ed /\
    dget_or "params" (VDict []) ed = VDict p /\
    num_of (dget_or "glow" (VFloat (1 # 2)) p) = Some gx /\
    e' = VDict
           (dset "params"
              (VDict
                 (dset "speed" (dget_or "speed" (VFloat (cfg_speed cfg)) p)
                    (dset "glow" (scaled_glow (cfg_glow cfg) gx)
                       (dset "color" (VStr (cfg_color cfg)) p))))
              ed).
Proof.
  unfold style_entity. destruct e as [| | | | | |ed]; try discriminate.
  destruct (dget_or "params" (VDict []) ed) as [| | | | | |p] eqn:Ep;
    try discriminate.
  rewrite dget_or_dset_other by discriminate.
  unfold py_mul_float.
  destruct (num_of (dget_or "glow" (VFloat (1 # 2)) p)) as [gx|] eqn:En;
    [|discriminate].
  cbn [bind]. unfold py_min. cbn [num_of bind].
  intros H. inversion H; subst; clear H.
  exists ed, p, gx. repeat split; try assumption.
  rewrite !dget_or_dset_other by discriminate. reflexivity.
Qed.

Lemma scaled_glow_num m x : is_num (scaled_glow m x) = true.
Proof. unfold scaled_glow. destruct (Qltb _ _); reflexivity. Qed.

Lemma style_entity_again cfg e e' :
  style_entity cfg e = Ok e' -> returns (style_entity cfg e') = true.
Proof.
  intros H. destruct (style_entity_shape _ _ _ H) as (ed & p & gx & _ & _ & _ & ->).
  rewrite style_entity_returns. dsimp. apply scaled_glow_num.
Qed.

(* ================================================================== *)
(** ** The text-edit transforms *)

Lemma set_param_spec key v e e' :
  set_param key v e = Ok e' ->
  param_of key e' = Some v /\
  (forall k, k <> key -> param_of k e' = param_of k e) /\
  (forall k, k <> "params" -> field k e' = field k e).
Proof.
  unfold set_param. destruct e as [| | | | | |ed]; try discriminate.
  destruct (dget_or "params" (VDict []) ed) as [| | | | | |p] eqn:Ep;
    try discriminate.
  intros H. inversion H; subst; clear H. unfold param_of, field.
  rewrite dget_dset_same. repeat split.
  - apply dget_dset_same.
  - intros k Hk. rewrite dget_dset_other by assumption.
    unfold dget_or, aget_or in Ep. fold dget in Ep.
    destruct (dget "params" ed) as [pv|]; [now subst|].
    now inversion Ep.
  - intros k Hk. now rewrite dget_dset_other.
Qed.


Lemma truthy_dict_dset k v env : truthy (VDict (dset k v env)) = true.
Proof. destruct env as [|[k' v'] env]; simpl; [reflexivity|].
       destruct (String.eqb k k'); reflexivity. Qed.

Lemma set_sky_spec v p p' :
  set_sky v p = Ok p' ->
  (forall k, k <> "environment" -> dget k p' = dget k p) /\
  (truthy (dget_or "environment" VNone p) = true ->
   exists env, dget "environment" p = Some (VDict env) /\
               dget "environment" p' = Some (VDict (dset "skyColor" v env))) /\
  (truthy (dget_or "environment" VNone p) = false -> p' = p).
Proof.
  unfold set_sky.
  destruct (truthy (dget_or "environment" VNone p)) eqn:Et.
  - destruct (dget "environment" p) as [ev|] eqn:Ee; [|discriminate].
    destruct ev; try discriminate.
    intros H. inversion H; subst; clear H. repeat split.
    + intros k Hk. now rewrite dget_dset_other.
    + intros _. exists kv. split; [reflexivity | apply dget_dset_same].
    + discriminate.
  - intros H. inversion H; subst. repeat split; auto. discriminate.
Qed.

Lemma safe_color_step_with edit st kv :
  safe_color_step edit st kv
  = color_step_with (fun k => ("color:" ++ k)%string) edit st kv.
Proof. destruct st, kv. reflexivity. Qed.

Lemma stub_color_step_with edit st kv :
  stub_color_step edit st kv
  = color_step_with (fun k => ("color -> " ++ k)%string) edit st kv.
Proof. destruct st, kv. reflexivity. Qed.

Lemma foldM_ext {A S} (f g : S -> A -> res S) xs s :
  (forall s x, f s x = g s x) -> foldM f xs s = foldM g xs s.
Proof.
  intros H. revert s. induction xs as [|x xs IH]; intros s; simpl;
    [reflexivity|].
  rewrite H. destruct (g s x); simpl; auto.
Qed.

Lemma Forall2_compose {A B C} (R : A -> B -> Prop) (S : B -> C -> Prop)
      l1 l2 l3 :
  Forall2 R l1 l2 -> Forall2 S l2 l3 ->
  Forall2 (fun a c => exists b, R a b /\ S b c) l1 l3.
Proof.
  intros H. revert l3. induction H; intros l3 H3; inversion H3; subst;
    constructor; eauto.
Qed.

Lemma Forall2_impl {A B} (R S : A -> B -> Prop) l1 l2 :
  (forall a b, R a b -> S a b) -> Forall2 R l1 l2 -> Forall2 S l1 l2.
Proof. intros H. induction 1; constructor; auto. Qed.

Lemma Forall2_refl {A} (R : A -> A -> Prop) l :
  (forall a, R a a) -> Forall2 R l l.
Proof. intros H. induction l; constructor; auto. Qed.

Lemma same_kind_refl p : same_kind p p.
Proof. split; auto. Qed.

Lemma same_kind_trans p q r : same_kind p q -> same_kind q r -> same_kind p r.
Proof.
  intros [H1 H2] [H3 H4]. split.
  - auto.
  - intros H. rewrite H4; [now apply H2|]. now rewrite (H2 H).
Qed.

Lemma same_kind_of_eq p p' :
  dget "entities" p' = dget "entities" p -> same_kind p p'.
Proof. intros H. unfold same_kind. rewrite H. auto. Qed.

Lemma entities_of_eq p p' :
  dget "entities" p' = dget "entities" p ->
  entities_of (VDict p') = entities_of (VDict p).
Proof. unfold entities_of, field. now intros ->. Qed.

Lemma color_fold_spec label edit cm :
  forall p a p' a',
    foldM (color_step_with label edit) cm (p, a) = Ok (p', a') ->
    a' = a ++ map label (mentioned cm edit) /\
    (forall k, k <> "entities" -> k <> "environment" ->
               dget k p' = dget k p) /\
    Forall2 (painted (last_hex cm edit))
            (entities_of (VDict p)) (entities_of (VDict p')) /\
    sky_painted (last_hex cm edit) p p' /\
    same_kind p p'.
Proof.
  induction cm as [|[k v] cm IH]; intros p a p' a' H.
  - inversion H; subst. unfold mentioned. simpl. rewrite app_nil_r.
    repeat split; auto. apply Forall2_refl. reflexivity.
  - simpl foldM in H. inv_bind H. destruct x as [p1 a1].
    destruct (IH _ _ _ _ H) as (Ha & Hk & Hes & Hsky & Hkind). clear IH H.
    unfold color_step_with in E. unfold mentioned. simpl.
    fold (mentioned cm edit).
    destruct (contains k edit) eqn:Ec.
    + inv_bind E. inv_bind E. inversion E; subst; clear E.
      destruct (for_entities_spec _ _ _ E0) as (Hes0 & Hk0 & Hn0 & Hl0).
      destruct (set_sky_spec _ _ _ E1) as (Hk1 & Hs1 & Hs0).
      assert (Hkind1 : same_kind p p1).
      { unfold same_kind. rewrite (Hk1 "entities") by discriminate. split.
        - intros Hl. rewrite (Hl0 Hl). reflexivity.
        - intros Hl. now rewrite (Hn0 Hl). }
      split; [|split; [|split; [|split;
        [|exact (same_kind_trans _ _ _ Hkind1 Hkind)]]]].
      * simpl. now rewrite <- app_assoc.
      * intros k' H1 H2. rewrite Hk, Hk1, Hk0 by assumption. reflexivity.
      * assert (Hes1 : Forall2 (fun e e' => set_param "color" (VStr v) e = Ok e')
                         (entities_of (VDict p)) (entities_of (VDict p1))).
        { unfold entities_of, field in *.
          rewrite Hk1 by discriminate. exact Hes0. }
        eapply Forall2_impl; [|exact (Forall2_compose _ _ _ _ _ Hes1 Hes)].
        intros e e' (e1 & H1 & H2).
        destruct (set_param_spec _ _ _ _ H1) as (Hc & Ho & _).
        destruct (last_hex cm edit) as [h|]; simpl in *.
        -- destruct H2 as [H2 H3]. split; [exact H2|].
           intros k' Hk'. rewrite H3, Ho by assumption. reflexivity.
        -- subst e'. split; assumption.
      * destruct (truthy (dget_or "environment" VNone p)) eqn:Et.
        -- assert (Hp0 : dget "environment" x = dget "environment" p)
             by (apply Hk0; discriminate).
           assert (Hx : truthy (dget_or "environment" VNone x) = true).
           { unfold dget_or, aget_or in *. fold dget in *. now rewrite Hp0. }
           destruct (Hs1 Hx) as (env & He & He1).
           assert (Ht1 : truthy (dget_or "environment" VNone p1) = true).
           { unfold dget_or, aget_or. fold dget. rewrite He1.
             apply truthy_dict_dset. }
           rewrite Hp0 in He.
           destruct (last_hex cm edit) as [h|]; simpl in *.
           ++ destruct Hsky as [Hsky _].
              destruct (Hsky Ht1) as (env1 & env' & G1 & G2 & G3 & G4).
              split; [intros _ | intros Hf; rewrite Hf in Et; discriminate].
              exists env, env'. repeat split; try assumption.
              intros k' Hk'. rewrite G4 by assumption.
              rewrite He1 in G1. inversion G1; subst env1.
              now rewrite dget_dset_other.
           ++ split; [intros _ | intros Hf; rewrite Hf in Et; discriminate].
              exists env, (dset "skyColor" (VStr v) env).
              rewrite Hsky. repeat split; try assumption.
              ** apply dget_dset_same.
              ** intros k' Hk'. now rewrite dget_dset_other.
        -- assert (Hp0 : dget "environment" x = dget "environment" p)
             by (apply Hk0; discriminate).
           assert (Hx : truthy (dget_or "environment" VNone x) = false).
           { unfold dget_or, aget_or in *. fold dget in *. now rewrite Hp0. }
           specialize (Hs0 Hx). subst p1.
           assert (Hsame : dget "environment" p' = dget "environment" p).
           { destruct (last_hex cm edit) as [h|]; simpl in Hsky.
             - destruct Hsky as [_ Hsky]. rewrite Hsky by assumption.
               assumption.
             - now rewrite Hsky. }
           destruct (last_hex cm edit) as [h|]; simpl;
             (split; [intros Hf; rewrite Hf in Et; discriminate
                     | intros _; exact Hsame]).
    + inversion E; subst; clear E.
      destruct (last_hex cm edit) as [h|]; repeat split; auto;
        try (apply Hsky); try (apply Hkind).
Qed.

(** *** The stages of [safe_patch] *)

Lemma island_stage_spec clk edit p a st :
  (if wants "island" edit then
     patched <- append_to "structures" (safe_island clk) p ;;
     Ok (patched, a ++ ["added_island"])
   else Ok (p, a)) = Ok st ->
  snd st = a ++ (if wants "island" edit then ["added_island"] else []) /\
  (forall k, k <> "structures" -> dget k (fst st) = dget k p) /\
  (if wants "island" edit then
     exists ss, dget_or "structures" (VList []) p = VList ss /\
                dget "structures" (fst st)
                = Some (VList (ss ++ [safe_island clk]))
   else dget "structures" (fst st) = dget "structures" p).
Proof.
  destruct (wants "island" edit).
  - intros H. inv_bind H. inversion H; subst; clear H. simpl.
    destruct (append_to_same _ _ _ _ E) as (ss & H1 & H2).
    repeat split.
    + intros k Hk. eapply append_to_other; eauto.
    + exists ss. auto.
  - intros H. inversion H; subst. simpl. rewrite app_nil_r. auto.
Qed.

Lemma speed_stage_spec (label : string) f words edit p a st :
  (if mentions_any words edit then
     patched <- for_entities (update_speed f (VFloat 1)) p ;;
     Ok (patched, a ++ [label])
   else Ok (p, a)) = Ok st ->
  snd st = a ++ (if mentions_any words edit then [label] else []) /\
  (forall k, k <> "entities" -> dget k (fst st) = dget k p) /\
  Forall2 (fun e e' =>
             if mentions_any words edit
             then update_speed f (VFloat 1) e = Ok e'
             else e' = e)
          (entities_of (VDict p)) (entities_of (VDict (fst st))) /\
  same_kind p (fst st).
Proof.
  destruct (mentions_any words edit).
  - intros H. inv_bind H. inversion H; subst; clear H. simpl.
    destruct (for_entities_spec _ _ _ E) as (Hes & Hk & Hn & Hl).
    repeat split; auto.
    + intros Hp. rewrite (Hl Hp). reflexivity.
    + intros Hp. now rewrite (Hn Hp).
  - intros H. inversion H; subst. simpl. rewrite app_nil_r.
    repeat split; auto. apply Forall2_refl. reflexivity.
Qed.

Lemma append_at_spec k x d d' :
  append_at k x d = Ok d' ->
  (exists xs, dget k d = Some (VList xs) /\
              dget k d' = Some (VList (xs ++ [x]))) /\
  (forall k', k' <> k -> dget k' d' = dget k' d).
Proof.
  unfold append_at. destruct (dget k d) as [v|] eqn:E; [|discriminate].
  destruct v; try discriminate. intros H. inversion H; subst. split.
  - exists xs. split; [reflexivity | apply dget_dset_same].
  - intros k' Hk. now apply dget_dset_other.
Qed.

Lemma safe_patch_spec clk d e r :
  safe_patch clk (VDict d) e = Ok r ->
  exists rd xs,
    r = VDict rd /\
    dget_or "assumptions" (VList []) d = VList xs /\
    dget "assumptions" rd = Some (VList (xs ++ [safe_note e])) /\
    Forall2 (safe_entity (lower e)) (entities_of (VDict d)) (entities_of r) /\
    same_kind d rd /\
    sky_painted (last_hex color_map (lower e)) d rd /\
    (if wants "island" (lower e) then
       exists ss, dget_or "structures" (VList []) d = VList ss /\
                  dget "structures" rd = Some (VList (ss ++ [safe_island clk]))
     else dget "structures" rd = dget "structures" d) /\
    (exists hs, dget_or "patchHistory" (VList []) d = VList hs /\
                dget "patchHistory" rd
                = Some (VList (hs ++ [history_entry e (stamp clk) "safe_patch"])))
    /\
    (forall k, k <> "assumptions" -> k <> "entities" -> k <> "environment" ->
               k <> "structures" -> k <> "patchHistory" ->
               dget k rd = dget k d).
Proof.
  unfold safe_patch. cbv zeta. intros H.
  inv_bind H. destruct x as [p1 a1].
  inv_bind H. destruct x as [p2 a2].
  inv_bind H. destruct x as [p3 a3].
  inv_bind H. rename x into p4. inv_bind H. rename x into p5.
  inversion H; subst r; clear H.
  rewrite (foldM_ext _ _ _ _ (safe_color_step_with (lower e))) in E.
  apply color_fold_spec in E. destruct E as (Ha1 & Hk1 & Hes1 & Hsky1 & Hkind1).
  apply island_stage_spec in E0. simpl fst in E0. simpl snd in E0.
  destruct E0 as (Ha2 & Hk2 & Hst2).
  apply speed_stage_spec in E1. simpl fst in E1. simpl snd in E1.
  destruct E1 as (Ha3 & Hk3 & Hes3 & Hkind3).
  apply append_at_spec in E2. destruct E2 as ((xs & Hx3 & Hx4) & Hk4).
  pose proof (append_to_same _ _ _ _ E3) as (hs & Hh5 & Hh4).
  pose proof (fun k (H : k <> "patchHistory") =>
                append_to_other k _ _ _ _ H E3) as Hk5.
  set (p0 := setdefault "assumptions" (VList []) d) in *.
  assert (Hk0 : forall k, k <> "assumptions" -> dget k p0 = dget k d).
  { intros k Hk. unfold p0. now apply dget_setdefault_other. }
  assert (Hnote : match a3 with
                  | [] => VStr ("Requested edit recorded: " ++ dq ++ e ++ dq)
                  | _ :: _ => VStr ("safe_patch_applied:" ++ join "," a3)
                  end = safe_note e).
  { unfold safe_note, safe_applied. subst a3 a2 a1.
    rewrite app_nil_l, <- app_assoc.
    match goal with
    | |- match ?l with _ => _ end = _ => destruct l; reflexivity
    end. }
  rewrite Hnote in *.
  exists p5, xs. split; [reflexivity|]. split.
  { rewrite Hk3, Hk2, Hk1 in Hx3 by discriminate.
    unfold p0 in Hx3. rewrite dget_setdefault_same in Hx3.
    now inversion Hx3. }
  split. { rewrite Hk5 by discriminate. exact Hx4. }
  split.
  { rewrite (entities_of_eq p4 p5) by (apply Hk5; discriminate).
    rewrite (entities_of_eq p3 p4) by (apply Hk4; discriminate).
    rewrite (entities_of_eq p0 d) by (symmetry; apply Hk0; discriminate).
    rewrite <- (entities_of_eq p1 p2) in Hes1 by (apply Hk2; discriminate).
    exact (Forall2_compose _ _ _ _ _ Hes1 Hes3). }
  split.
  { apply same_kind_trans with (q := p0);
      [apply same_kind_of_eq; apply Hk0; discriminate|].
    apply same_kind_trans with (q := p1); [exact Hkind1|].
    apply same_kind_trans with (q := p2);
      [apply same_kind_of_eq; apply Hk2; discriminate|].
    apply same_kind_trans with (q := p3); [exact Hkind3|].
    apply same_kind_trans with (q := p4);
      [apply same_kind_of_eq; apply Hk4; discriminate|].
    apply same_kind_of_eq; apply Hk5; discriminate. }
  split.
  { assert (He5 : dget "environment" p5 = dget "environment" p1).
    { rewrite Hk5, Hk4, Hk3, Hk2 by discriminate. reflexivity. }
    assert (He0 : dget "environment" p0 = dget "environment" d)
      by (apply Hk0; discriminate).
    unfold sky_painted, dget_or, aget_or in *. fold dget in *.
    rewrite He5. rewrite He0 in Hsky1. exact Hsky1. }
  split.
  { assert (Hs5 : dget "structures" p5 = dget "structures" p2).
    { rewrite Hk5, Hk4, Hk3 by discriminate. reflexivity. }
    assert (Hs1 : dget "structures" p1 = dget "structures" d).
    { rewrite Hk1, Hk0 by discriminate. reflexivity. }
    unfold dget_or, aget_or in *. fold dget in *.
    rewrite Hs5. rewrite Hs1 in Hst2. exact Hst2. }
  split.
  { exists hs. split; [|exact Hh5].
    unfold dget_or, aget_or in *. fold dget in *.
    rewrite Hk4, Hk3, Hk2, Hk1, Hk0 in Hh4 by discriminate. exact Hh4. }
  intros k H1 H2 H3 H4 H5.
  rewrite Hk5, Hk4, Hk3, Hk2, Hk1, Hk0 by assumption. reflexivity.
Qed.

(** *** The entities through [stub_apply_patch] *)

Lemma ensure_list_other k k' d :
  k <> k' -> dget k (ensure_list k' d) = dget k d.
Proof.
  intros H. unfold ensure_list.
  destruct (dget k' d) as [[]|]; try reflexivity;
    now apply dget_dset_other.
Qed.



(* ================================================================== *)
(** ** Claims about the repairer *)



(** C4 (the code departs from the claim). [repair_dream] raises on mapping
    inputs: when [assumptions] is present and not a list, when a shot has
    to be synthesised and the first structure has no [id], and when
    [durationSec] has to be derived from shots that are not mappings. *)
Theorem repair_dream_raises :
  forall clk : clock,
    repair_dream clk (VDict [("assumptions", VNone)]) = Raise AttributeError
    /\ repair_dream clk
         (VDict [("structures",
                  VList [VDict [("template", VStr "floating_island")]])])
       = Raise KeyError
    /\ repair_dream clk
         (VDict [("cinematography", VDict [("shots", VList [VInt 1])])])
       = Raise AttributeError.
Proof. intros clk. repeat split; reflexivity. Qed.

(* ================================================================== *)
(** ** Claims about the style-enrichment transform *)

(** C8, counterexample: an entity whose glow is [-1], styled twice as
    [fantasy] (multiplier 0.6), has glow [-0.6] and then [-0.36]. *)
Lemma style_idempotence_counterexample : ~ style_idempotence_claim.
Proof.
  intros H.
  destruct (H [("entities", VList [dim_entity])] "fantasy" _ _
              eq_refl eq_refl) as (_ & _ & Hg).
  specialize (Hg eq_refl). inversion Hg as [|e1 e2 l1 l2 Hle _]; subst.
  destruct Hle as (q1 & q2 & H1 & H2 & Hq).
  vm_compute in H1. vm_compute in H2.
  inversion H1; subst. inversion H2; subst.
  vm_compute in Hq. apply Hq. reflexivity.
Qed.

Lemma scaled_glow_value m x :
  exists y, scaled_glow m x = VFloat y /\
            ((x * m < 1 /\ y == x * m) \/ (~ x * m < 1 /\ y == 1)).
Proof.
  unfold scaled_glow, Qltb.
  destruct (Qle_bool 1 (Qred (x * m))) eqn:E; simpl negb; cbv iota.
  - exists 1. split; [reflexivity|]. right.
    apply Qle_bool_iff in E. rewrite Qred_correct in E.
    split; [now apply Qle_not_lt | reflexivity].
  - exists (Qred (x * m)). split; [reflexivity|]. left.
    split; [|apply Qred_correct].
    apply Qnot_le_lt. intros Hle.
    assert (Qle_bool 1 (Qred (x * m)) = true)
      by (apply Qle_bool_iff; now rewrite Qred_correct).
    congruence.
Qed.

Lemma glow_of_styled cfg e e' :
  style_entity cfg e = Ok e' ->
  exists x, num_of (or_default (VFloat (1 # 2)) (param_of "glow" e)) = Some x
            /\ param_of "glow" e' = Some (scaled_glow (cfg_glow cfg) x).
Proof.
  intros H. destruct (style_entity_spec _ _ _ H) as (x & Hx & _ & Hg & _).
  eauto.
Qed.

Lemma glow_shrinks m x0 e1 e2 cfg :
  cfg_glow cfg = m -> 0 < m -> m < 1 -> 0 <= x0 ->
  param_of "glow" e1 = Some (scaled_glow m x0) ->
  style_entity cfg e1 = Ok e2 ->
  glow_le e1 e2.
Proof.
  intros Hm Hpos Hlt Hx0 Hg1 H2.
  destruct (glow_of_styled _ _ _ H2) as (x1 & Hx1 & Hg2).
  rewrite Hg1 in Hx1. simpl or_default in Hx1. rewrite Hm in Hg2.
  destruct (scaled_glow_value m x0) as (y1 & Ey1 & Hy1).
  destruct (scaled_glow_value m x1) as (y2 & Ey2 & Hy2).
  rewrite Ey1 in Hx1. simpl in Hx1. inversion Hx1; subst x1.
  exists y1, y2. unfold glow_num. rewrite Hg1, Hg2, Ey1, Ey2.
  repeat split.
  assert (Hy1' : 0 <= y1 /\ y1 <= 1).
  { destruct Hy1 as [[Ha Hb]|[Ha Hb]]; rewrite Hb; split; nra. }
  destruct Hy1' as [Hlo Hhi].
  destruct Hy2 as [[Ha Hb]|[Ha Hb]].
  - rewrite Hb. nra.
  - exfalso. apply Ha. nra.
Qed.

Lemma Forall2_with {A B} (P : A -> Prop) (R S : A -> B -> Prop) l1 l2 :
  Forall2 R l1 l2 -> Forall P l1 ->
  (forall a b, P a -> R a b -> S a b) ->
  Forall2 S l1 l2.
Proof.
  intros H2 H1 Himp. induction H2; [constructor|].
  inversion H1; subst. constructor; auto.
Qed.

Lemma Forall2_image {A B} (R : A -> B -> Prop) (Q : B -> Prop) l1 l2 :
  Forall2 R l1 l2 -> (forall a b, R a b -> Q b) -> Forall Q l2.
Proof. intros H2 Himp. induction H2; constructor; eauto. Qed.

Lemma Forall2_map_eq {A C} (f : A -> C) l1 l2 :
  Forall2 (fun a b => f b = f a) l1 l2 -> map f l2 = map f l1.
Proof. induction 1; simpl; congruence. Qed.

Lemma Forall_True {A} (l : list A) : Forall (fun _ => True) l.
Proof. induction l; constructor; auto. Qed.

Lemma second_styling_returns d s d1 :
  apply_style (VDict d) s = Ok (VDict d1) ->
  returns (apply_style (VDict d1) s) = true.
Proof.
  intros H.
  assert (Hret : returns (apply_style (VDict d) s) = true) by now rewrite H.
  rewrite apply_style_returns in Hret.
  apply andb_prop in Hret. destruct Hret as [Hret _].
  apply andb_prop in Hret. destruct Hret as [_ Hloop].
  destruct (apply_style_spec _ _ _ H)
    as (env & _ & _ & Henv & _ & Hes & Hnl & Hl & (xs & Hxs & _)).
  unfold field in *. rewrite apply_style_returns.
  unfold dget_or, aget_or. fold dget. rewrite Henv, Hxs. simpl.
  rewrite andb_true_r.
  destruct (is_list (or_default VNone (dget "entities" d))) eqn:El.
  - rewrite (Hl eq_refl). simpl. apply forallb_forall.
    intros e' Hin.
    assert (Hall : Forall (fun e' => returns (style_entity (get_style_config s) e')
                                     = true) (entities_of (VDict d1))).
    { eapply Forall2_image; [exact Hes|].
      intros a b Hab. eapply style_entity_again; exact Hab. }
    rewrite Forall_forall in Hall. now apply Hall.
  - rewrite (Hnl eq_refl). exact Hloop.
Qed.

(** C8, amended.  Whenever [apply_style] returns a document, a second
    application with the same style name returns one as well, with the
    same [environment] mapping and the same entity colours; and when the
    style's glow multiplier is below one and every entity of the input has
    an absent or non-negative glow, no entity's glow is larger after the
    second application than after the first. *)
Theorem apply_style_twice :
  forall d s r1,
    apply_style (VDict d) s = Ok r1 ->
    exists r2,
      apply_style r1 s = Ok r2 /\
      field "environment" r2 = field "environment" r1 /\
      colors_of r2 = colors_of r1 /\
      (cfg_glow (get_style_config s) < 1 ->
       Forall glow_not_negative (entities_of (VDict d)) ->
       Forall2 glow_le (entities_of r1) (entities_of r2)).
Proof.
  intros d s r1 H1.
  destruct (apply_style_spec _ _ _ H1)
    as (env & Hd1 & _ & Henv1 & _ & Hes1 & _ & _ & _).
  destruct r1 as [| | | | | |d1]; try discriminate. clear Hd1.
  pose proof (second_styling_returns _ _ _ H1) as Hret.
  destruct (apply_style (VDict d1) s) as [r2|] eqn:H2; [|discriminate].
  exists r2. split; [reflexivity|].
  destruct (apply_style_spec _ _ _ H2)
    as (env2 & _ & Hd & Henv2 & _ & Hes2 & _ & _ & _).
  unfold field in Henv1. rewrite Henv1 in Hd. simpl in Hd.
  inversion Hd; subst env2; clear Hd.
  repeat split.
  - rewrite Henv2. unfold field. rewrite Henv1.
    now rewrite dict_update_idempotent.
  - unfold colors_of. apply Forall2_map_eq.
    assert (Hc1 : Forall (fun e1 => param_of "color" e1
                          = Some (VStr (cfg_color (get_style_config s))))
                         (entities_of (VDict d1))).
    { eapply Forall2_image; [exact Hes1|].
      intros a b Hab.
      destruct (style_entity_spec _ _ _ Hab) as (x & _ & Hc & _). exact Hc. }
    eapply Forall2_with; [exact Hes2 | exact Hc1 |].
    intros a b Ha Hab. simpl in Ha. rewrite Ha.
    destruct (style_entity_spec _ _ _ Hab) as (x & _ & Hc & _). exact Hc.
  - intros Hm Hnn.
    assert (Hg1 : Forall (fun e1 => exists x0,
                            0 <= x0 /\
                            param_of "glow" e1
                            = Some (scaled_glow (cfg_glow (get_style_config s)) x0))
                         (entities_of (VDict d1))).
    { assert (Hboth : Forall2 (fun e e1 =>
                glow_not_negative e /\
                style_entity (get_style_config s) e = Ok e1)
                (entities_of (VDict d)) (entities_of (VDict d1))).
      { eapply Forall2_with; [exact Hes1 | exact Hnn |]. auto. }
      eapply Forall2_image; [exact Hboth|].
      intros a b (Hna & Hab).
      destruct (glow_of_styled _ _ _ Hab) as (x0 & Hx0 & Hg).
      exists x0. split; [now apply Hna | exact Hg]. }
    eapply Forall2_with; [exact Hes2 | exact Hg1 |].
    intros a b (x0 & Hx0 & Hg) Hab. simpl.
    eapply glow_shrinks; eauto. apply cfg_glow_positive.
Qed.

Lemma apply_style_twice_witness :
  exists r1 r2,
    apply_style (VDict styled_once_sample) "nightmare" = Ok r1 /\
    apply_style r1 "nightmare" = Ok r2 /\
    field "environment" r2 = field "environment" r1 /\
    colors_of r2 = colors_of r1 /\
    Forall2 glow_le (entities_of r1) (entities_of r2).
Proof.
  destruct (apply_style (VDict styled_once_sample) "nightmare") as [r1|] eqn:E;
    [|discriminate].
  destruct (apply_style_twice styled_once_sample "nightmare" r1 E)
    as (r2 & H2 & Henv & Hcol & Hglow).
  exists r1, r2. repeat split; try assumption.
  apply Hglow; [reflexivity|].
  repeat constructor. intros q Hq. vm_compute in Hq.
  inversion Hq; subst. discriminate.
Defined.



(* ================================================================== *)
(** ** Claims about the text-edit transforms *)













(* ================================================================== *)
(** ** Claims about the resolvers *)

(** C1 (the code departs from the claim).  On a document whose
    [assumptions] entry is [null], both resolvers raise when the backend
    answers in prose, and also when the backend call itself raises: the
    fallback transform raises inside the [try] block, and raises again
    inside the exception handler. *)
Theorem resolvers_raise :
  forall clk : clock,
    apply_patch clk (Ok prose) null_assumptions "make it calmer"
    = Raise AttributeError
    /\ apply_patch clk (Raise TypeError) null_assumptions "make it calmer"
       = Raise AttributeError
    /\ enrich_style clk (Ok prose) null_assumptions "cyberpunk"
       = Raise AttributeError
    /\ enrich_style clk (Raise TypeError) null_assumptions "cyberpunk"
       = Raise AttributeError.
Proof. intros clk. repeat split; reflexivity. Qed.


Lemma same_kind_list_field d rd :
  same_kind d rd ->
  is_list (or_default VNone (dget "entities" d)) = true ->
  list_field "entities" (VDict rd) = true.
Proof. intros [H _] Hl. unfold list_field, field. now apply H. Qed.

Lemma tagged_spec tag m r :
  tagged tag m = Ok r ->
  exists d xs,
    m = Ok (VDict d) /\
    dget_or "assumptions" (VList []) d = VList xs /\
    field "assumptions" r = Some (VList (xs ++ [VStr tag])) /\
    (forall k, k <> "assumptions" -> field k r = dget k d).
Proof.
  unfold tagged. intros H. inv_bind H.
  destruct x as [| | | | | |d]; try discriminate.
  inv_bind H. inversion H; subst; clear H.
  destruct (append_to_same _ _ _ _ E0) as (xs & H1 & H2).
  exists d, xs. repeat split; auto.
  intros k Hk. unfold field. eapply append_to_other; eauto.
Qed.


Lemma parsed_document_Some response p :
  parsed_document response = Some p ->
  exists text b p',
    response = Ok text /\ p = b :: p' /\
    or_else (extract_json_from_text text) (parse_json_or_none text)
    = Some (VDict (b :: p')).
Proof.
  unfold parsed_document. destruct response as [text|]; [|discriminate].
  destruct (or_else (extract_json_from_text text) (parse_json_or_none text))
    as [[| | | | | |[|b p']]|] eqn:Eo; try discriminate.
  intros H. inversion H; subst. exists text, b, p'. auto.
Qed.




(* ================================================================== *)
(** ** Claims about the JSON extraction *)


(** *** Substrings *)

Lemma substring_zero_append b post :
  substring 0 (String.length b) (b ++ post) = b.
Proof. induction b as [|c b IH]; simpl; [now destruct post | now rewrite IH]. Qed.


Lemma is_open_not_close c : is_open c = true -> is_close c = false.
Proof.
  unfold is_open, is_close, is_char. intros H.
  apply Nat.eqb_eq in H. now rewrite H.
Qed.



Lemma slice_append pre b post :
  b <> EmptyString ->
  slice (pre ++ b ++ post) (String.length pre)
        (String.length pre + String.length b - 1)
  = b.
Proof.
  intros Hne. unfold slice.
  replace (S (String.length pre + String.length b - 1) - String.length pre)%nat
    with (String.length b)
    by (destruct b; [contradiction | cbn [String.length]; lia]).
  induction pre as [|c pre IH]; simpl.
  - apply substring_zero_append.
  - exact IH.
Qed.






(** *** The block is never empty *)









(* ================================================================== *)
(** * Ownership: what the store-level code can write

    A run that starts in a store of [n0] cells may write the cells it
    allocates itself and no others.  The invariant that carries this
    through a function body is that the new cells refer to new cells only
    ([closed]); it makes every reference the code reads out of its own
    copy a reference it may write through. *)

Module StoreFacts.
Import Store.
Local Open Scope nat_scope.
Local Open Scope m_scope.

Lemma frame_refl n0 h : frame n0 h h.
Proof. split; auto. Qed.

Lemma frame_trans n0 h1 h2 h3 :
  frame n0 h1 h2 -> frame n0 h2 h3 -> frame n0 h1 h3.
Proof.
  intros [L1 F1] [L2 F2]. split; [lia|].
  intros l Hl. rewrite F2, F1 by assumption. reflexivity.
Qed.

Lemma frame_weaken n0 n1 h h' : n0 <= n1 -> frame n1 h h' -> frame n0 h h'.
Proof. intros Hn [L F]. split; [exact L|]. intros l Hl. apply F. lia. Qed.

(** *** Rules of the monad *)

Lemma safe_ret {A} n0 (a : A) (Q : A -> Prop) : Q a -> safe n0 (ret a) Q.
Proof. intros Hq h Hn Hc. simpl. auto using frame_refl. Qed.

Lemma safe_raise {A} n0 e (Q : A -> Prop) : safe n0 (raise e) Q.
Proof. intros h Hn Hc. simpl. auto using frame_refl. Qed.

Lemma safe_bind {A B} n0 (m : M A) (k : A -> M B) P Q :
  safe n0 m P -> (forall a, P a -> safe n0 (k a) Q) -> safe n0 (mbind m k) Q.
Proof.
  intros Hm Hk h Hn Hc. unfold mbind.
  destruct (Hm h Hn Hc) as (Hf & Hc' & Hp).
  destruct (m h) as [[a|e] h1]; simpl in *.
  - assert (Hn1 : n0 <= length h1) by (destruct Hf; lia).
    destruct (Hk a Hp h1 Hn1 Hc') as (Hf2 & Hc2 & Hq).
    split; [eapply frame_trans; eauto | auto].
  - auto.
Qed.

Lemma safe_conseq {A} n0 (m : M A) (P Q : A -> Prop) :
  safe n0 m P -> (forall a, P a -> Q a) -> safe n0 m Q.
Proof.
  intros Hm Himp h Hn Hc. destruct (Hm h Hn Hc) as (Hf & Hc' & Hp).
  split; [exact Hf|]. split; [exact Hc'|].
  destruct (fst (m h)); auto.
Qed.

Lemma safe_try {A} n0 (body handler : M A) Q :
  safe n0 body Q -> safe n0 handler Q -> safe n0 (try_except body handler) Q.
Proof.
  intros Hb Hh h Hn Hc. unfold try_except.
  destruct (Hb h Hn Hc) as (Hf & Hc' & Hp).
  destruct (body h) as [[a|e] h1]; simpl in *; [auto|].
  assert (Hn1 : n0 <= length h1) by (destruct Hf; lia).
  destruct (Hh h1 Hn1 Hc') as (Hf2 & Hc2 & Hq).
  split; [eapply frame_trans; eauto | auto].
Qed.

Lemma safe_keeps {A} n0 (m : M A) Q : safe n0 m Q -> keeps n0 m.
Proof. intros Hm h Hn Hc. now destruct (Hm h Hn Hc). Qed.

Lemma keeps_bind {A B} n0 (m : M A) (k : A -> M B) P :
  safe n0 m P -> (forall a, P a -> keeps n0 (k a)) -> keeps n0 (mbind m k).
Proof.
  intros Hm Hk h Hn Hc. unfold mbind.
  destruct (Hm h Hn Hc) as (Hf & Hc' & Hp).
  destruct (m h) as [[a|e] h1]; simpl in *; [|assumption].
  assert (Hn1 : n0 <= length h1) by (destruct Hf; lia).
  eapply frame_trans; [exact Hf | now apply Hk].
Qed.

Lemma closed_empty_region h : closed (length h) h.
Proof.
  intros l c Hl Hc.
  assert (l < length h) by (apply nth_error_Some; congruence). lia.
Qed.

Lemma safe_preserves {A} (m : M A) (Q : nat -> A -> Prop) :
  (forall n0, safe n0 m (Q n0)) -> preserves m.
Proof.
  intros Hm h. destruct (Hm (length h) h (le_n _) (closed_empty_region h)).
  assumption.
Qed.

(** A handler that preserves every cell may follow a body that keeps
    the first [n0]. *)
Lemma keeps_try {A} n0 (body handler : M A) :
  keeps n0 body -> preserves handler -> keeps n0 (try_except body handler).
Proof.
  intros Hb Hh h Hn Hc. unfold try_except.
  pose proof (Hb h Hn Hc) as Hf.
  destruct (body h) as [[a|e] h1]; simpl in *; [assumption|].
  eapply frame_trans; [exact Hf|].
  apply frame_weaken with (n1 := length h1); [destruct Hf; lia | apply Hh].
Qed.

(** *** Cells *)

Lemma nth_error_set_nth_same {A} (l : list A) n a :
  n < length l -> nth_error (set_nth n a l) n = Some a.
Proof.
  revert n. induction l as [|x l IH]; intros [|n] H; simpl in *;
    try lia; [reflexivity | apply IH; lia].
Qed.

Lemma nth_error_set_nth_other {A} (l : list A) n m a :
  n <> m -> nth_error (set_nth n a l) m = nth_error l m.
Proof.
  revert n m. induction l as [|x l IH]; intros [|n] [|m] H; simpl;
    try reflexivity; try lia. apply IH. lia.
Qed.

Lemma length_set_nth {A} (l : list A) n a : length (set_nth n a l) = length l.
Proof.
  revert n. induction l as [|x l IH]; intros [|n]; simpl; auto.
Qed.

Lemma safe_alloc n0 c : cell_fresh n0 c -> safe n0 (alloc c) (fresh n0).
Proof.
  intros Hc h Hn Hcl. unfold alloc. simpl. repeat split.
  - rewrite length_app. simpl. lia.
  - intros l Hl. apply nth_error_app1. lia.
  - intros l c' Hl Hc'.
    destruct (Nat.lt_ge_cases l (length h)) as [Hlt|Hge].
    + rewrite nth_error_app1 in Hc' by assumption. eapply Hcl; eauto.
    + rewrite nth_error_app2 in Hc' by assumption.
      destruct (l - length h) as [|k] eqn:E; simpl in Hc'.
      * now inversion Hc'; subst.
      * destruct k; discriminate.
  - exact Hn.
Qed.

Lemma safe_load n0 l :
  safe n0 (load l) (fun c => n0 <= l -> cell_fresh n0 c).
Proof.
  intros h Hn Hc. unfold load.
  destruct (nth_error h l) as [c|] eqn:E; simpl;
    repeat split; auto using frame_refl.
  intros Hl. eapply Hc; eauto.
Qed.

Lemma safe_save n0 l c :
  n0 <= l -> cell_fresh n0 c -> safe n0 (save l c) (fun _ => True).
Proof.
  intros Hl Hcf h Hn Hc. unfold save.
  destruct (nth_error h l) as [c0|] eqn:E; simpl;
    [|repeat split; auto using frame_refl].
  assert (Hlt : l < length h) by (apply nth_error_Some; congruence).
  repeat split.
  - rewrite length_set_nth. lia.
  - intros l' Hl'. apply nth_error_set_nth_other. lia.
  - intros l' c' Hl' Hc'. destruct (Nat.eq_dec l l') as [<-|Hne].
    + rewrite nth_error_set_nth_same in Hc' by assumption.
      now inversion Hc'; subst.
    + rewrite nth_error_set_nth_other in Hc' by assumption. eapply Hc; eauto.
Qed.

(** *** The object operations *)

Lemma aget_fresh n0 (kv : list (string * ref)) k v :
  Forall (fun p => fresh n0 (snd p)) kv -> aget k kv = Some v -> fresh n0 v.
Proof.
  induction 1 as [|[k' v'] kv Hx _ IH]; simpl; [discriminate|].
  destruct (String.eqb k k'); [|exact IH].
  intros H. now inversion H; subst.
Qed.

Lemma aset_fresh n0 (kv : list (string * ref)) k v :
  Forall (fun p => fresh n0 (snd p)) kv -> fresh n0 v ->
  Forall (fun p => fresh n0 (snd p)) (aset k v kv).
Proof.
  intros H Hv. induction H as [|[k' v'] kv Hx Hkv IH]; simpl.
  - constructor; [exact Hv | constructor].
  - destruct (String.eqb k k'); constructor; assumption.
Qed.

Lemma safe_items n0 r e :
  safe n0 (items r e)
       (fun kv => fresh n0 r -> Forall (fun p => fresh n0 (snd p)) kv).
Proof.
  destruct r; try apply safe_raise.
  unfold items. eapply safe_bind; [apply safe_load|].
  intros c Hc. destruct c; [apply safe_raise | apply safe_ret].
  intros Hl. exact (Hc Hl).
Qed.

Lemma safe_elements n0 r e :
  safe n0 (elements r e) (fun xs => fresh n0 r -> Forall (fresh n0) xs).
Proof.
  destruct r; try apply safe_raise.
  unfold elements. eapply safe_bind; [apply safe_load|].
  intros c Hc. destruct c; [apply safe_ret | apply safe_raise].
  intros Hl. exact (Hc Hl).
Qed.

Lemma safe_is_dict n0 r : safe n0 (is_dict r) (fun _ => True).
Proof.
  destruct r; try (apply safe_ret; exact I).
  unfold is_dict. eapply safe_bind; [apply safe_load|].
  intros. now apply safe_ret.
Qed.

Lemma safe_is_list n0 r : safe n0 (is_list r) (fun _ => True).
Proof.
  destruct r; try (apply safe_ret; exact I).
  unfold is_list. eapply safe_bind; [apply safe_load|].
  intros. now apply safe_ret.
Qed.

Lemma safe_truthy_at n0 r : safe n0 (truthy_at r) (fun _ => True).
Proof.
  destruct r; try (apply safe_ret; exact I).
  unfold truthy_at. eapply safe_bind; [apply safe_load|].
  intros. now apply safe_ret.
Qed.

Lemma safe_get n0 d k :
  safe n0 (get d k)
       (fun o => fresh n0 d -> forall v, o = Some v -> fresh n0 v).
Proof.
  unfold get. eapply safe_bind; [apply safe_items|].
  intros kv Hkv. apply safe_ret. intros Hd v Hv.
  exact (aget_fresh _ _ _ _ (Hkv Hd) Hv).
Qed.

Lemma safe_get_or n0 d k dflt :
  safe n0 (get_or d k dflt)
       (fun v => fresh n0 d -> fresh n0 dflt -> fresh n0 v).
Proof.
  unfold get_or. eapply safe_bind; [apply safe_get|].
  intros o Ho. apply safe_ret. intros Hd Hf.
  destruct o as [v|]; [now apply Ho | exact Hf].
Qed.

Lemma safe_new_list n0 : safe n0 new_list (fresh n0).
Proof. apply safe_alloc. constructor. Qed.

Lemma safe_new_dict n0 : safe n0 new_dict (fresh n0).
Proof. apply safe_alloc. constructor. Qed.

Lemma safe_get_or_new_list n0 d k :
  safe n0 (get_or_new_list d k) (fun v => fresh n0 d -> fresh n0 v).
Proof.
  unfold get_or_new_list. eapply safe_bind; [apply safe_items|].
  intros _ _. eapply safe_bind; [apply safe_new_list|].
  intros dflt Hf. eapply safe_conseq; [apply safe_get_or|].
  simpl. auto.
Qed.

Lemma safe_has n0 d k : safe n0 (has d k) (fun _ => True).
Proof.
  unfold has. eapply safe_bind; [apply safe_items|].
  intros. now apply safe_ret.
Qed.

Lemma safe_subscript_str n0 d k :
  safe n0 (subscript_str d k) (fun v => fresh n0 d -> fresh n0 v).
Proof.
  unfold subscript_str. eapply safe_bind; [apply safe_items|].
  intros kv Hkv. destruct (aget k kv) as [v|] eqn:E; [|apply safe_raise].
  apply safe_ret. intros Hd. exact (aget_fresh _ _ _ _ (Hkv Hd) E).
Qed.

Lemma safe_setitem n0 d k v :
  fresh n0 d -> fresh n0 v -> safe n0 (setitem d k v) (fun _ => True).
Proof.
  intros Hd Hv. destruct d; try apply safe_raise.
  unfold setitem. eapply safe_bind; [apply safe_load|].
  intros c Hc. destruct c; [apply safe_raise|].
  apply safe_save; [exact Hd|]. simpl. apply aset_fresh; [now apply Hc | exact Hv].
Qed.

Lemma safe_setdefault n0 d k mk :
  fresh n0 d -> safe n0 mk (fresh n0) ->
  safe n0 (setdefault d k mk) (fresh n0).
Proof.
  intros Hd Hmk. unfold setdefault.
  eapply safe_bind; [apply safe_items|]. intros kv Hkv.
  eapply safe_bind; [exact Hmk|]. intros dflt Hf.
  destruct (aget k kv) as [v|] eqn:E.
  - apply safe_ret. exact (aget_fresh _ _ _ _ (Hkv Hd) E).
  - eapply safe_bind; [now apply safe_setitem|].
    intros _ _. now apply safe_ret.
Qed.

Lemma safe_append n0 xs v :
  fresh n0 xs -> fresh n0 v -> safe n0 (append xs v) (fun _ => True).
Proof.
  intros Hx Hv. destruct xs; try apply safe_raise.
  unfold append. eapply safe_bind; [apply safe_load|].
  intros c Hc. destruct c; [|apply safe_raise].
  apply safe_save; [exact Hx|]. simpl.
  apply Forall_app. split; [now apply Hc | constructor; auto].
Qed.

Lemma safe_append_new n0 xs arg :
  fresh n0 xs -> safe n0 arg (fresh n0) ->
  safe n0 (append_new xs arg) (fun _ => True).
Proof.
  intros Hx Harg. unfold append_new.
  eapply safe_bind; [apply safe_elements|]. intros _ _.
  eapply safe_bind; [exact Harg|]. intros v Hv.
  now apply safe_append.
Qed.

Lemma safe_iterate n0 r :
  safe n0 (iterate r) (fun xs => fresh n0 r -> Forall (fresh n0) xs).
Proof.
  destruct r; try apply safe_raise.
  - apply safe_ret. intros _. apply Forall_forall.
    intros x Hx. apply in_map_iff in Hx. destruct Hx as (c & <- & _).
    exact I.
  - unfold iterate. eapply safe_bind; [apply safe_load|].
    intros c Hc. apply safe_ret. intros Hl. specialize (Hc Hl).
    destruct c; simpl in *; [exact Hc|].
    apply Forall_forall. intros x Hx. apply in_map_iff in Hx.
    destruct Hx as (p & <- & _). exact I.
Qed.

Lemma safe_mapM {A B} n0 (f : A -> M B) (P : A -> Prop) (Q : B -> Prop) xs :
  (forall x, P x -> safe n0 (f x) Q) -> Forall P xs ->
  safe n0 (mapM f xs) (Forall Q).
Proof.
  intros Hf Hxs. induction Hxs as [|x xs Hx _ IH]; simpl.
  - apply safe_ret. constructor.
  - eapply safe_bind; [now apply Hf|]. intros y Hy.
    eapply safe_bind; [exact IH|]. intros ys Hys.
    apply safe_ret. constructor; assumption.
Qed.

Lemma safe_forM {A} n0 (body : A -> M unit) (P : A -> Prop) xs :
  (forall x, P x -> safe n0 (body x) (fun _ => True)) -> Forall P xs ->
  safe n0 (forM body xs) (fun _ => True).
Proof.
  intros Hf Hxs. induction Hxs as [|x xs Hx _ IH]; simpl.
  - now apply safe_ret.
  - eapply safe_bind; [now apply Hf|]. intros _ _. exact IH.
Qed.

Lemma safe_foldM {A S} n0 (f : S -> A -> M S) xs s :
  (forall s x, safe n0 (f s x) (fun _ => True)) ->
  safe n0 (foldM f xs s) (fun _ => True).
Proof.
  intros Hf. revert s. induction xs as [|x xs IH]; intros s; simpl.
  - now apply safe_ret.
  - eapply safe_bind; [apply Hf|]. intros s' _. apply IH.
Qed.

(** *** Copies and new trees *)

Lemma safe_deepcopy_fuel n0 fuel :
  forall r, safe n0 (deepcopy_fuel fuel r) (fresh n0).
Proof.
  induction fuel as [|fuel IH]; intros r.
  - destruct r; try (apply safe_ret; exact I). apply safe_raise.
  - destruct r; try (apply safe_ret; exact I).
    simpl. eapply safe_bind; [apply safe_load|]. intros c _.
    destruct c as [xs|kv].
    + eapply safe_bind.
      * apply safe_mapM with (P := fun _ => True); [intros; apply IH|].
        apply Forall_forall. auto.
      * intros ys Hys. now apply safe_alloc.
    + eapply safe_bind.
      * apply safe_mapM with (P := fun _ => True)
                             (Q := fun p : string * ref => fresh n0 (snd p)).
        -- intros p _. eapply safe_bind; [apply IH|].
           intros v Hv. now apply safe_ret.
        -- apply Forall_forall. auto.
      * intros kv' Hkv. now apply safe_alloc.
Qed.

Lemma safe_deepcopy n0 r : safe n0 (deepcopy r) (fresh n0).
Proof.
  intros h Hn Hc. unfold deepcopy.
  exact (safe_deepcopy_fuel n0 (S (length h)) r h Hn Hc).
Qed.

Section ValueInduction.
Variable P : value -> Prop.
Hypothesis HNone : P VNone.
Hypothesis HBool : forall b, P (VBool b).
Hypothesis HInt : forall z, P (VInt z).
Hypothesis HFloat : forall q, P (VFloat q).
Hypothesis HStr : forall s, P (VStr s).
Hypothesis HList : forall xs, Forall P xs -> P (VList xs).
Hypothesis HDict : forall kv, Forall (fun p => P (snd p)) kv -> P (VDict kv).

Fixpoint value_nested_ind (v : value) : P v :=
  match v with
  | VNone => HNone
  | VBool b => HBool b
  | VInt z => HInt z
  | VFloat q => HFloat q
  | VStr s => HStr s
  | VList xs =>
      HList xs
        ((fix go (xs : list value) : Forall P xs :=
            match xs with
            | [] => Forall_nil P
            | x :: xs' => Forall_cons x (value_nested_ind x) (go xs')
            end) xs)
  | VDict kv =>
      HDict kv
        ((fix go (kv : list (string * value))
            : Forall (fun p => P (snd p)) kv :=
            match kv with
            | [] => Forall_nil _
            | (k, x) :: kv' =>
                Forall_cons (P := fun p => P (snd p)) (k, x)
                            (value_nested_ind x) (go kv')
            end) kv)
  end.
End ValueInduction.

Lemma safe_build n0 : forall v, safe n0 (build v) (fresh n0).
Proof.
  induction v as [| | | | |xs IH|kv IH] using value_nested_ind;
    try (apply safe_ret; exact I).
  - simpl.
    assert (H : forall acc, Forall (fresh n0) acc ->
      safe n0
        ((fix build_list (xs : list value) (acc : list ref) : M ref :=
            match xs with
            | [] => alloc (CList acc)
            | x :: xs' => r <- build x ;; build_list xs' (acc ++ [r])
            end) xs acc) (fresh n0)).
    { induction IH as [|x xs Hx _ IHxs]; intros acc Hacc.
      - now apply safe_alloc.
      - eapply safe_bind; [exact Hx|]. intros r Hr. apply IHxs.
        apply Forall_app. split; [exact Hacc | constructor; auto]. }
    apply H. constructor.
  - simpl.
    assert (H : forall acc, Forall (fun p => fresh n0 (snd p)) acc ->
      safe n0
        ((fix build_items (kv : list (string * value))
              (acc : list (string * ref)) : M ref :=
            match kv with
            | [] => alloc (CDict acc)
            | (k, x) :: kv' =>
                r <- build x ;; build_items kv' (acc ++ [(k, r)])
            end) kv acc) (fresh n0)).
    { induction IH as [|[k x] kv Hx _ IHkv]; intros acc Hacc.
      - now apply safe_alloc.
      - eapply safe_bind; [exact Hx|]. intros r Hr. apply IHkv.
        apply Forall_app. split; [exact Hacc | constructor; auto]. }
    apply H. constructor.
Qed.

Lemma safe_shown n0 r : safe n0 (shown r) (fun _ => True).
Proof. intros h Hn Hc. unfold shown. simpl. auto using frame_refl. Qed.

(** *** Numbers are immutable *)

Lemma num_fresh n0 r q : num_of r = Some q -> fresh n0 r.
Proof. destruct r; simpl; auto; discriminate. Qed.

Lemma safe_py_mul_float n0 v m : safe n0 (py_mul_float v m) (fresh n0).
Proof.
  unfold py_mul_float. destruct (num_of v); [|apply safe_raise].
  now apply safe_ret.
Qed.

Lemma safe_py_min n0 a x : safe n0 (py_min a x) (fresh n0).
Proof.
  unfold py_min. destruct (num_of a) eqn:Ea; [|apply safe_raise].
  destruct (num_of x) eqn:Ex; [|apply safe_raise].
  apply safe_ret. destruct (Qltb _ _); eapply num_fresh; eauto.
Qed.

Lemma safe_py_max n0 a x : safe n0 (py_max a x) (fresh n0).
Proof.
  unfold py_max. destruct (num_of a) eqn:Ea; [|apply safe_raise].
  destruct (num_of x) eqn:Ex; [|apply safe_raise].
  apply safe_ret. destruct (Qltb _ _); eapply num_fresh; eauto.
Qed.

Lemma safe_py_add n0 a b : safe n0 (py_add a b) (fresh n0).
Proof.
  unfold py_add.
  destruct (int_of a), (int_of b), (num_of a), (num_of b);
    try apply safe_raise; now apply safe_ret.
Qed.

(** *** The functions of the service *)

Create HintDb safe_db.

#[local] Hint Resolve safe_items safe_elements safe_is_dict safe_is_list
  safe_truthy_at safe_get safe_get_or safe_new_list safe_new_dict
  safe_get_or_new_list safe_has safe_subscript_str safe_setitem
  safe_setdefault safe_append safe_append_new safe_iterate safe_deepcopy
  safe_build safe_shown safe_py_mul_float safe_py_min safe_py_max
  safe_py_add safe_alloc safe_ret : safe_db.

#[local] Hint Extern 1 (fresh _ _) => exact I : safe_db.
#[local] Hint Extern 1 (cell_fresh _ _) =>
  simpl; repeat constructor; simpl : safe_db.
#[local] Hint Extern 1 (Forall (fresh _) (_ :: _)) =>
  repeat constructor : safe_db.
#[local] Hint Extern 2 (fresh _ (match ?x with _ => _ end)) =>
  destruct x : safe_db.
#[local] Hint Extern 3 (fresh _ ?v) =>
  match goal with
  | H : aget _ _ = Some v |- _ => eapply aget_fresh; [|exact H]
  end : safe_db.

(** The postcondition a result of a given type carries by default. *)
Ltac post_of n T :=
  lazymatch T with
  | ref => constr:(fresh n)
  | list ref => constr:(Forall (fresh n))
  | option ref =>
      constr:(fun o : option ref => forall v, o = Some v -> fresh n v)
  | list (string * ref) =>
      constr:(Forall (fun p : string * ref => fresh n (snd p)))
  | option (value * ref) =>
      constr:(fun o : option (value * ref) =>
                forall v r, o = Some (v, r) -> fresh n r)
  | ?X => constr:(fun _ : X => True)
  end.

Ltac safe_leaf :=
  first
    [ solve [eauto with safe_db]
    | eapply safe_conseq;
      [ solve [eauto with safe_db]
      | cbv beta; intros; eauto with safe_db ] ].

(** Walk through a function body, one statement at a time. *)
Ltac safe_go :=
  cbv zeta;
  lazymatch goal with
  | |- safe ?n (mbind ?m _) _ =>
      let T := type of m in
      lazymatch T with
      | M ?A =>
          let post := post_of n A in
          apply safe_bind with (P := post); [safe_go | intros; safe_go]
      end
  | |- safe _ (if ?b then _ else _) _ => destruct b; safe_go
  | |- safe _ (match ?x with _ => _ end) _ => destruct x eqn:?; safe_go
  | |- safe _ (ret _) _ => apply safe_ret; eauto with safe_db
  | |- safe _ (raise _) _ => apply safe_raise
  | |- _ => safe_leaf
  end.

Lemma safe_for_entities n0 body patched :
  fresh n0 patched ->
  (forall e, fresh n0 e -> safe n0 (body e) (fun _ => True)) ->
  safe n0 (for_entities body patched) (fun _ => True).
Proof.
  intros Hp Hb. unfold for_entities.
  apply safe_bind with (P := fresh n0); [safe_leaf|]. intros es Hes.
  apply safe_bind with (P := Forall (fresh n0)); [safe_leaf|]. intros xs Hxs.
  now apply safe_forM with (P := fresh n0).
Qed.

Lemma safe_set_param n0 key v e :
  fresh n0 e -> fresh n0 v -> safe n0 (set_param key v e) (fun _ => True).
Proof. intros He Hv. unfold set_param. safe_go. Qed.

Lemma safe_speed_up n0 speed : safe n0 (speed_up speed) (fresh n0).
Proof. unfold speed_up. safe_go. Qed.

Lemma safe_slow_down n0 speed : safe n0 (slow_down speed) (fresh n0).
Proof. unfold slow_down. safe_go. Qed.

Lemma safe_update_speed n0 f e :
  fresh n0 e -> (forall x, safe n0 (f x) (fresh n0)) ->
  safe n0 (update_speed f e) (fun _ => True).
Proof. intros He Hf. unfold update_speed. safe_go. Qed.

Lemma safe_set_sky n0 v patched :
  fresh n0 patched -> fresh n0 v -> safe n0 (set_sky v patched) (fun _ => True).
Proof. intros Hp Hv. unfold set_sky. safe_go. Qed.

Lemma safe_history_entry n0 a b c : safe n0 (history_entry a b c) (fresh n0).
Proof. unfold history_entry. safe_go. Qed.

Lemma safe_new_structure n0 id template pos scale :
  Forall (fresh n0) pos ->
  safe n0 (new_structure id template pos scale) (fresh n0).
Proof.
  intros Hpos. unfold new_structure.
  apply safe_bind with (P := fresh n0); [now apply safe_alloc|].
  intros p Hp. apply safe_bind with (P := fresh n0); [safe_leaf|].
  intros f Hf. apply safe_alloc. simpl. repeat constructor; assumption.
Qed.

#[local] Hint Resolve safe_for_entities safe_set_param safe_speed_up
  safe_slow_down safe_update_speed safe_set_sky safe_history_entry
  safe_new_structure : safe_db.

Lemma safe_safe_color_step n0 edit patched applied kv :
  fresh n0 patched ->
  safe n0 (safe_color_step edit patched applied kv) (fun _ => True).
Proof. intros Hp. unfold safe_color_step. safe_go. Qed.

Lemma safe_patch_safe clk base edit_text :
  forall n0, safe n0 (safe_patch clk base edit_text) (fresh n0).
Proof.
  intros n0. unfold safe_patch.
  apply safe_bind with (P := fresh n0); [safe_leaf|]. intros patched Hp.
  apply safe_bind with (P := fresh n0); [safe_leaf|]. intros _ _.
  cbv zeta.
  apply safe_bind with (P := fun _ => True).
  { apply safe_foldM. intros s x. now apply safe_safe_color_step. }
  intros applied _. safe_go.
Qed.

Lemma safe_update n0 d other :
  fresh n0 d -> safe n0 (update d other) (fun _ => True).
Proof.
  intros Hd. destruct d; try apply safe_raise.
  unfold update. eapply safe_bind; [apply safe_load|].
  intros c Hc. destruct c; [apply safe_raise|].
  apply safe_save; [exact Hd|]. simpl. specialize (Hc Hd). simpl in Hc.
  revert kv Hc. induction other as [|[k v] other IH]; intros kv Hkv; simpl.
  - exact Hkv.
  - apply IH. apply aset_fresh; [exact Hkv|]. destruct v; exact I.
Qed.

Lemma safe_style_entity n0 cfg entity :
  fresh n0 entity -> safe n0 (style_entity cfg entity) (fun _ => True).
Proof. intros He. unfold style_entity. safe_go. Qed.

#[local] Hint Resolve safe_update safe_style_entity : safe_db.

Lemma apply_style_safe base style :
  forall n0, safe n0 (apply_style base style) (fresh n0).
Proof. intros n0. unfold apply_style. safe_go. Qed.

Lemma safe_validate_dream n0 dream :
  fresh n0 dream -> safe n0 (validate_dream dream) (fun _ => True).
Proof. intros Hd. unfold validate_dream. safe_go. Qed.

Lemma safe_first_item n0 x :
  safe n0 (first_item x) (fun v => fresh n0 x -> fresh n0 v).
Proof.
  destruct x; try apply safe_raise.
  - destruct s; [apply safe_raise | apply safe_ret; intros; exact I].
  - unfold first_item. eapply safe_bind; [apply safe_load|].
    intros c Hc. destruct c as [[|y ys]|]; try apply safe_raise.
    apply safe_ret. intros Hl. specialize (Hc Hl). now inversion Hc.
Qed.

#[local] Hint Resolve safe_first_item safe_validate_dream : safe_db.

Lemma safe_first_structure_id n0 repaired :
  fresh n0 repaired -> safe n0 (first_structure_id repaired) (fresh n0).
Proof. intros Hr. unfold first_structure_id. safe_go. Qed.

Lemma safe_sum_durations n0 shots :
  safe n0 (sum_durations shots) (fresh n0).
Proof.
  unfold sum_durations.
  apply safe_bind with (P := fun _ => True); [safe_leaf|]. intros xs _.
  apply safe_bind with (P := fun _ => True).
  { eapply safe_conseq.
    - apply safe_mapM with (P := fun _ => True) (Q := fun _ => True).
      + intros x _. safe_leaf.
      + apply Forall_forall. auto.
    - auto. }
  intros durs _.
  assert (H : forall acc, fresh n0 acc ->
                          safe n0 (foldM py_add durs acc) (fresh n0)).
  { induction durs as [|d durs IH]; intros acc Hacc; simpl.
    - now apply safe_ret.
    - eapply safe_bind; [apply safe_py_add|]. intros s Hs. now apply IH. }
  apply H. exact I.
Qed.

Lemma safe_establish_shot n0 target duration :
  safe n0 target (fresh n0) -> safe n0 duration (fresh n0) ->
  safe n0 (establish_shot target duration) (fresh n0).
Proof.
  intros Ht Hd. unfold establish_shot.
  eapply safe_bind; [exact Ht|]. intros t Hft.
  eapply safe_bind; [exact Hd|]. intros d Hfd.
  apply safe_alloc. simpl. repeat constructor; assumption.
Qed.

#[local] Hint Resolve safe_first_structure_id safe_sum_durations
  safe_establish_shot : safe_db.

Lemma safe_coerce_list n0 k repaired :
  fresh n0 repaired -> safe n0 (coerce_list k repaired) (fun _ => True).
Proof. intros Hr. unfold coerce_list. safe_go. Qed.

Lemma safe_ensure_required_fields n0 clk repaired :
  fresh n0 repaired ->
  safe n0 (ensure_required_fields clk repaired) (fun _ => True).
Proof. intros Hr. unfold ensure_required_fields. safe_go. Qed.

#[local] Hint Resolve safe_coerce_list safe_ensure_required_fields : safe_db.

Lemma safe_ensure_arrays n0 repaired :
  fresh n0 repaired -> safe n0 (ensure_arrays repaired) (fun _ => True).
Proof. intros Hr. unfold ensure_arrays. safe_go. Qed.

Lemma safe_cinematography_defaults n0 repaired :
  fresh n0 repaired ->
  safe n0 (cinematography_defaults repaired) (fun _ => True).
Proof.
  intros Hr. unfold cinematography_defaults.
  apply safe_bind with (P := fun _ => True); [safe_go|]. intros present _.
  apply safe_bind with (P := fun _ => True); [safe_go|]. intros usable _.
  destruct (negb usable); [safe_go|].
  apply safe_bind with (P := fresh n0); [safe_go|]. intros c Hc.
  apply safe_bind with (P := fun _ => True); [safe_go|]. intros has_duration _.
  apply safe_bind with (P := fun _ => True); [safe_go|]. intros _ _.
  apply safe_bind with (P := fun _ => True); [safe_go|]. intros has_shots _.
  apply safe_bind with (P := fun _ => True); [safe_go|]. intros good _.
  destruct good; [safe_go|].
  apply safe_bind with (P := fresh n0).
  { apply safe_establish_shot; safe_go. }
  intros shot Hs. safe_go.
Qed.

#[local] Hint Resolve safe_ensure_arrays safe_cinematography_defaults
  : safe_db.

Lemma repair_dream_safe clk dream :
  forall n0, safe n0 (repair_dream clk dream) (fresh n0).
Proof. intros n0. unfold repair_dream. safe_go. Qed.

Lemma safe_tag_with n0 tag doc :
  fresh n0 doc -> safe n0 (tag_with tag doc) (fresh n0).
Proof. intros Hd. unfold tag_with. safe_go. Qed.

Lemma safe_built n0 parsed :
  safe n0 (built parsed) (fun o => forall v r, o = Some (v, r) -> fresh n0 r).
Proof.
  destruct parsed as [v|]; simpl.
  - eapply safe_bind; [apply safe_build|]. intros r Hr.
    apply safe_ret. intros v' r' E. now inversion E; subst.
  - apply safe_ret. discriminate.
Qed.

Lemma safe_parse_response n0 text :
  safe n0 (parse_response text) (fun o => forall r, o = Some r -> fresh n0 r).
Proof.
  unfold parse_response.
  eapply safe_bind; [apply safe_built|]. intros first Hfirst.
  apply safe_bind
    with (P := fun o => forall v r, o = Some (v, r) -> fresh n0 r).
  { destruct first as [[v r]|]; [|apply safe_built].
    destruct (truthy v); [now apply safe_ret | apply safe_built]. }
  intros chosen Hch. apply safe_ret. intros r.
  destruct chosen as [[[] r']|]; try discriminate.
  destruct kv; [discriminate|]. intros E. inversion E; subst. eauto.
Qed.

Lemma safe_py_in n0 k v : safe n0 (py_in k v) (fun _ => True).
Proof.
  destruct v; try apply safe_raise; simpl.
  - now apply safe_ret.
  - eapply safe_bind; [apply safe_load|]. intros. now apply safe_ret.
Qed.

#[local] Hint Resolve safe_tag_with safe_py_in safe_patch_safe
  apply_style_safe repair_dream_safe : safe_db.

(** *** Steps that leave the invariant

    One statement of [apply_patch] stores an object of the caller's into
    the new document: [patched["id"] = base_json["id"]].  From there on
    the new cells may point into the caller's, and the statements that
    follow are taken one by one, with the store they start in described
    at each. *)

Lemma triple_bind {A B} n0 P (m : M A) (k : A -> M B) Q R :
  triple n0 P m Q -> (forall a, triple n0 (Q a) (k a) R) ->
  triple n0 P (mbind m k) R.
Proof.
  intros Hm Hk h Hn Hp. unfold mbind.
  destruct (Hm h Hn Hp) as [Hf Hq].
  destruct (m h) as [[a|e] h1]; simpl in *; [|auto].
  assert (Hn1 : n0 <= length h1) by (destruct Hf; lia).
  destruct (Hk a h1 Hn1 Hq) as [Hf2 Hr].
  split; [eapply frame_trans; eauto | exact Hr].
Qed.

Lemma triple_ret {A} n0 (P : store -> Prop) (a : A) (Q : A -> store -> Prop) :
  (forall h, P h -> Q a h) -> triple n0 P (ret a) Q.
Proof. intros H h Hn Hp. simpl. auto using frame_refl. Qed.

Lemma triple_raise {A} n0 P e (Q : A -> store -> Prop) :
  triple n0 P (raise e) Q.
Proof. intros h Hn Hp. simpl. auto using frame_refl. Qed.

Lemma triple_alloc n0 (P : store -> Prop) c (Q : ref -> store -> Prop) :
  (forall h, n0 <= length h -> P h -> Q (RLoc (length h)) (h ++ [c])) ->
  triple n0 P (alloc c) Q.
Proof.
  intros H h Hn Hp. unfold alloc. simpl. split; [|auto].
  split; [rewrite length_app; simpl; lia|].
  intros l Hl. apply nth_error_app1. lia.
Qed.

Lemma triple_load n0 (P : store -> Prop) l (Q : cell -> store -> Prop) :
  (forall h c, P h -> nth_error h l = Some c -> Q c h) ->
  triple n0 P (load l) Q.
Proof.
  intros H h Hn Hp. unfold load.
  destruct (nth_error h l) as [c|] eqn:E; simpl; auto using frame_refl.
Qed.

Lemma triple_save n0 (P : store -> Prop) l c (Q : unit -> store -> Prop) :
  n0 <= l ->
  (forall h, P h -> l < length h -> Q tt (set_nth l c h)) ->
  triple n0 P (save l c) Q.
Proof.
  intros Hl H h Hn Hp. unfold save.
  destruct (nth_error h l) as [c0|] eqn:E; simpl; [|auto using frame_refl].
  assert (Hlt : l < length h) by (apply nth_error_Some; congruence).
  split; [|auto]. split; [rewrite length_set_nth; lia|].
  intros l' Hl'. apply nth_error_set_nth_other. lia.
Qed.

Lemma triple_keeps {A} n0 (m : M A) Q :
  triple n0 (closed n0) m Q -> keeps n0 m.
Proof. intros Hm h Hn Hc. now destruct (Hm h Hn Hc). Qed.

(** [d[k] = v] writes to [d] alone, whatever the store holds. *)
Lemma triple_setitem n0 P d k v :
  fresh n0 d -> triple n0 P (setitem d k v) (fun _ _ => True).
Proof.
  intros Hd. destruct d; try apply triple_raise. simpl in Hd.
  unfold setitem. apply triple_bind with (Q := fun _ _ => True).
  - now apply triple_load.
  - intros [xs|kv]; [apply triple_raise | now apply triple_save].
Qed.

Lemma triple_append n0 P xs v :
  fresh n0 xs -> triple n0 P (append xs v) (fun _ _ => True).
Proof.
  intros Hx. destruct xs; try apply triple_raise. simpl in Hx.
  unfold append. apply triple_bind with (Q := fun _ _ => True).
  - now apply triple_load.
  - intros [ys|kv]; [now apply triple_save | apply triple_raise].
Qed.

Lemma triple_elements n0 P r e :
  triple n0 P (elements r e) (fun _ _ => True).
Proof.
  destruct r; try apply triple_raise.
  unfold elements. apply triple_bind with (Q := fun _ _ => True).
  - now apply triple_load.
  - intros [ys|kv]; [now apply triple_ret | apply triple_raise].
Qed.

(** [patched["id"] = v] leaves the history list of [patched] its own. *)
Lemma triple_set_id n0 l v :
  n0 <= l ->
  triple n0 (closed n0) (setitem (RLoc l) "id" v)
         (fun _ => history_slot n0 l).
Proof.
  intros Hl. unfold setitem.
  apply triple_bind
    with (Q := fun c h => closed n0 h /\ nth_error h l = Some c).
  - apply triple_load. auto.
  - intros [xs|kv]; [apply triple_raise|].
    apply triple_save; [exact Hl|]. intros h [Hc E] Hlt.
    exists (aset "id" v kv). split.
    + now apply nth_error_set_nth_same.
    + intros w. rewrite aget_aset_other by discriminate.
      apply aget_fresh. exact (Hc l _ Hl E).
Qed.

Lemma triple_conseq {A} n0 (P P' : store -> Prop) (m : M A)
      (Q Q' : A -> store -> Prop) :
  triple n0 P m Q ->
  (forall h, P' h -> P h) -> (forall a h, Q a h -> Q' a h) ->
  triple n0 P' m Q'.
Proof.
  intros Hm Hp Hq h Hn Hp'. destruct (Hm h Hn (Hp h Hp')) as [Hf Hr].
  split; [exact Hf|]. destruct (fst (m h)); auto.
Qed.

(** A fact that holds of no store in particular can be taken out. *)
Lemma triple_pure {A} n0 (phi : Prop) (m : M A) (Q : A -> store -> Prop) :
  (phi -> triple n0 (fun _ => True) m Q) -> triple n0 (fun _ => phi) m Q.
Proof. intros H h Hn Hphi. now apply H. Qed.

Lemma triple_history n0 l :
  n0 <= l ->
  triple n0 (history_slot n0 l) (setdefault (RLoc l) "patchHistory" new_list)
         (fun r _ => fresh n0 r).
Proof.
  intros Hl. unfold setdefault, items.
  apply triple_bind
    with (Q := fun kv _ =>
                 forall v, aget "patchHistory" kv = Some v -> fresh n0 v).
  { apply triple_bind
      with (Q := fun c _ =>
                   forall kv, c = CDict kv ->
                   forall v, aget "patchHistory" kv = Some v -> fresh n0 v).
    - apply triple_load. intros h c (kv & E & Hkv) Ec kv' ->.
      rewrite E in Ec. now inversion Ec; subst.
    - intros [xs|kv]; [apply triple_raise|].
      apply triple_ret. intros h H. now apply H. }
  intros kv. apply triple_pure. intros Hkv.
  apply triple_bind with (Q := fun r _ => fresh n0 r).
  { unfold new_list. apply triple_alloc. intros h Hn _. exact Hn. }
  intros dflt. apply triple_pure. intros Hd.
  destruct (aget "patchHistory" kv) as [v|].
  - apply triple_ret. intros h _. now apply Hkv.
  - apply triple_bind with (Q := fun _ _ => True).
    + now apply triple_setitem.
    + intros _. now apply triple_ret.
Qed.

(** The statements of the validated branch from the assignment of the
    identifier on. *)
Lemma keeps_set_id_tail n0 patched v entry :
  fresh n0 patched ->
  triple n0 (fun _ => True) entry (fun _ _ => True) ->
  keeps n0 (setitem patched "id" v ;;;
            history <- setdefault patched "patchHistory" new_list ;;
            append_new history entry ;;;
            ret patched).
Proof.
  intros Hp He. destruct patched as [| | | | |l];
    try (apply triple_keeps with (Q := fun _ _ => True);
         apply triple_bind with (Q := fun _ _ => False);
         [apply triple_raise | intros u h Hn []]).
  simpl in Hp. apply triple_keeps with (Q := fun _ _ => True).
  eapply triple_bind; [now apply triple_set_id|]. intros u.
  eapply triple_bind; [now apply triple_history|]. intros history.
  cbv beta. apply (triple_pure n0 (fresh n0 history)). intros Hh.
  apply triple_bind with (Q := fun _ _ => True).
  - unfold append_new.
    apply triple_bind with (Q := fun _ _ => True);
      [apply triple_elements|]. intros _.
    apply triple_bind with (Q := fun _ _ => True); [exact He|]. intros e.
    now apply triple_append.
  - intros _. now apply triple_ret.
Qed.

Lemma mbind_assoc {A B C} (m : M A) (k : A -> M B) (k' : B -> M C) h :
  mbind (mbind m k) k' h = mbind m (fun a => mbind (k a) k') h.
Proof. unfold mbind. destruct (m h) as [[a|e] h1]; reflexivity. Qed.

Lemma keeps_assoc {A B C} n0 (m : M A) (k : A -> M B) (k' : B -> M C) :
  keeps n0 (mbind m (fun a => mbind (k a) k')) ->
  keeps n0 (mbind (mbind m k) k').
Proof. intros H h Hn Hc. rewrite mbind_assoc. now apply H. Qed.

(** *** The resolvers *)

#[local] Hint Extern 1 (Forall (fresh _) (_ ++ _)) =>
  apply Forall_app; split; assumption : safe_db.

Lemma enrich_style_try_safe clk response base_json target_style :
  forall n0,
    safe n0 (enrich_style_try clk response base_json target_style)
         (fresh n0).
Proof.
  intros n0. unfold enrich_style_try.
  destruct response as [response_text|e]; [|apply safe_raise].
  eapply safe_bind; [apply safe_parse_response|]. intros parsed Hp.
  destruct parsed as [parsed|]; [|safe_go].
  specialize (Hp parsed eq_refl). safe_go.
Qed.

Lemma enrich_style_safe clk response base_json target_style :
  forall n0,
    safe n0 (enrich_style clk response base_json target_style) (fresh n0).
Proof.
  intros n0. unfold enrich_style.
  apply safe_try; [apply enrich_style_try_safe | safe_go].
Qed.

Lemma apply_patch_try_keeps clk response base_json edit_text :
  forall n0, keeps n0 (apply_patch_try clk response base_json edit_text).
Proof.
  intros n0. unfold apply_patch_try.
  destruct response as [response_text|e];
    [|apply safe_keeps with (Q := fun _ => True); apply safe_raise].
  eapply keeps_bind; [apply safe_parse_response|]. intros parsed Hp.
  destruct parsed as [patched|];
    [|apply safe_keeps with (Q := fresh n0); safe_go].
  specialize (Hp patched eq_refl).
  apply keeps_bind with (P := fun _ => True); [safe_go|].
  intros [valid errors] _.
  destruct valid; [|apply safe_keeps with (Q := fresh n0); safe_go].
  apply keeps_bind with (P := fun _ => True); [safe_go|]. intros has_id _.
  destruct (negb has_id);
    [|apply safe_keeps with (Q := fresh n0); safe_go].
  apply keeps_assoc.
  apply keeps_bind with (P := fun _ => True); [safe_go|]. intros base_has _.
  destruct base_has;
    [|apply safe_keeps with (Q := fresh n0); safe_go].
  apply keeps_assoc.
  apply keeps_bind with (P := fun _ => True); [safe_go|]. intros id _.
  apply keeps_set_id_tail; [exact Hp|].
  unfold history_entry. apply triple_alloc. auto.
Qed.

Lemma apply_patch_keeps clk response base_json edit_text :
  forall n0, keeps n0 (apply_patch clk response base_json edit_text).
Proof.
  intros n0. unfold apply_patch. apply keeps_try.
  - apply apply_patch_try_keeps.
  - apply safe_preserves with (Q := fresh). intros n1. safe_go.
Qed.

(** *** What the caller reads *)

Lemma preserves_of_keeps {A} (m : M A) : (forall n0, keeps n0 m) -> preserves m.
Proof. intros H h. exact (H (length h) h (le_n _) (closed_empty_region h)). Qed.

(** A value read from the cells of [h] is read again from any store that
    keeps them. *)
Lemma read_frame fuel h h' :
  frame (length h) h h' ->
  forall r v, read fuel h r = Some v -> read fuel h' r = Some v.
Proof.
  intros [_ F]. induction fuel as [|fuel IH]; intros [| | | | |l] v;
    simpl; auto.
  destruct (nth_error h l) as [c|] eqn:E; [|discriminate].
  assert (Hl : l < length h) by (apply nth_error_Some; congruence).
  rewrite (F l Hl), E. destruct c as [xs|kv].
  - assert (H : forall vs,
               fold_right (fun x acc =>
                             match read fuel h x, acc with
                             | Some v, Some vs => Some (v :: vs)
                             | _, _ => None
                             end) (Some []) xs = Some vs ->
               fold_right (fun x acc =>
                             match read fuel h' x, acc with
                             | Some v, Some vs => Some (v :: vs)
                             | _, _ => None
                             end) (Some []) xs = Some vs).
    { clear E. induction xs as [|x xs IHxs]; simpl; [auto|]. intros vs.
      destruct (read fuel h x) as [w|] eqn:Ex; [|discriminate].
      rewrite (IH _ _ Ex).
      destruct (fold_right _ (Some []) xs) as [ws|]; [|discriminate].
      now rewrite (IHxs ws eq_refl). }
    destruct (fold_right _ (Some []) xs) as [vs|]; [|discriminate].
    now rewrite (H vs eq_refl).
  - assert (H : forall vs,
               fold_right (fun p acc =>
                             match read fuel h (snd p), acc with
                             | Some v, Some vs => Some ((fst p, v) :: vs)
                             | _, _ => None
                             end) (Some []) kv = Some vs ->
               fold_right (fun p acc =>
                             match read fuel h' (snd p), acc with
                             | Some v, Some vs => Some ((fst p, v) :: vs)
                             | _, _ => None
                             end) (Some []) kv = Some vs).
    { clear E. induction kv as [|p kv IHkv]; simpl; [auto|]. intros vs.
      destruct (read fuel h (snd p)) as [w|] eqn:Ex; [|discriminate].
      rewrite (IH _ _ Ex).
      destruct (fold_right _ (Some []) kv) as [ws|]; [|discriminate].
      now rewrite (IHkv ws eq_refl). }
    destruct (fold_right _ (Some []) kv) as [vs|]; [|discriminate].
    now rewrite (H vs eq_refl).
Qed.

(** Each of the five functions keeps every cell of the store it is
    called in, whether it returns or raises. *)
Lemma functions_preserve clk response d text style :
  preserves (safe_patch clk d text) /\
  preserves (apply_style d style) /\
  preserves (repair_dream clk d) /\
  preserves (apply_patch clk response d text) /\
  preserves (enrich_style clk response d style).
Proof.
  split; [|split; [|split; [|split]]].
  - exact (safe_preserves _ _ (safe_patch_safe clk d text)).
  - exact (safe_preserves _ _ (apply_style_safe d style)).
  - exact (safe_preserves _ _ (repair_dream_safe clk d)).
  - exact (preserves_of_keeps _ (apply_patch_keeps clk response d text)).
  - exact (safe_preserves _ _ (enrich_style_safe clk response d style)).
Qed.

End StoreFacts.

(** *** The caller's document *)

(** The two embeddings agree on the sample runs, on what is returned and
    on what is raised. *)
Example run_safe_patch :
  run (fun d => Store.safe_patch sample_clock d "Red and faster, add island")
      caller_scene
  = expected (safe_patch sample_clock caller_scene "Red and faster, add island")
             caller_scene.
Proof. vm_compute. reflexivity. Qed.

Example run_apply_style :
  run (fun d => Store.apply_style d "fantasy") caller_scene
  = expected (apply_style caller_scene "fantasy") caller_scene.
Proof. vm_compute. reflexivity. Qed.

Example run_repair_dream :
  run (Store.repair_dream sample_clock) caller_scene
  = expected (repair_dream sample_clock caller_scene) caller_scene.
Proof. vm_compute. reflexivity. Qed.

Example run_apply_patch_prose :
  run (fun d => Store.apply_patch sample_clock (Ok prose) d "make it blue")
      caller_scene
  = expected (apply_patch sample_clock (Ok prose) caller_scene "make it blue")
             caller_scene.
Proof. vm_compute. reflexivity. Qed.

Example run_apply_patch_document :
  run (fun d => Store.apply_patch sample_clock (Ok backend_document) d "blue")
      caller_scene
  = expected (apply_patch sample_clock (Ok backend_document) caller_scene
                          "blue")
             caller_scene.
Proof. vm_compute. reflexivity. Qed.

Example run_enrich_style_document :
  run (fun d => Store.enrich_style sample_clock (Ok backend_document) d
                                   "surreal")
      caller_scene
  = expected (enrich_style sample_clock (Ok backend_document) caller_scene
                           "surreal")
             caller_scene.
Proof. vm_compute. reflexivity. Qed.

Example run_enrich_style_raise :
  run (fun d => Store.enrich_style sample_clock (Raise TypeError) d "surreal")
      caller_scene
  = expected (enrich_style sample_clock (Raise TypeError) caller_scene
                           "surreal")
             caller_scene.
Proof. vm_compute. reflexivity. Qed.

Example run_apply_patch_null_assumptions :
  run (fun d => Store.apply_patch sample_clock (Ok prose) d "blue")
      null_assumptions
  = expected (apply_patch sample_clock (Ok prose) null_assumptions "blue")
             null_assumptions.
Proof. vm_compute. reflexivity. Qed.

(** C9. For every document [d] the caller holds in the store, with value
    [v], each of [safe_patch], [apply_style], [repair_dream], [apply_patch]
    and [enrich_style] leaves [d] unchanged: read again in the store the
    call ends in, [d] has the value [v], whether the call returned or
    raised, whatever the edit text, the style name, the clock and the
    outcome of the backend call.  Each function writes only to the objects
    it made itself: the deep copy, the parsed answer of the backend, and
    the literals. *)
Theorem caller_document_unchanged
        (clk : clock) (response : res value) (h : Store.store)
        (d : Store.ref) (v : value) (fuel : nat) (text style : string) :
  Store.read fuel h d = Some v ->
  Store.read fuel (snd (Store.safe_patch clk d text h)) d = Some v /\
  Store.read fuel (snd (Store.apply_style d style h)) d = Some v /\
  Store.read fuel (snd (Store.repair_dream clk d h)) d = Some v /\
  Store.read fuel (snd (Store.apply_patch clk response d text h)) d = Some v /\
  Store.read fuel (snd (Store.enrich_style clk response d style h)) d = Some v.
Proof.
  intros Hv.
  destruct (StoreFacts.functions_preserve clk response d text style)
    as (H1 & H2 & H3 & H4 & H5).
  repeat split; eapply StoreFacts.read_frame; eauto.
Qed.

Lemma caller_document_unchanged_witness :
  Store.read 4 caller_store caller_ref = Some caller_scene /\
  (Store.read 4 (snd (Store.safe_patch sample_clock caller_ref "red and faster"
                                 caller_store)) caller_ref
   = Some caller_scene /\
   Store.read 4 (snd (Store.apply_style caller_ref "fantasy" caller_store))
        caller_ref
   = Some caller_scene /\
   Store.read 4 (snd (Store.repair_dream sample_clock caller_ref caller_store))
        caller_ref
   = Some caller_scene /\
   Store.read 4 (snd (Store.apply_patch sample_clock (Ok prose) caller_ref
                                  "red and faster" caller_store)) caller_ref
   = Some caller_scene /\
   Store.read 4 (snd (Store.enrich_style sample_clock (Ok prose) caller_ref
                                   "fantasy" caller_store)) caller_ref
   = Some caller_scene).
Proof.
  split; [vm_compute; reflexivity|].
  apply (caller_document_unchanged sample_clock (Ok prose) caller_store
           caller_ref caller_scene 4 "red and faster" "fantasy").
  vm_compute. reflexivity.
Defined.

(* ================================================================== *)
(** * Further properties of the code

    The theorems of this part are read off the source: the error and edge
    behaviour of the functions, the entries they leave alone, and how they
    compose. *)

(** ** The validator *)

Lemma validate_dream_inv d :
  validate_dream (VDict d) = (true, []) ->
  dhas "id" d = true /\ dhas "title" d = true /\
  (exists s, dget "style" d = Some (VStr s) /\ In s STYLE_NAMES) /\
  (dget "cinematography" d = None \/
   exists c shot shots,
     dget "cinematography" d = Some (VDict c) /\
     dhas "durationSec" c = true /\
     dget "shots" c = Some (VList (shot :: shots))).
Proof.
  unfold validate_dream, REQUIRED_FIELDS. simpl flat_map. intros H.
  destruct (dhas "id" d); [|discriminate].
  destruct (dhas "title" d); [|discriminate].
  destruct (dhas "style" d) eqn:Hst; [|discriminate].
  simpl in H.
  destruct (dget "style" d) as [s|] eqn:Hs;
    [|unfold dhas, ahas in Hst; fold dget in Hst;
      rewrite Hs in Hst; discriminate].
  destruct (in_style_enum s) eqn:He; [|discriminate].
  apply in_style_enum_spec in He. destruct He as (s0 & -> & Hin).
  repeat split; [eauto|].
  destruct (dget "cinematography" d) as [c|]; [|now left].
  right. destruct c as [| | | | | |c]; try discriminate.
  destruct (dhas "durationSec" c) eqn:Hd; [|discriminate].
  destruct (dhas "shots" c); [|discriminate]. simpl in H.
  destruct (dget "shots" c) as [[| | | | |[|sh shs]|]|] eqn:Hsh;
    try discriminate.
  exists c, sh, shs. auto.
Qed.

Lemma validate_dream_intro d :
  dhas "id" d = true /\ dhas "title" d = true /\
  (exists s, dget "style" d = Some (VStr s) /\ In s STYLE_NAMES) /\
  (dget "cinematography" d = None \/
   exists c shot shots,
     dget "cinematography" d = Some (VDict c) /\
     dhas "durationSec" c = true /\
     dget "shots" c = Some (VList (shot :: shots))) ->
  validate_dream (VDict d) = (true, []).
Proof.
  intros (Hid & Ht & Hs & [Hc|Hc]).
  - destruct Hs as (s & Hs & Hin).
    unfold validate_dream, REQUIRED_FIELDS. simpl flat_map.
    assert (Hst : dhas "style" d = true) by (apply dhas_dget; eauto).
    assert (He : in_style_enum (VStr s) = true)
      by (apply in_style_enum_spec; eauto).
    now rewrite Hid, Ht, Hst, Hs, He, Hc.
  - apply validate_dream_ok. exists d. auto.
Qed.

Lemma validate_dream_flag v :
  fst (validate_dream v) = true -> validate_dream v = (true, []).
Proof.
  destruct v; try discriminate.
  unfold validate_dream. cbv zeta. cbn [fst].
  destruct (_ ++ _) as [|e es]; simpl; [reflexivity | discriminate].
Qed.

(** X1.  [validate_dream] accepts exactly the mappings that carry [id] and
    [title], a [style] among the five names, and either no
    [cinematography] or one that is a mapping with [durationSec] and a
    non-empty list of [shots]; the flag it returns says that the error
    list is empty. *)
Theorem validate_dream_criterion :
  forall v : value,
    (fst (validate_dream v) = true <-> snd (validate_dream v) = []) /\
    (validate_dream v = (true, []) <->
     exists d,
       v = VDict d /\
       dhas "id" d = true /\ dhas "title" d = true /\
       (exists s, dget "style" d = Some (VStr s) /\ In s STYLE_NAMES) /\
       (dget "cinematography" d = None \/
        exists c shot shots,
          dget "cinematography" d = Some (VDict c) /\
          dhas "durationSec" c = true /\
          dget "shots" c = Some (VList (shot :: shots)))).
Proof.
  intros v. split.
  - destruct v; try (simpl; split; discriminate).
    unfold validate_dream. cbv zeta. simpl fst. simpl snd.
    destruct (_ ++ _) as [|e es]; simpl; split; auto; discriminate.
  - split.
    + destruct v as [| | | | | |d]; try discriminate.
      intros H. exists d. split; [reflexivity|]. now apply validate_dream_inv.
    + intros (d & -> & H). now apply validate_dream_intro.
Qed.

(** X2.  [validate_dream] looks at [id], [title], [style] and
    [cinematography] only: setting any other entry of a document, to any
    value, changes neither the flag nor the errors (so a document whose
    [entities] is a number still validates). *)
Theorem validate_dream_ignores :
  forall (d : dict) (k : string) (v : value),
    k <> "id" -> k <> "title" -> k <> "style" -> k <> "cinematography" ->
    validate_dream (VDict (dset k v d)) = validate_dream (VDict d).
Proof.
  intros d k v H1 H2 H3 H4. unfold validate_dream, REQUIRED_FIELDS.
  simpl flat_map.
  rewrite !dhas_dset_other, !dget_dset_other by congruence. reflexivity.
Qed.

Lemma validate_dream_ignores_witness :
  validate_dream
    (VDict (dset "entities" (VInt 5)
                 [("id", VStr "d1"); ("title", VStr "t");
                  ("style", VStr "surreal")]))
  = validate_dream
      (VDict [("id", VStr "d1"); ("title", VStr "t");
              ("style", VStr "surreal")]).
Proof.
  apply (validate_dream_ignores
           [("id", VStr "d1"); ("title", VStr "t"); ("style", VStr "surreal")]
           "entities" (VInt 5)); discriminate.
Defined.

(** ** The repairer *)

Lemma coerce_list_same k d :
  dget k (coerce_list k d)
  = Some (if is_list (dget_or k (VList []) d) then dget_or k (VList []) d
          else VList []).
Proof. unfold coerce_list. now dsimp. Qed.

Lemma coerce_list_other k k' d :
  k <> k' -> dget k (coerce_list k' d) = dget k d.
Proof. intros H. unfold coerce_list. now rewrite dget_dset_other. Qed.

Lemma coerce_list_noop k d xs :
  dget k d = Some (VList xs) -> coerce_list k d = d.
Proof.
  intros H. unfold coerce_list. rewrite (dget_or_some _ _ _ _ H). simpl.
  now apply dset_noop.
Qed.

(** What [repair_dream] leaves in each entry of the document. *)
Lemma repair_dream_fields clk d r :
  repair_dream clk (VDict d) = Ok r ->
  exists rd,
    r = VDict rd /\
    dget "id" rd
    = Some (dget_or "id" (VStr ("repaired_" ++ str_of_Z (now clk))) d) /\
    dget "title" rd = Some (dget_or "title" (VStr "Repaired Dream") d) /\
    dget "style" rd
    = Some (if in_style_enum (dget_or "style" VNone d)
            then dget_or "style" VNone d else VStr "ethereal") /\
    dget "structures" rd
    = Some (if is_list (dget_or "structures" (VList []) d)
            then dget_or "structures" (VList []) d else VList []) /\
    dget "entities" rd
    = Some (if is_list (dget_or "entities" (VList []) d)
            then dget_or "entities" (VList []) d else VList []) /\
    (exists xs,
        dget_or "assumptions" (VList []) d = VList xs /\
        dget "assumptions" rd
        = Some (VList (xs ++ [VStr "auto_repaired_missing_fields"]))) /\
    (forall k,
        k <> "id" -> k <> "title" -> k <> "style" -> k <> "structures" ->
        k <> "entities" -> k <> "cinematography" -> k <> "assumptions" ->
        dget k rd = dget k d).
Proof.
  unfold repair_dream. intros H. inv_bind H. inv_bind H.
  apply Ok_inj in H. subst r. exists x0. split; [reflexivity|].
  destruct (cinematography_defaults_spec _ _ E) as (_ & Hk).
  pose proof (fun k (H : k <> "assumptions") =>
                append_to_other k _ _ _ _ H E0) as Hap.
  assert (Hreq : forall k, k <> "structures" -> k <> "entities" ->
                           k <> "cinematography" -> k <> "assumptions" ->
                           dget k x0 = dget k (ensure_required_fields clk d)).
  { intros k H1 H2 H3 H4. rewrite Hap, Hk by assumption.
    unfold ensure_arrays. now rewrite !coerce_list_other by congruence. }
  assert (Hfields : forall k, dget k (ensure_required_fields clk d)
                    = if String.eqb k "id" then
                        Some (dget_or "id"
                                (VStr ("repaired_" ++ str_of_Z (now clk))) d)
                      else if String.eqb k "title" then
                        Some (dget_or "title" (VStr "Repaired Dream") d)
                      else if String.eqb k "style" then
                        Some (if in_style_enum (dget_or "style" VNone d)
                              then dget_or "style" VNone d
                              else VStr "ethereal")
                      else dget k d).
  { intros k. unfold ensure_required_fields.
    rewrite !dget_or_dset_other by discriminate.
    destruct (String.eqb_spec k "id") as [->|H1].
    { destruct (in_style_enum (dget_or "style" VNone d)); now dsimp. }
    destruct (String.eqb_spec k "title") as [->|H2].
    { destruct (in_style_enum (dget_or "style" VNone d)); now dsimp. }
    destruct (String.eqb_spec k "style") as [->|H3].
    { destruct (in_style_enum (dget_or "style" VNone d)) eqn:Es.
      - dsimp. unfold dget_or, aget_or in *. fold dget in *.
        destruct (dget "style" d); [reflexivity | discriminate].
      - now dsimp. }
    destruct (in_style_enum (dget_or "style" VNone d));
      now rewrite !dget_dset_other by assumption. }
  repeat split.
  - rewrite Hreq by discriminate. now rewrite Hfields.
  - rewrite Hreq by discriminate. now rewrite Hfields.
  - rewrite Hreq by discriminate. now rewrite Hfields.
  - rewrite Hap, Hk by discriminate. unfold ensure_arrays.
    rewrite coerce_list_other by discriminate. rewrite coerce_list_same.
    unfold dget_or, aget_or. fold dget. now rewrite Hfields.
  - rewrite Hap, Hk by discriminate. unfold ensure_arrays.
    rewrite coerce_list_same.
    unfold dget_or, aget_or. fold dget.
    rewrite coerce_list_other by discriminate. now rewrite Hfields.
  - destruct (append_to_same _ _ _ _ E0) as (xs & Hx & Hd). exists xs.
    split; [|exact Hx]. rewrite <- Hd.
    unfold dget_or, aget_or. fold dget. rewrite Hk by discriminate.
    unfold ensure_arrays. rewrite !coerce_list_other by discriminate.
    now rewrite Hfields.
  - intros k H1 H2 H3 H4 H5 H6 H7. rewrite Hreq by assumption.
    rewrite Hfields.
    destruct (String.eqb_spec k "id"); [contradiction|].
    destruct (String.eqb_spec k "title"); [contradiction|].
    destruct (String.eqb_spec k "style"); [contradiction|]. reflexivity.
Qed.

(** X3.  Whatever [repair_dream] returns keeps the document's own [id] and
    [title] when they are present (whatever their values) and its [style]
    when it is one of the five names; [structures] and [entities] are kept
    when they are lists and replaced by empty lists otherwise; one note is
    appended to [assumptions]; and every other entry besides
    [cinematography] is the document's, untouched. *)
Theorem repair_dream_keeps :
  forall clk d r,
    repair_dream clk (VDict d) = Ok r ->
    field "id" r
    = Some (dget_or "id" (VStr ("repaired_" ++ str_of_Z (now clk))) d) /\
    field "title" r = Some (dget_or "title" (VStr "Repaired Dream") d) /\
    field "style" r
    = Some (if in_style_enum (dget_or "style" VNone d)
            then dget_or "style" VNone d else VStr "ethereal") /\
    field "structures" r
    = Some (if is_list (dget_or "structures" (VList []) d)
            then dget_or "structures" (VList []) d else VList []) /\
    field "entities" r
    = Some (if is_list (dget_or "entities" (VList []) d)
            then dget_or "entities" (VList []) d else VList []) /\
    (exists xs,
        dget_or "assumptions" (VList []) d = VList xs /\
        field "assumptions" r
        = Some (VList (xs ++ [VStr "auto_repaired_missing_fields"]))) /\
    (forall k,
        k <> "id" -> k <> "title" -> k <> "style" -> k <> "structures" ->
        k <> "entities" -> k <> "cinematography" -> k <> "assumptions" ->
        field k r = dget k d).
Proof.
  intros clk d r H.
  destruct (repair_dream_fields clk d r H)
    as (rd & -> & H1 & H2 & H3 & H4 & H5 & H6 & H7).
  simpl. auto 10.
Qed.

Lemma repair_dream_keeps_witness :
  exists r,
    repair_dream sample_clock
      (VDict [("id", VInt 7); ("style", VStr "Fantasy");
              ("entities", VStr "none"); ("render", VDict [("fps", VInt 30)])])
    = Ok r /\
    field "id" r = Some (VInt 7) /\
    field "title" r = Some (VStr "Repaired Dream") /\
    field "style" r = Some (VStr "ethereal") /\
    field "entities" r = Some (VList []) /\
    field "render" r = Some (VDict [("fps", VInt 30)]).
Proof.
  eexists. split; [reflexivity|].
  destruct (repair_dream_keeps sample_clock
              [("id", VInt 7); ("style", VStr "Fantasy");
               ("entities", VStr "none");
               ("render", VDict [("fps", VInt 30)])]
              _ eq_refl)
    as (H1 & H2 & H3 & _ & H5 & _ & H7).
  refine (conj H1 (conj H2 (conj H3 (conj H5 (H7 "render" _ _ _ _ _ _ _)))));
    discriminate.
Defined.

(** A document that is already in the shape the repairer aims at comes
    back with the note appended and nothing else changed. *)
Lemma repair_dream_healthy_eq clk d ss es :
  validate_dream (VDict d) = (true, []) ->
  dhas "cinematography" d = true ->
  dget "structures" d = Some (VList ss) ->
  dget "entities" d = Some (VList es) ->
  repair_dream clk (VDict d)
  = (d' <- append_to "assumptions" (VStr "auto_repaired_missing_fields") d ;;
     Ok (VDict d')).
Proof.
  intros Hv Hc Hs He.
  destruct (validate_dream_inv d Hv) as (Hid & Ht & (s & Hst & Hin) & Hcin).
  apply dhas_dget in Hid. destruct Hid as (vid & Hid).
  apply dhas_dget in Ht. destruct Ht as (vt & Ht).
  destruct Hcin as [Hn|(c & sh & shs & Hcd & Hd & Hsh)].
  { apply dhas_dget in Hc. destruct Hc as (vc & Hc). congruence. }
  unfold repair_dream.
  assert (E1 : ensure_required_fields clk d = d).
  { unfold ensure_required_fields.
    rewrite (dget_or_some _ _ _ _ Hid), (dset_noop _ _ _ Hid).
    rewrite (dget_or_some _ _ _ _ Ht), (dset_noop _ _ _ Ht).
    rewrite (dget_or_some _ _ _ _ Hst).
    assert (Hen : in_style_enum (VStr s) = true)
      by (apply in_style_enum_spec; eauto).
    now rewrite Hen. }
  assert (E2 : ensure_arrays d = d).
  { unfold ensure_arrays.
    now rewrite (coerce_list_noop _ _ _ Hs), (coerce_list_noop _ _ _ He). }
  cbv zeta. rewrite E1, E2.
  assert (E3 : cinematography_defaults d = Ok d).
  { unfold cinematography_defaults. rewrite Hcd, Hd. simpl.
    rewrite Hsh. simpl. now rewrite (dset_noop _ _ _ Hcd). }
  rewrite E3. reflexivity.
Qed.

(** X4.  On a document that validates and has a [cinematography] and lists
    under [structures] and [entities], [repair_dream] does one thing: it
    appends ["auto_repaired_missing_fields"] to [assumptions] (and raises
    when [assumptions] is present and not a list). *)
Theorem repair_dream_healthy :
  forall clk d ss es,
    validate_dream (VDict d) = (true, []) ->
    dhas "cinematography" d = true ->
    dget "structures" d = Some (VList ss) ->
    dget "entities" d = Some (VList es) ->
    repair_dream clk (VDict d)
    = (d' <- append_to "assumptions"
                       (VStr "auto_repaired_missing_fields") d ;;
       Ok (VDict d')).
Proof. intros. eapply repair_dream_healthy_eq; eauto. Qed.

Lemma repair_dream_healthy_witness :
  repair_dream sample_clock (VDict healthy_scene)
  = (d' <- append_to "assumptions"
                     (VStr "auto_repaired_missing_fields") healthy_scene ;;
     Ok (VDict d')).
Proof.
  apply (repair_dream_healthy sample_clock healthy_scene
           [VDict [("id", VStr "s1")]] []); reflexivity.
Defined.

(** X5.  Repairing is idempotent up to its note: a second [repair_dream],
    at any later time, returns the repaired document with one more
    ["auto_repaired_missing_fields"] in [assumptions] and no other
    change. *)
Theorem repair_dream_twice :
  forall clk clk' d r,
    repair_dream clk (VDict d) = Ok r ->
    exists rd xs,
      r = VDict rd /\
      dget "assumptions" rd = Some (VList xs) /\
      repair_dream clk' r
      = Ok (VDict (dset "assumptions"
                        (VList (xs ++ [VStr "auto_repaired_missing_fields"]))
                        rd)).
Proof.
  intros clk clk' d r H.
  pose proof (repair_dream_post clk d r H) as Hok.
  destruct (repair_dream_fields clk d r H)
    as (rd & -> & _ & _ & _ & Hs & He & (xs & _ & Ha) & _).
  exists rd, (xs ++ [VStr "auto_repaired_missing_fields"]).
  split; [reflexivity|]. split; [exact Ha|].
  assert (Hss : exists ss, dget "structures" rd = Some (VList ss)).
  { rewrite Hs. destruct (dget_or "structures" (VList []) d); simpl; eauto. }
  assert (Hes : exists es, dget "entities" rd = Some (VList es)).
  { rewrite He. destruct (dget_or "entities" (VList []) d); simpl; eauto. }
  destruct Hss as (ss & Hss). destruct Hes as (es & Hes).
  assert (Hc : dhas "cinematography" rd = true).
  { destruct Hok as (d0 & E & _ & _ & _ & (c & sh & shs & Hc & _)).
    apply Ok_inj in E || inversion E; subst. apply dhas_dget. eauto. }
  rewrite (repair_dream_healthy_eq clk' rd ss es
             (validate_dream_ok _ Hok) Hc Hss Hes).
  unfold append_to. now rewrite Ha.
Qed.

Lemma repair_dream_twice_witness :
  exists rd xs,
    repair_dream sample_clock (VDict bare_document) = Ok (VDict rd) /\
    dget "assumptions" rd = Some (VList xs) /\
    repair_dream sample_clock (VDict rd)
    = Ok (VDict (dset "assumptions"
                      (VList (xs ++ [VStr "auto_repaired_missing_fields"]))
                      rd)).
Proof.
  destruct (repair_dream_twice sample_clock sample_clock bare_document _
                               eq_refl)
    as (rd & xs & E & Ha & H2).
  exists rd, xs. rewrite <- E. auto.
Defined.




(** ** The text-edit transform [safe_patch] *)





(** The validator's verdict depends on four entries only. *)
Lemma validate_dream_ext d d' :
  dget "id" d' = dget "id" d ->
  dget "title" d' = dget "title" d ->
  dget "style" d' = dget "style" d ->
  dget "cinematography" d' = dget "cinematography" d ->
  validate_dream (VDict d') = validate_dream (VDict d).
Proof.
  intros H1 H2 H3 H4. unfold validate_dream, REQUIRED_FIELDS. simpl flat_map.
  rewrite (dhas_eq_of_dget _ _ _ H1), (dhas_eq_of_dget _ _ _ H2),
    (dhas_eq_of_dget _ _ _ H3), H3, H4.
  reflexivity.
Qed.

(** X7.  Whatever the edit text, the document [safe_patch] returns differs
    from its input in [assumptions], [entities], [environment],
    [structures] and [patchHistory] at most; [patchHistory] is the input's
    (empty when absent) with one entry appended, which carries the text as
    given and the source ["safe_patch"]; and the validator says of the
    result what it says of the input. *)
Theorem safe_patch_frame :
  forall clk d e r,
    safe_patch clk (VDict d) e = Ok r ->
    (forall k, k <> "assumptions" -> k <> "entities" ->
               k <> "environment" -> k <> "structures" ->
               k <> "patchHistory" ->
               field k r = dget k d) /\
    (exists hs,
        dget_or "patchHistory" (VList []) d = VList hs /\
        field "patchHistory" r
        = Some (VList (hs ++ [VDict [("editText", VStr e);
                                     ("appliedAt", VStr (stamp clk));
                                     ("source", VStr "safe_patch")]]))) /\
    validate_dream r = validate_dream (VDict d).
Proof.
  intros clk d e r H.
  destruct (safe_patch_spec clk d e r H)
    as (rd & xs & -> & _ & _ & _ & _ & _ & _ & Hh & Hk).
  split; [exact Hk|]. split; [exact Hh|].
  apply validate_dream_ext; apply Hk; discriminate.
Qed.

Lemma safe_patch_frame_witness :
  exists r,
    safe_patch sample_clock (VDict healthy_scene) "red and faster" = Ok r /\
    field "cinematography" r = dget "cinematography" healthy_scene /\
    validate_dream r = (true, []).
Proof.
  eexists. split; [reflexivity|].
  destruct (safe_patch_frame sample_clock healthy_scene "red and faster" _
                             eq_refl) as (Hk & _ & Hv).
  split; [apply Hk; discriminate | exact Hv].
Defined.

(** *** Substrings *)

Lemma prefix_app_l a b s :
  String.prefix (a ++ b) s = true -> String.prefix a s = true.
Proof.
  revert s. induction a as [|c a IH]; intros s H; [now destruct s|].
  destruct s as [|c' s]; simpl in *; [discriminate|].
  destruct (Ascii.ascii_dec c c'); [now apply IH | discriminate].
Qed.

Lemma contains_prefix k s : String.prefix k s = true -> contains k s = true.
Proof. intros H. destruct s; cbn [contains]; now rewrite H. Qed.

Lemma contains_tail k c s : contains k s = true -> contains k (String c s) = true.
Proof. intros H. cbn [contains]. rewrite H. apply orb_true_r. Qed.

Lemma prefix_app_r a b s :
  String.prefix (a ++ b) s = true -> contains b s = true.
Proof.
  revert s. induction a as [|c a IH]; intros s H.
  - now apply contains_prefix.
  - destruct s as [|c' s]; simpl in H; [discriminate|].
    destruct (Ascii.ascii_dec c c'); [|discriminate].
    apply contains_tail. now apply IH.
Qed.

Lemma contains_app a b s :
  contains (a ++ b) s = true -> contains a s = true /\ contains b s = true.
Proof.
  induction s as [|c s IH]; cbn [contains]; rewrite orb_true_iff.
  - intros [H|H]; [|discriminate]. split.
    + apply (contains_prefix a ""). exact (prefix_app_l a b "" H).
    + exact (prefix_app_r a b "" H).
  - intros [H|H].
    + split.
      * apply (contains_prefix a (String c s)). exact (prefix_app_l a b _ H).
      * exact (prefix_app_r a b (String c s) H).
    + destruct (IH H) as [Ha Hb].
      split; apply orb_true_iff; right; assumption.
Qed.

Lemma wants_both what edit :
  wants what edit = contains "add" edit && contains what edit.
Proof.
  unfold wants.
  destruct (contains "add" edit && contains what edit) eqn:E;
    [apply orb_true_r|].
  rewrite orb_false_r.
  destruct (contains ("add " ++ what) edit) eqn:Ec; [|reflexivity].
  change ("add " ++ what)%string with ("add" ++ (" " ++ what))%string in Ec.
  apply contains_app in Ec. destruct Ec as [Ha Hb].
  apply contains_app in Hb. destruct Hb as [_ Hw].
  rewrite Ha, Hw in E. discriminate.
Qed.

(** X8.  The island rule of [safe_patch] fires exactly when the lower-cased
    text contains both "add" and "island", anywhere and in any order (the
    test for "add island" adds nothing); when it fires, one structure is
    appended to [structures] (which must be a list or absent), and
    otherwise [structures] is left as it was. *)
Theorem safe_patch_island :
  forall clk d e r,
    safe_patch clk (VDict d) e = Ok r ->
    if contains "add" (lower e) && contains "island" (lower e)
    then exists ss,
        dget_or "structures" (VList []) d = VList ss /\
        field "structures" r
        = Some (VList (ss ++ [VDict
                  [("id", VStr ("added_island_" ++ str_of_Z (now clk)));
                   ("template", VStr "floating_island");
                   ("pos", VList [VInt 0; VInt 15; VInt 0]);
                   ("scale", VFloat (4 # 5));
                   ("features", VList [])]]))
    else field "structures" r = dget "structures" d.
Proof.
  intros clk d e r H.
  destruct (safe_patch_spec clk d e r H)
    as (rd & xs & -> & _ & _ & _ & _ & _ & Hs & _).
  rewrite wants_both in Hs. exact Hs.
Qed.

Lemma safe_patch_island_witness :
  exists r,
    safe_patch sample_clock (VDict healthy_scene) "Madder islands" = Ok r /\
    field "structures" r
    = Some (VList [VDict [("id", VStr "s1")]; safe_island sample_clock]).
Proof.
  eexists. split; [reflexivity|].
  pose proof (safe_patch_island sample_clock healthy_scene "Madder islands" _
                                eq_refl) as H.
  cbv beta iota in H. destruct H as (ss & Hss & H).
  apply Ok_inj in Hss || inversion Hss. subst ss. exact H.
Defined.

(** ** Well-formed documents

    The transforms raise on documents of unexpected shape (claims C1 and
    C4).  On the documents described by [well_formed_scene] they return,
    and what they return is well-formed again. *)







Lemma slow_down_num v :
  is_num v = true -> exists w, slow_down v = Ok w /\ is_num w = true.
Proof.
  unfold is_num, slow_down, py_mul_float. destruct (num_of v) as [x|];
    [|discriminate].
  intros _. cbn [bind]. unfold py_max. cbn [num_of].
  match goal with |- context [Qltb ?a ?b] => destruct (Qltb a b) end;
    eexists; split; reflexivity.
Qed.















(** ** The style transform [apply_style] *)

Lemma lower_ascii_idem c : lower_ascii (lower_ascii c) = lower_ascii c.
Proof. destruct c as [[] [] [] [] [] [] [] []]; reflexivity. Qed.

Lemma lower_idem s : lower (lower s) = lower s.
Proof.
  induction s as [|c s IH]; simpl; [reflexivity|].
  now rewrite lower_ascii_idem, IH.
Qed.

Lemma get_style_config_lower s :
  get_style_config (lower s) = get_style_config s.
Proof. unfold get_style_config. now rewrite lower_idem. Qed.

Lemma dget_environment_of k preset fog sky ambient env :
  dget k (dict_update env (environment_of preset fog sky ambient))
  = if String.eqb k "preset" then Some (VStr preset)
    else if String.eqb k "fog" then Some (VFloat fog)
    else if String.eqb k "skyColor" then Some (VStr sky)
    else if String.eqb k "ambientLight" then Some (VFloat ambient)
    else dget k env.
Proof.
  unfold dict_update, environment_of. simpl.
  destruct (String.eqb_spec k "preset") as [->|H1]; [now dsimp|].
  destruct (String.eqb_spec k "fog") as [->|H2]; [now dsimp|].
  destruct (String.eqb_spec k "skyColor") as [->|H3]; [now dsimp|].
  destruct (String.eqb_spec k "ambientLight") as [->|H4]; [now dsimp|].
  now rewrite !dget_dset_other by assumption.
Qed.

(** The entries [apply_style] leaves alone. *)
Lemma apply_style_other d s r :
  apply_style (VDict d) s = Ok r ->
  forall k, k <> "environment" -> k <> "style" -> k <> "entities" ->
            k <> "assumptions" -> field k r = dget k d.
Proof.
  unfold apply_style. cbv zeta. intros H.
  inv_bind H. inv_bind H. inv_bind H. apply Ok_inj in H. subst r.
  rewrite dget_setdefault_same in E.
  destruct (dget_or "environment" (VDict []) d) as [| | | | | |env];
    try discriminate.
  apply Ok_inj in E. subst x.
  destruct (for_entities_spec _ _ _ E0) as (_ & Hk & _).
  intros k H1 H2 H3 H4. unfold field.
  rewrite (append_to_other k "assumptions" _ _ _ H4 E1).
  rewrite Hk by assumption.
  rewrite !dget_dset_other by assumption.
  now apply dget_setdefault_other.
Qed.

(** X11.  [apply_style] writes the four entries of the style's environment
    ([preset], [fog], [skyColor], [ambientLight]) over the document's
    [environment] and keeps every other entry of it; and it leaves every
    entry of the document other than [environment], [style], [entities]
    and [assumptions] untouched. *)
Theorem apply_style_frame :
  forall d s r,
    apply_style (VDict d) s = Ok r ->
    (exists env env',
        or_default (VDict []) (dget "environment" d) = VDict env /\
        field "environment" r = Some (VDict env') /\
        (forall k, In k ["preset"; "fog"; "skyColor"; "ambientLight"] ->
                   dget k env'
                   = dget k (cfg_environment (get_style_config s))) /\
        (forall k, ~ In k ["preset"; "fog"; "skyColor"; "ambientLight"] ->
                   dget k env' = dget k env)) /\
    (forall k, k <> "environment" -> k <> "style" -> k <> "entities" ->
               k <> "assumptions" -> field k r = dget k d).
Proof.
  intros d s r H. split; [|exact (apply_style_other d s r H)].
  destruct (apply_style_spec d s r H) as (env & _ & He & Hr & _).
  exists env, (dict_update env (cfg_environment (get_style_config s))).
  split; [exact He|]. split; [exact Hr|].
  destruct (cfg_environment_shape s) as (preset & fog & sky & amb & ->).
  split; intros k Hk; rewrite dget_environment_of.
  - simpl in Hk.
    destruct Hk as [<-|[<-|[<-|[<-|[]]]]]; reflexivity.
  - destruct (String.eqb_spec k "preset") as [->|_];
      [exfalso; apply Hk; simpl; auto|].
    destruct (String.eqb_spec k "fog") as [->|_];
      [exfalso; apply Hk; simpl; auto|].
    destruct (String.eqb_spec k "skyColor") as [->|_];
      [exfalso; apply Hk; simpl; auto|].
    destruct (String.eqb_spec k "ambientLight") as [->|_];
      [exfalso; apply Hk; simpl; auto|].
    reflexivity.
Qed.

Lemma apply_style_frame_witness :
  exists r env',
    apply_style
      (VDict [("environment", VDict [("gravity", VFloat (1 # 2));
                                     ("fog", VInt 9)]);
              ("render", VDict [("fps", VInt 30)])])
      "cyberpunk" = Ok r /\
    field "environment" r = Some (VDict env') /\
    dget "fog" env' = Some (VFloat (1 # 5)) /\
    dget "gravity" env' = Some (VFloat (1 # 2)) /\
    field "render" r = Some (VDict [("fps", VInt 30)]).
Proof.
  destruct (apply_style_frame
              [("environment", VDict [("gravity", VFloat (1 # 2));
                                      ("fog", VInt 9)]);
               ("render", VDict [("fps", VInt 30)])]
              "cyberpunk" _ eq_refl)
    as ((env & env' & He & Hr & Hin & Hout) & Hk).
  eexists. exists env'. split; [reflexivity|]. split; [exact Hr|].
  inversion He; subst env.
  split; [|split].
  - apply (Hin "fog"). simpl. auto.
  - apply (Hout "gravity"). simpl. intros [H|[H|[H|[H|[]]]]]; discriminate.
  - apply (Hk "render"); discriminate.
Defined.



Lemma Forall2_functional {A B} (f : A -> res B) l l1 l2 :
  Forall2 (fun x y => f x = Ok y) l l1 ->
  Forall2 (fun x y => f x = Ok y) l l2 -> l1 = l2.
Proof.
  intros H1 H2. apply Forall2_mapM_Ok in H1. apply Forall2_mapM_Ok in H2.
  congruence.
Qed.

Lemma invalid_style_reported d s :
  dget "style" d = Some (VStr s) ->
  (In (InvalidStyle (VStr s)) (snd (validate_dream (VDict d)))
   <-> ~ In s STYLE_NAMES).
Proof.
  intros Hs. unfold validate_dream, REQUIRED_FIELDS. simpl flat_map.
  rewrite Hs. cbn [snd].
  assert (Hm : forall k l, In (InvalidStyle (VStr s))
                              ((if dhas k d then [] else [MissingRequired k])
                               ++ l)
                           <-> In (InvalidStyle (VStr s)) l).
  { intros k l. destruct (dhas k d); simpl; [tauto|].
    split; [intros [H|H]; [discriminate | exact H] | auto]. }
  rewrite <- !app_assoc, !Hm.
  assert (Hc : forall l : list verror,
             (forall e, In e l -> e <> InvalidStyle (VStr s)) ->
             forall l0, In (InvalidStyle (VStr s)) (l0 ++ l)
                        <-> In (InvalidStyle (VStr s)) l0).
  { intros l Hl l0. rewrite in_app_iff. split; [|auto].
    intros [H|H]; [exact H | exfalso; exact (Hl _ H eq_refl)]. }
  rewrite app_nil_l.
  rewrite Hc.
  - destruct (in_style_enum (VStr s)) eqn:E.
    + apply in_style_enum_spec in E. destruct E as (s0 & E0 & Hin).
      inversion E0; subst s0. simpl. tauto.
    + split; [|simpl; auto]. intros _ Hin.
      assert (in_style_enum (VStr s) = true)
        by (apply in_style_enum_spec; eauto).
      congruence.
  - intros e He.
    destruct (dget "cinematography" d) as [[| | | | | |c]|]; simpl in He;
      try (destruct He as [<-|[]]; discriminate); try contradiction.
    destruct (negb (dhas "durationSec" c) || negb (dhas "shots" c));
      [destruct He as [<-|[]]; discriminate|].
    destruct (dget "shots" c) as [[| | | | |[|? ?]|]|]; simpl in He;
      try (destruct He as [<-|[]]; discriminate); contradiction.
Qed.

(** X13.  The style table is looked up by the lower-cased name, but the
    name is stored as given: [apply_style] with a name and with its
    lower-cased form return documents that differ in [style] and in the
    note appended to [assumptions] only, and the validator reports an
    invalid style on the result exactly when the name as given is not one
    of the five lower-case names. *)
Theorem apply_style_letter_case :
  forall d s r,
    apply_style (VDict d) s = Ok r ->
    (exists r',
        apply_style (VDict d) (lower s) = Ok r' /\
        field "style" r' = Some (VStr (lower s)) /\
        forall k, k <> "style" -> k <> "assumptions" ->
                  field k r' = field k r) /\
    field "style" r = Some (VStr s) /\
    (In (InvalidStyle (VStr s)) (snd (validate_dream r))
     <-> ~ In s STYLE_NAMES).
Proof.
  intros d s r H.
  pose proof (apply_style_spec d s r H)
    as (env & Hd & He & Hr & Hst & Hes & Hnl & Hl & _).
  destruct r as [| | | | | |rd]; try discriminate.
  split; [|split; [exact Hst | now apply invalid_style_reported]].
  assert (Hret : returns (apply_style (VDict d) (lower s)) = true).
  { rewrite apply_style_returns, get_style_config_lower.
    rewrite <- apply_style_returns. now rewrite H. }
  destruct (apply_style (VDict d) (lower s)) as [r'|] eqn:H'; [|discriminate].
  exists r'. split; [reflexivity|].
  pose proof (apply_style_spec d (lower s) r' H')
    as (env' & _ & He' & Hr' & Hst' & Hes' & Hnl' & Hl' & _).
  rewrite get_style_config_lower in *.
  split; [exact Hst'|]. intros k H1 H2.
  destruct (String.eqb_spec k "environment") as [->|N1].
  { rewrite Hr', Hr. rewrite He in He'. now inversion He'. }
  destruct (String.eqb_spec k "entities") as [->|N2].
  { destruct (is_list (or_default VNone (dget "entities" d))) eqn:El.
    - rewrite (Hl eq_refl), (Hl' eq_refl).
      now rewrite (Forall2_functional _ _ _ _ Hes Hes').
    - now rewrite (Hnl eq_refl), (Hnl' eq_refl). }
  rewrite (apply_style_other d s _ H k), (apply_style_other d _ _ H' k)
    by assumption.
  reflexivity.
Qed.

Lemma apply_style_letter_case_witness :
  exists r r',
    apply_style (VDict caller_scene_dict) "FANTASY" = Ok r /\
    apply_style (VDict caller_scene_dict) "fantasy" = Ok r' /\
    field "environment" r' = field "environment" r /\
    field "entities" r' = field "entities" r /\
    In (InvalidStyle (VStr "FANTASY")) (snd (validate_dream r)).
Proof.
  destruct (apply_style_letter_case caller_scene_dict "FANTASY" _ eq_refl)
    as ((r' & E & _ & Hk) & _ & Hv).
  eexists. exists r'. split; [reflexivity|]. split; [exact E|].
  split; [apply Hk; discriminate|]. split; [apply Hk; discriminate|].
  apply Hv. simpl. intros [H|[H|[H|[H|[H|[]]]]]]; discriminate.
Defined.

(** ** The JSON extraction *)

Lemma is_char_eq n c :
  (n < 256)%nat -> is_char n c = true -> c = ascii_of_nat n.
Proof.
  unfold is_char. intros Hn H. apply Nat.eqb_eq in H. subst n.
  symmetry. apply ascii_nat_embedding.
Qed.

Lemma is_open_eq c : is_open c = true -> c = "{"%char.
Proof. intros H. now apply (is_char_eq 123 c ltac:(lia)). Qed.

Lemma is_close_eq c : is_close c = true -> c = "}"%char.
Proof. intros H. now apply (is_char_eq 125 c ltac:(lia)). Qed.

Lemma string_app_assoc (a b c : string) :
  ((a ++ b) ++ c = a ++ (b ++ c))%string.
Proof. induction a as [|x a IH]; simpl; [reflexivity | now rewrite IH]. Qed.

Lemma string_app_length (a b : string) :
  String.length (a ++ b) = (String.length a + String.length b)%nat.
Proof. induction a as [|x a IH]; simpl; [reflexivity | now rewrite IH]. Qed.

Lemma find_first_none_shift p s :
  forall i j, find_first p s i = None -> find_first p s j = None.
Proof.
  induction s as [|x s IH]; intros i j; simpl; [reflexivity|].
  destruct (p x); [discriminate | apply IH].
Qed.

(** The first character of a class splits the text. *)
Lemma find_first_split p s :
  forall i a,
    find_first p s i = Some a ->
    exists pre c post,
      s = (pre ++ String c post)%string /\ p c = true /\
      find_first p pre 0 = None /\ a = (i + String.length pre)%nat.
Proof.
  induction s as [|c s IH]; intros i a; simpl; [discriminate|].
  destruct (p c) eqn:Ec.
  - intros H. inversion H; subst.
    exists ""%string, c, s. repeat split; [assumption | simpl; lia].
  - intros H. destruct (IH _ _ H) as (pre & c' & post & -> & Hc & Hn & ->).
    exists (String c pre), c', post. repeat split; try assumption.
    + simpl. rewrite Ec. exact (find_first_none_shift _ _ _ _ Hn).
    + simpl. lia.
Qed.

Lemma find_first_le p pre c post :
  p c = true ->
  forall i, exists a,
      find_first p (pre ++ String c post) i = Some a /\
      (a <= i + String.length pre)%nat.
Proof.
  intros Hc. induction pre as [|x pre IH]; intros i; simpl.
  - rewrite Hc. exists i. split; [reflexivity | lia].
  - destruct (p x); [exists i; split; [reflexivity | lia]|].
    destruct (IH (S i)) as (a & -> & Ha). exists a. split; [reflexivity | lia].
Qed.

(** The last character of a class splits the text. *)
Lemma find_last_split p s :
  forall i b,
    find_last p s i = Some b ->
    exists u c v,
      s = (u ++ String c v)%string /\ p c = true /\
      b = (i + String.length u)%nat.
Proof.
  induction s as [|c s IH]; intros i b; simpl; [discriminate|].
  destruct (find_last p s (S i)) as [j|] eqn:E.
  - intros H. inversion H; subst j.
    destruct (IH _ _ E) as (u & c' & v & -> & Hc & ->).
    exists (String c u), c', v. repeat split; [assumption | simpl; lia].
  - destruct (p c) eqn:Ec; [|discriminate].
    intros H. inversion H; subst.
    exists ""%string, c, s. repeat split; [assumption | simpl; lia].
Qed.

Lemma find_last_ge p u c v :
  p c = true ->
  forall i, exists b,
      find_last p (u ++ String c v) i = Some b /\
      (i + String.length u <= b)%nat.
Proof.
  intros Hc. induction u as [|x u IH]; intros i; simpl.
  - destruct (find_last p v (S i)) as [j|] eqn:E.
    + exists j. split; [reflexivity|].
      destruct (find_last_split _ _ _ _ E) as (u0 & c0 & v0 & _ & _ & ->).
      lia.
    + rewrite Hc. exists i. split; [reflexivity | lia].
  - destruct (IH (S i)) as (b & -> & Hb). exists b. split; [reflexivity | lia].
Qed.

(** Two ways of cutting one text. *)
Lemma string_split_order (a b u v : string) c c' :
  (a ++ String c b = u ++ String c' v)%string ->
  (String.length a < String.length u)%nat ->
  exists m, u = (a ++ String c m)%string /\ b = (m ++ String c' v)%string.
Proof.
  revert u. induction a as [|x a IH]; intros u H Hl.
  - destruct u as [|y u]; simpl in *; [lia|].
    inversion H; subst. exists u. auto.
  - destruct u as [|y u]; simpl in *; [lia|].
    inversion H; subst.
    destruct (IH u H2 ltac:(lia)) as (m & -> & ->). exists m. auto.
Qed.

(** What the depth-counting loop returns, read on the text. *)
Lemma scan_block_shape cs :
  forall i depth start st j,
    scan_block cs i depth start = Some (st, j) ->
    match start with
    | Some s0 =>
        st = s0 /\
        exists u v, cs = (u ++ String "}" v)%string /\
                    j = (i + String.length u)%nat
    | None =>
        exists pre u v,
          cs = (pre ++ String "{" (u ++ String "}" v))%string /\
          find_first is_open pre 0 = None /\
          st = (i + String.length pre)%nat /\
          j = (st + 1 + String.length u)%nat
    end.
Proof.
  induction cs as [|c cs IH]; intros i depth start st j; simpl;
    [discriminate|].
  destruct (is_open c) eqn:Eo.
  - apply is_open_eq in Eo. subst c. intros H. apply IH in H.
    destruct start as [s0|].
    + destruct H as (-> & u & v & -> & ->).
      split; [reflexivity|]. exists (String "{" u), v. simpl. split; [auto | lia].
    + destruct H as (-> & u & v & -> & ->).
      exists ""%string, u, v. simpl. repeat split; lia.
  - destruct (is_close c) eqn:Ec.
    + apply is_close_eq in Ec. subst c. destruct start as [s0|].
      * destruct (depth - 1 =? 0)%Z.
        -- intros H. inversion H; subst. split; [reflexivity|].
           exists ""%string, cs. simpl. split; [reflexivity | lia].
        -- intros H. apply IH in H. destruct H as (-> & u & v & -> & ->).
           split; [reflexivity|]. exists (String "}" u), v. simpl.
           split; [reflexivity | lia].
      * intros H. apply IH in H.
        destruct H as (pre & u & v & -> & Hn & -> & ->).
        exists (String "}" pre), u, v. simpl. repeat split; try lia.
        exact (find_first_none_shift _ _ _ _ Hn).
    + intros H. apply IH in H. destruct start as [s0|].
      * destruct H as (-> & u & v & -> & ->).
        split; [reflexivity|]. exists (String c u), v. simpl.
        split; [reflexivity | lia].
      * destruct H as (pre & u & v & -> & Hn & -> & ->).
        exists (String c pre), u, v. simpl. rewrite Eo.
        repeat split; try lia.
        exact (find_first_none_shift _ _ _ _ Hn).
Qed.

Lemma slice_block pre u v :
  slice (pre ++ String "{" (u ++ String "}" v)) (String.length pre)
        (String.length pre + 1 + String.length u)
  = String "{" (u ++ String "}" "").
Proof.
  pose proof (slice_append pre (String "{" (u ++ String "}" "")) v
                           ltac:(discriminate)) as H.
  simpl in H. rewrite string_app_assoc in H. simpl in H.
  rewrite string_app_length in H. simpl in H.
  replace (String.length pre + S (String.length u + 1) - 1)%nat
    with (String.length pre + 1 + String.length u)%nat in H by lia.
  exact H.
Qed.

Lemma block_found_shape t b :
  _extract_first_json_block (VStr t) = Some b ->
  exists pre inner post,
    t = (pre ++ b ++ post)%string /\
    b = String "{" (inner ++ String "}" "") /\
    find_first is_open pre 0 = None.
Proof.
  unfold _extract_first_json_block.
  destruct (String.eqb t ""); [discriminate|].
  destruct (find_first is_open t 0) as [a|] eqn:Ea; [|discriminate].
  destruct (scan_block t 0 0 None) as [[st j]|] eqn:Es.
  - intros H. inversion H; subst b; clear H.
    destruct (scan_block_shape _ _ _ _ _ _ Es)
      as (pre & u & v & -> & Hn & -> & ->).
    exists pre, u, v. simpl Nat.add. rewrite slice_block.
    simpl. rewrite string_app_assoc. simpl. auto.
  - unfold regex_block. rewrite Ea.
    destruct (find_last is_close t 0) as [b0|] eqn:Eb; [|discriminate].
    destruct (a <? b0)%nat eqn:Elt; [|discriminate].
    apply Nat.ltb_lt in Elt.
    intros H. inversion H; subst b; clear H.
    destruct (find_first_split _ _ _ _ Ea) as (pre & c & post & Et & Hc & Hn & ->).
    destruct (find_last_split _ _ _ _ Eb) as (u & c' & v & Et' & Hc' & ->).
    apply is_open_eq in Hc. apply is_close_eq in Hc'. subst c c'.
    simpl Nat.add in *. rewrite Et' in Et. symmetry in Et.
    destruct (string_split_order _ _ _ _ _ _ Et Elt) as (m & -> & ->).
    exists pre, m, v. rewrite Et'.
    rewrite string_app_assoc. simpl.
    rewrite string_app_length. simpl.
    replace (String.length pre + S (String.length m))%nat
      with (String.length pre + 1 + String.length m)%nat by lia.
    rewrite slice_block. simpl. rewrite string_app_assoc. simpl. auto.
Qed.

Lemma block_missing_shape t :
  _extract_first_json_block (VStr t) = None ->
  forall pre mid post,
    t <> (pre ++ String "{" (mid ++ String "}" post))%string.
Proof.
  unfold _extract_first_json_block. intros H pre mid post ->.
  destruct (String.eqb_spec (pre ++ String "{" (mid ++ String "}" post)) "")
    as [E|_]; [destruct pre; discriminate|].
  destruct (find_first_le is_open pre "{" (mid ++ String "}" post) eq_refl 0)
    as (a & Ea & Hle).
  rewrite Ea in H.
  destruct (scan_block _ 0 0 None) as [[st j]|]; [discriminate|].
  unfold regex_block in H. rewrite Ea in H.
  destruct (find_last_ge is_close (pre ++ String "{" mid) "}" post eq_refl 0)
    as (b & Eb & Hge).
  rewrite string_app_assoc in Eb. simpl in Eb. rewrite Eb in H.
  rewrite string_app_length in Hge. simpl in Hge.
  assert (Hlt : (a <? b)%nat = true) by (apply Nat.ltb_lt; lia).
  rewrite Hlt in H. discriminate.
Qed.

(** X14.  What [_extract_first_json_block] returns of a text is a piece of
    the text that begins at its first opening brace and ends with a
    closing brace; and it returns nothing exactly when no closing brace
    follows an opening brace anywhere in the text. *)
Theorem json_block_shape :
  forall t : string,
    match _extract_first_json_block (VStr t) with
    | Some b =>
        exists pre inner post,
          t = (pre ++ b ++ post)%string /\
          b = String "{" (inner ++ String "}" "") /\
          find_first is_open pre 0 = None
    | None =>
        forall pre mid post,
          t <> (pre ++ String "{" (mid ++ String "}" post))%string
    end.
Proof.
  intros t. destruct (_extract_first_json_block (VStr t)) as [b|] eqn:E.
  - now apply block_found_shape.
  - now apply block_missing_shape.
Qed.








Lemma scan_members_dict fuel :
  forall s acc v r,
    scan_members fuel s acc = Some (v, r) -> exists d, v = VDict d.
Proof.
  induction fuel as [|fuel IH]; intros s acc v r; [discriminate|].
  cbn [scan_members].
  destruct s as [|c rest]; [discriminate|].
  destruct (is_quote c); [|discriminate].
  destruct (scan_string rest []) as [[key r0]|]; [|discriminate].
  destruct (skip_ws r0) as [|colon r1]; [discriminate|].
  destruct (is_char 58 colon); [|discriminate].
  destruct (scan_value fuel (skip_ws r1)) as [[v0 r2]|]; [|discriminate].
  destruct (skip_ws r2) as [|d0 r3]; [discriminate|].
  destruct (is_char 44 d0); [apply IH|].
  destruct (is_char 125 d0); [|discriminate].
  intros H. inversion H; subst. eauto.
Qed.

Lemma json_loads_object s v :
  json_loads (String "{" s) = Some v -> exists d, v = VDict d.
Proof.
  unfold json_loads. cbn [skip_ws]. change (is_json_ws "{") with false.
  cbv iota. cbn [scan_value]. change (is_quote "{") with false.
  change (is_char 123 "{") with true. cbv iota.
  destruct (skip_ws s) as [|c' r]; [discriminate|].
  destruct (is_char 125 c').
  - destruct (skip_ws r); [|discriminate]. intros H. inversion H. eauto.
  - destruct (scan_members _ _ _) as [[v0 r0]|] eqn:E; [|discriminate].
    destruct (skip_ws r0); [|discriminate].
    intros H. inversion H; subst. exact (scan_members_dict _ _ _ _ _ E).
Qed.

(** X24.  Whatever [extract_json_from_text] returns is a mapping, never a
    list, a string or a number: the block it parses starts with an
    opening brace, before and after the tidying step. *)
Theorem extract_json_is_object :
  forall (text v : value),
    extract_json_from_text text = Some v -> exists d, v = VDict d.
Proof.
  intros text v. unfold extract_json_from_text.
  destruct (_extract_first_json_block text) as [b|] eqn:Eb; [|discriminate].
  destruct text as [| | | |t| |]; try discriminate.
  destruct (block_found_shape t b Eb) as (pre & inner & post & _ & -> & _).
  cbn [String.eqb]. change (Ascii.eqb "{" "{") with true. cbv iota.
  destruct (json_loads (String "{" (inner ++ String "}" ""))) as [v0|] eqn:E.
  - intros H. inversion H; subst. exact (json_loads_object _ _ E).
  - unfold tidy_trailing_commas. cbn [tidy_from].
    change (is_char 44 "{") with false. cbv iota.
    apply json_loads_object.
Qed.

Lemma extract_json_is_object_witness :
  exists d,
    extract_json_from_text (VStr comma_response) = Some (VDict d).
Proof.
  destruct (extract_json_is_object (VStr comma_response) _ eq_refl)
    as (d & H).
  exists d. now rewrite <- H.
Defined.

(** ** The resolvers *)

(** The [try] block of [apply_patch] on a backend document that
    validates: the statement that would copy the input's [id] never runs,
    since a document without [id] does not validate. *)
Lemma apply_patch_try_valid clk response base e p :
  parsed_document response = Some p ->
  validate_dream (VDict p) = (true, []) ->
  apply_patch_try clk response base e
  = (p' <- append_to "patchHistory"
                     (history_entry e (stamp clk) "llama-stylist") p ;;
     Ok (VDict p')).
Proof.
  intros Hdoc Hvalid.
  destruct (parsed_document_Some _ _ Hdoc) as (text & b & p' & -> & -> & Ho).
  unfold apply_patch_try. cbn [bind]. rewrite Ho. cbv zeta. rewrite Hvalid.
  destruct (validate_dream_inv _ Hvalid) as (Hid & _).
  rewrite Hid. reflexivity.
Qed.

(** The [try] block of either resolver on a backend document that does
    not validate: the repaired document validates, so the branch for a
    failed repair is never taken. *)
Lemma repaired_branch clk p (tag tag' : string) (fallback : res value) :
  (repaired <- repair_dream clk (VDict p) ;;
   let '(v2, errs2) := validate_dream repaired in
   if v2 then tagged tag (Ok repaired) else tagged tag' fallback)
  = tagged tag (repair_dream clk (VDict p)).
Proof.
  destruct (repair_dream clk (VDict p)) as [r|ex] eqn:E; [|reflexivity].
  cbn [bind].
  rewrite (validate_dream_ok _ (repair_dream_post _ _ _ E)).
  unfold tagged. reflexivity.
Qed.

Lemma apply_patch_try_invalid clk response base e p :
  parsed_document response = Some p ->
  fst (validate_dream (VDict p)) = false ->
  apply_patch_try clk response base e
  = tagged "auto-repaired after validation errors"
           (repair_dream clk (VDict p)).
Proof.
  intros Hdoc Hinv.
  destruct (parsed_document_Some _ _ Hdoc) as (text & b & p' & -> & -> & Ho).
  unfold apply_patch_try. cbn [bind]. rewrite Ho. cbv zeta.
  destruct (validate_dream (VDict (b :: p'))) as [valid errors].
  simpl in Hinv. subst valid. apply repaired_branch.
Qed.

Lemma enrich_style_try_invalid clk response base s p :
  parsed_document response = Some p ->
  fst (validate_dream (VDict p)) = false ->
  enrich_style_try clk response base s
  = tagged "repaired_enriched_result" (repair_dream clk (VDict p)).
Proof.
  intros Hdoc Hinv.
  destruct (parsed_document_Some _ _ Hdoc) as (text & b & p' & -> & -> & Ho).
  unfold enrich_style_try. cbn [bind]. rewrite Ho. cbv zeta.
  destruct (validate_dream (VDict (b :: p'))) as [valid errors].
  simpl in Hinv. subst valid. apply repaired_branch.
Qed.

Lemma enrich_style_try_valid clk response base s p :
  parsed_document response = Some p ->
  validate_dream (VDict p) = (true, []) ->
  enrich_style_try clk response base s = (p' <- merge_metadata s p ;; Ok (VDict p')).
Proof.
  intros Hdoc Hvalid.
  destruct (parsed_document_Some _ _ Hdoc) as (text & b & p' & -> & -> & Ho).
  unfold enrich_style_try. cbn [bind]. rewrite Ho. cbv zeta. rewrite Hvalid.
  destruct (validate_dream_inv _ Hvalid) as (_ & _ & (s0 & Hs & _) & _).
  unfold setdefault.
  assert (Hst : dhas "style" (b :: p') = true) by (apply dhas_dget; eauto).
  now rewrite Hst.
Qed.

(** X16.  When the backend's document does not validate, each resolver
    returns the repaired document with its tag appended, or, when the
    repair raises, the fallback of the exception handler: the branch
    tagged ["fallback_after_failed_repair"] is never taken, because what
    [repair_dream] returns always validates. *)
Theorem failed_repair_never :
  forall clk response base e s p,
    parsed_document response = Some p ->
    fst (validate_dream (VDict p)) = false ->
    apply_patch clk response base e
    = try_except
        (tagged "auto-repaired after validation errors"
                (repair_dream clk (VDict p)))
        (tagged "fallback_on_exception" (safe_patch clk base e)) /\
    enrich_style clk response base s
    = try_except
        (tagged "repaired_enriched_result" (repair_dream clk (VDict p)))
        (tagged "fallback_on_exception" (apply_style base s)).
Proof.
  intros clk response base e s p Hdoc Hinv. split.
  - unfold apply_patch. now rewrite (apply_patch_try_invalid _ _ _ _ p).
  - unfold enrich_style. now rewrite (enrich_style_try_invalid _ _ _ _ p).
Qed.

Lemma failed_repair_never_witness :
  apply_patch sample_clock (Ok partial_document) (VDict small_scene) "blue"
  = try_except
      (tagged "auto-repaired after validation errors"
              (repair_dream sample_clock (VDict [("title", VStr "t")])))
      (tagged "fallback_on_exception"
              (safe_patch sample_clock (VDict small_scene) "blue")) /\
  enrich_style sample_clock (Ok partial_document) (VDict small_scene)
               "surreal"
  = try_except
      (tagged "repaired_enriched_result"
              (repair_dream sample_clock (VDict [("title", VStr "t")])))
      (tagged "fallback_on_exception"
              (apply_style (VDict small_scene) "surreal")).
Proof.
  apply (failed_repair_never sample_clock (Ok partial_document)
           (VDict small_scene) "blue" "surreal" [("title", VStr "t")]);
    reflexivity.
Defined.

(** X17.  When the backend's document validates, [apply_patch] returns it
    with one entry appended to [patchHistory] and nothing else changed:
    the [id] of the input document is never copied into it, and the input
    document plays no part, unless [patchHistory] is present and not a
    list, in which case the handler's fallback on the input is returned. *)
Theorem apply_patch_validated :
  forall clk response base e p,
    parsed_document response = Some p ->
    validate_dream (VDict p) = (true, []) ->
    apply_patch clk response base e
    = try_except
        (p' <- append_to "patchHistory"
                 (VDict [("editText", VStr e);
                         ("appliedAt", VStr (stamp clk));
                         ("source", VStr "llama-stylist")]) p ;;
         Ok (VDict p'))
        (tagged "fallback_on_exception" (safe_patch clk base e)).
Proof.
  intros clk response base e p Hdoc Hvalid.
  unfold apply_patch. now rewrite (apply_patch_try_valid _ _ _ _ p).
Qed.

Lemma apply_patch_validated_witness :
  apply_patch sample_clock (Ok backend_document) (VDict small_scene) "blue"
  = Ok (VDict [("id", VStr "a"); ("title", VStr "t");
               ("style", VStr "ethereal");
               ("patchHistory",
                VList [history_entry "blue" (stamp sample_clock)
                                     "llama-stylist"])]).
Proof.
  rewrite (apply_patch_validated sample_clock (Ok backend_document)
             (VDict small_scene) "blue"
             [("id", VStr "a"); ("title", VStr "t");
              ("style", VStr "ethereal")]); reflexivity.
Defined.

(** X18.  When the backend's document validates, [enrich_style] returns it
    with [enrichedBy] and [targetStyle] written into [metadata] (a new
    mapping when absent, the other entries of an existing one kept); its
    [style] stays the backend's, whatever style was asked for; and when
    [metadata] is present and not a mapping, the handler's deterministic
    fallback on the input document is returned instead. *)
Theorem enrich_style_validated :
  forall clk response base s p,
    parsed_document response = Some p ->
    validate_dream (VDict p) = (true, []) ->
    enrich_style clk response base s
    = match dget_or "metadata" (VDict []) p with
      | VDict m =>
          Ok (VDict (dset "metadata"
                          (VDict (dset "targetStyle" (VStr s)
                                    (dset "enrichedBy" (VStr "llama-stylist")
                                          m)))
                          p))
      | _ => tagged "fallback_on_exception" (apply_style base s)
      end.
Proof.
  intros clk response base s p Hdoc Hvalid.
  unfold enrich_style. rewrite (enrich_style_try_valid _ _ _ _ p Hdoc Hvalid).
  unfold merge_metadata.
  destruct (dget_or "metadata" (VDict []) p); reflexivity.
Qed.

Lemma enrich_style_validated_witness :
  enrich_style sample_clock (Ok backend_document) (VDict small_scene)
               "nightmare"
  = Ok (VDict [("id", VStr "a"); ("title", VStr "t");
               ("style", VStr "ethereal");
               ("metadata",
                VDict [("enrichedBy", VStr "llama-stylist");
                       ("targetStyle", VStr "nightmare")])]).
Proof.
  rewrite (enrich_style_validated sample_clock (Ok backend_document)
             (VDict small_scene) "nightmare"
             [("id", VStr "a"); ("title", VStr "t");
              ("style", VStr "ethereal")]); reflexivity.
Defined.

Lemma tagged_valid tag m r :
  tagged tag m = Ok r ->
  exists m0, m = Ok m0 /\ validate_dream r = validate_dream m0.
Proof.
  unfold tagged. intros H. inv_bind H. subst m. exists x.
  split; [reflexivity|].
  destruct x as [| | | | | |d]; try discriminate.
  inv_bind H. apply Ok_inj in H. subst r.
  apply validate_dream_ext;
    (eapply append_to_other; [|exact E]; discriminate).
Qed.

Lemma safe_patch_valid clk base e r :
  safe_patch clk base e = Ok r -> validate_dream r = validate_dream base.
Proof.
  destruct base as [| | | | | |d]; try discriminate. intros H.
  destruct (safe_patch_spec clk d e r H)
    as (rd & xs & -> & _ & _ & _ & _ & _ & _ & _ & Hk).
  apply validate_dream_ext; apply Hk; discriminate.
Qed.

Lemma apply_style_valid base s r :
  apply_style base s = Ok r ->
  In s STYLE_NAMES ->
  validate_dream base = (true, []) ->
  validate_dream r = (true, []).
Proof.
  destruct base as [| | | | | |d]; try discriminate. intros H Hin Hv.
  destruct (validate_dream_inv d Hv) as (Hid & Ht & _ & Hc).
  pose proof (apply_style_other d s r H) as Hk.
  destruct (apply_style_spec d s r H) as (_ & Hr & _ & _ & Hst & _).
  destruct r as [| | | | | |rd]; try discriminate. unfold field in *.
  apply validate_dream_intro. repeat split.
  - etransitivity; [apply dhas_eq_of_dget; apply Hk; discriminate|exact Hid].
  - etransitivity; [apply dhas_eq_of_dget; apply Hk; discriminate|exact Ht].
  - eauto.
  - rewrite (Hk "cinematography") by discriminate. exact Hc.
Qed.

Lemma handler_patch_valid clk base e r :
  tagged "fallback_on_exception" (safe_patch clk base e) = Ok r ->
  validate_dream r = validate_dream base.
Proof.
  intros H. destruct (tagged_valid _ _ _ H) as (m0 & E & ->).
  now apply (safe_patch_valid clk base e).
Qed.

(** The [try] block of [apply_patch] when the backend yields no
    document. *)
Lemma apply_patch_try_none clk response base e r :
  parsed_document response = None ->
  apply_patch_try clk response base e = Ok r ->
  validate_dream r = validate_dream base.
Proof.
  unfold parsed_document, apply_patch_try. intros Hn H.
  destruct response as [text|ex]; [|discriminate]. cbn [bind] in H.
  assert (Hf : (patched <- safe_patch clk base e ;;
                match patched with
                | VDict d =>
                    a <- assumptions_plus (VStr "used_safe_fallback") d ;;
                    Ok (VDict (dset "assumptions" a d))
                | _ => Raise AttributeError
                end) = Ok r).
  { destruct (or_else _ _) as [[| | | | | |[|b p']]|];
      try discriminate Hn; exact H. }
  clear H Hn. inv_bind Hf.
  rewrite <- (safe_patch_valid _ _ _ _ E).
  destruct x as [| | | | | |d]; try discriminate.
  inv_bind Hf. apply Ok_inj in Hf. subst r.
  apply validate_dream_ext; apply dget_dset_other; discriminate.
Qed.

Lemma enrich_style_try_none clk response base s r :
  parsed_document response = None ->
  enrich_style_try clk response base s = Ok r ->
  tagged "applied_deterministic_style_mapper" (apply_style base s) = Ok r.
Proof.
  unfold parsed_document, enrich_style_try. intros Hn H.
  destruct response as [text|ex]; [|discriminate]. cbn [bind] in H.
  destruct (or_else _ _) as [[| | | | | |[|b p']]|];
    try discriminate Hn; exact H.
Qed.

(** X19.  The resolvers keep a valid document valid: when the input
    document validates, so does whatever [apply_patch] returns, on every
    path (backend document, repaired document, safe fallback); and the
    same holds for [enrich_style] when the style asked for is written as
    one of the five lower-case names. *)
Theorem resolvers_keep_valid :
  forall clk response base e s,
    validate_dream base = (true, []) ->
    (forall r, apply_patch clk response base e = Ok r ->
               validate_dream r = (true, [])) /\
    (In s STYLE_NAMES ->
     forall r, enrich_style clk response base s = Ok r ->
               validate_dream r = (true, [])).
Proof.
  intros clk response base e s Hv. split.
  - intros r. unfold apply_patch, try_except.
    destruct (apply_patch_try clk response base e) as [r0|ex] eqn:Eb.
    + intros H. apply Ok_inj in H. subst r0.
      destruct (parsed_document response) as [p|] eqn:Ed.
      * destruct (fst (validate_dream (VDict p))) eqn:Ef.
        -- apply validate_dream_flag in Ef.
           rewrite (apply_patch_try_valid _ _ _ _ p Ed Ef) in Eb.
           inv_bind Eb. apply Ok_inj in Eb. subst r. rewrite <- Ef.
           apply validate_dream_ext;
             (eapply append_to_other; [|exact E]; discriminate).
        -- rewrite (apply_patch_try_invalid _ _ _ _ p Ed Ef) in Eb.
           destruct (tagged_valid _ _ _ Eb) as (m0 & E & ->).
           exact (validate_dream_ok _ (repair_dream_post _ _ _ E)).
      * rewrite <- Hv. now apply (apply_patch_try_none clk response base e).
    + intros H. rewrite <- Hv. now apply (handler_patch_valid clk base e).
  - intros Hin r. unfold enrich_style, try_except.
    assert (Hfb : forall tag r1,
               tagged tag (apply_style base s) = Ok r1 ->
               validate_dream r1 = (true, [])).
    { intros tag r1 H. destruct (tagged_valid _ _ _ H) as (m0 & E & ->).
      now apply (apply_style_valid base s). }
    destruct (enrich_style_try clk response base s) as [r0|ex] eqn:Eb;
      [|apply Hfb].
    intros H. apply Ok_inj in H. subst r0.
    destruct (parsed_document response) as [p|] eqn:Ed.
    + destruct (fst (validate_dream (VDict p))) eqn:Ef.
      * apply validate_dream_flag in Ef.
        rewrite (enrich_style_try_valid _ _ _ _ p Ed Ef) in Eb.
        inv_bind Eb. apply Ok_inj in Eb. subst r. rewrite <- Ef.
        unfold merge_metadata in E.
        destruct (dget_or "metadata" (VDict []) p); try discriminate.
        apply Ok_inj in E. subst x.
        apply validate_dream_ext; apply dget_dset_other; discriminate.
      * rewrite (enrich_style_try_invalid _ _ _ _ p Ed Ef) in Eb.
        destruct (tagged_valid _ _ _ Eb) as (m0 & E & ->).
        exact (validate_dream_ok _ (repair_dream_post _ _ _ E)).
    + apply (Hfb "applied_deterministic_style_mapper").
      now apply (enrich_style_try_none clk response base s).
Qed.

Lemma resolvers_keep_valid_witness :
  (exists r,
      apply_patch sample_clock (Ok prose) (VDict healthy_scene) "add island"
      = Ok r /\ validate_dream r = (true, [])) /\
  (exists r,
      enrich_style sample_clock (Raise TypeError) (VDict healthy_scene)
                   "fantasy" = Ok r /\ validate_dream r = (true, [])).
Proof.
  destruct (resolvers_keep_valid sample_clock (Ok prose)
              (VDict healthy_scene) "add island" "fantasy" eq_refl)
    as [H1 _].
  destruct (resolvers_keep_valid sample_clock (Raise TypeError)
              (VDict healthy_scene) "add island" "fantasy" eq_refl)
    as [_ H2].
  split.
  - eexists. split; [reflexivity|]. apply H1. reflexivity.
  - eexists. split; [reflexivity|]. apply H2; [simpl; auto 10 | reflexivity].
Defined.



(** ** The stubs of [main.py] *)

Lemma ensure_list_same k d :
  exists xs, dget k (ensure_list k d) = Some (VList xs) /\
             (forall ys, dget k d = Some (VList ys) -> xs = ys).
Proof.
  unfold ensure_list. destruct (dget k d) as [v|] eqn:E.
  - destruct v; try (exists []; rewrite dget_dset_same; split;
                     [reflexivity | discriminate]).
    exists xs. split; [exact E|]. intros ys H. now inversion H.
  - exists []. rewrite dget_dset_same. split; [reflexivity | discriminate].
Qed.

Lemma ensure_list_noop k d xs :
  dget k d = Some (VList xs) -> ensure_list k d = d.
Proof. unfold ensure_list. now intros ->. Qed.

Lemma containers_intro d :
  (forall k, In k ["structures"; "entities"; "assumptions"] ->
             exists xs, dget k d = Some (VList xs)) ->
  containers (VDict d).
Proof.
  intros H. unfold containers, list_field, field.
  destruct (H "structures" ltac:(simpl; auto)) as (x1 & ->).
  destruct (H "entities" ltac:(simpl; auto)) as (x2 & ->).
  destruct (H "assumptions" ltac:(simpl; auto)) as (x3 & ->).
  auto.
Qed.

Lemma containers_elim d k :
  containers (VDict d) ->
  In k ["structures"; "entities"; "assumptions"] ->
  exists xs, dget k d = Some (VList xs).
Proof.
  unfold containers, list_field, field. intros (H1 & H2 & H3) Hin.
  simpl in Hin. destruct Hin as [<-|[<-|[<-|[]]]].
  - destruct (dget "structures" d) as [[]|]; try discriminate; eauto.
  - destruct (dget "entities" d) as [[]|]; try discriminate; eauto.
  - destruct (dget "assumptions" d) as [[]|]; try discriminate; eauto.
Qed.

Lemma ensure_lists_containers d : containers (VDict (_ensure_lists d)).
Proof.
  apply containers_intro. intros k Hin. unfold _ensure_lists.
  simpl in Hin. destruct Hin as [<-|[<-|[<-|[]]]].
  - rewrite !ensure_list_other by discriminate.
    destruct (ensure_list_same "structures" d) as (xs & H & _). eauto.
  - rewrite ensure_list_other by discriminate.
    destruct (ensure_list_same "entities" (ensure_list "structures" d))
      as (xs & H & _). eauto.
  - destruct (ensure_list_same "assumptions"
                (ensure_list "entities" (ensure_list "structures" d)))
      as (xs & H & _). eauto.
Qed.

(** The three containers stay lists through a step that keeps the other
    entries and the kind of [entities]. *)
Lemma containers_step p p' :
  containers (VDict p) ->
  dget "structures" p' = dget "structures" p ->
  dget "assumptions" p' = dget "assumptions" p ->
  same_kind p p' ->
  containers (VDict p').
Proof.
  intros (H1 & H2 & H3) Hs Ha [Hk _].
  unfold containers, list_field, field in *.
  rewrite Hs, Ha. auto.
Qed.

Lemma containers_append_to k x d d' :
  append_to k x d = Ok d' -> containers (VDict d) -> containers (VDict d').
Proof.
  intros H Hc. apply containers_intro. intros k' Hin.
  destruct (String.eqb_spec k' k) as [->|Hne].
  - destruct (append_to_same _ _ _ _ H) as (xs & Hx & _). eauto.
  - rewrite (append_to_other k' k _ _ _ Hne H).
    now apply containers_elim.
Qed.

Lemma containers_append_at k x d d' :
  append_at k x d = Ok d' -> containers (VDict d) -> containers (VDict d').
Proof.
  intros H Hc. destruct (append_at_spec _ _ _ _ H) as ((xs & _ & Hx) & Hk).
  apply containers_intro. intros k' Hin.
  destruct (String.eqb_spec k' k) as [->|Hne]; [eauto|].
  rewrite Hk by assumption. now apply containers_elim.
Qed.

Lemma containers_for_entities body d d' :
  for_entities body d = Ok d' -> containers (VDict d) -> containers (VDict d').
Proof.
  intros H Hc. destruct (for_entities_spec _ _ _ H) as (_ & Hk & Hn & Hl).
  apply (containers_step d d' Hc); try (apply Hk; discriminate).
  split.
  - intros Hy. rewrite (Hl Hy). reflexivity.
  - intros Hy. now rewrite (Hn Hy).
Qed.

Lemma containers_dset k v d :
  k <> "structures" -> k <> "entities" -> k <> "assumptions" ->
  containers (VDict d) -> containers (VDict (dset k v d)).
Proof.
  intros H1 H2 H3 Hc. unfold containers, list_field, field in *.
  now rewrite !dget_dset_other by congruence.
Qed.

Lemma stub_apply_patch_containers clk d e r :
  stub_apply_patch clk (VDict d) e = Ok r -> containers r.
Proof.
  unfold stub_apply_patch. cbv zeta. intros H.
  inv_bind H. destruct x as [p1 a1].
  inv_bind H. destruct x as [[p2 a2] drawn].
  inv_bind H. destruct x as [p3 a3].
  inv_bind H. destruct x as [p4 a4].
  inv_bind H. destruct x as [p5 a5].
  inv_bind H. destruct x as [p6 a6].
  inv_bind H. rename x into p7. inv_bind H. rename x into p8.
  apply Ok_inj in H. subst r.
  pose proof (ensure_lists_containers d) as C0.
  rewrite (foldM_ext _ _ _ _ (stub_color_step_with (lower e))) in E.
  apply color_fold_spec in E. destruct E as (_ & Hk1 & _ & _ & Hkind1).
  assert (C1 : containers (VDict p1))
    by (apply (containers_step _ _ C0); try (apply Hk1; discriminate);
        exact Hkind1).
  assert (C2 : containers (VDict p2)).
  { destruct (wants "island" (lower e)).
    - inv_bind E0. inversion E0; subst.
      exact (containers_append_at _ _ _ _ E C1).
    - inversion E0; subst. exact C1. }
  assert (C3 : containers (VDict p3)).
  { destruct (wants "tower" (lower e)).
    - inv_bind E1. inversion E1; subst.
      exact (containers_append_at _ _ _ _ E C2).
    - inversion E1; subst. exact C2. }
  assert (C4 : containers (VDict p4)).
  { destruct (mentions_any FASTER_WORDS (lower e)).
    - inv_bind E2. inversion E2; subst.
      exact (containers_for_entities _ _ _ E C3).
    - inversion E2; subst. exact C3. }
  assert (C5 : containers (VDict p5)).
  { destruct (mentions_any SLOWER_WORDS (lower e)).
    - inv_bind E3. inversion E3; subst.
      exact (containers_for_entities _ _ _ E C4).
    - inversion E3; subst. exact C4. }
  assert (C6 : containers (VDict p6)).
  { destruct a5.
    - inv_bind E4. inversion E4; subst.
      exact (containers_append_to _ _ _ _ E C5).
    - inversion E4; subst. exact C5. }
  exact (containers_append_to _ _ _ _ E6
           (containers_append_to _ _ _ _ E5 C6)).
Qed.

Lemma containers_setdefault k v d :
  k <> "structures" -> k <> "entities" -> k <> "assumptions" ->
  containers (VDict d) -> containers (VDict (setdefault k v d)).
Proof.
  intros H1 H2 H3 Hc. unfold setdefault. destruct (dhas k d); [exact Hc|].
  now apply containers_dset.
Qed.

Lemma stub_enrich_style_containers d s r :
  stub_enrich_style (VDict d) s = Ok r -> containers r.
Proof.
  unfold stub_enrich_style. cbv zeta. intros H.
  inv_bind H. rename x into style. inv_bind H. rename x into d1.
  inv_bind H. rename x into d2. inv_bind H. rename x into d3.
  apply Ok_inj in H. subst r.
  apply (containers_append_to _ _ _ _ E2).
  apply (containers_for_entities _ _ _ E1).
  apply containers_dset; try discriminate.
  destruct (dget "environment" _) as [[| | | | | |env]|] eqn:Ee;
    try discriminate.
  apply Ok_inj in E0. subst d1.
  apply containers_dset; try discriminate.
  apply containers_setdefault; try discriminate.
  apply ensure_lists_containers.
Qed.

(** X20.  The three containers are lists in whatever the two stubs of
    [main.py] return (the invariant that claim C2 asks of the resolvers):
    [_ensure_lists] makes [structures], [entities] and [assumptions] lists,
    keeping those that are lists already and every other entry, and no
    later step of [stub_apply_patch] or [stub_enrich_style] undoes it. *)
Theorem stubs_keep_containers :
  (forall d,
      containers (VDict (_ensure_lists d)) /\
      (forall k xs, dget k d = Some (VList xs) ->
                    dget k (_ensure_lists d) = Some (VList xs)) /\
      (forall k, k <> "structures" -> k <> "entities" ->
                 k <> "assumptions" ->
                 dget k (_ensure_lists d) = dget k d)) /\
  (forall clk d e r,
      stub_apply_patch clk (VDict d) e = Ok r -> containers r) /\
  (forall d s r, stub_enrich_style (VDict d) s = Ok r -> containers r).
Proof.
  split; [|split].
  - intros d. split; [apply ensure_lists_containers|]. split.
    + intros k xs H. unfold _ensure_lists.
      assert (Hstep : forall k' d0, dget k d0 = Some (VList xs) ->
                                    dget k (ensure_list k' d0)
                                    = Some (VList xs)).
      { intros k' d0 H0. destruct (String.eqb_spec k k') as [<-|Hne].
        - now rewrite (ensure_list_noop _ _ _ H0).
        - now rewrite ensure_list_other. }
      auto.
    + intros k H1 H2 H3. unfold _ensure_lists.
      now rewrite !ensure_list_other by assumption.
  - exact stub_apply_patch_containers.
  - exact stub_enrich_style_containers.
Qed.

Lemma stubs_keep_containers_witness :
  (exists r,
      stub_apply_patch sample_clock
        (VDict [("entities", VStr "none"); ("assumptions", VNone)])
        "add a tower" = Ok r /\ containers r) /\
  (exists r,
      stub_enrich_style
        (VDict [("entities", VStr "none"); ("assumptions", VNone)])
        "Cyberpunk" = Ok r /\ containers r).
Proof.
  destruct stubs_keep_containers as (_ & H1 & H2). split.
  - eexists. split; [reflexivity|].
    exact (H1 sample_clock
              [("entities", VStr "none"); ("assumptions", VNone)]
              "add a tower" _ eq_refl).
  - eexists. split; [reflexivity|].
    exact (H2 [("entities", VStr "none"); ("assumptions", VNone)]
              "Cyberpunk" _ eq_refl).
Defined.


Lemma lower_stub_style_name s d name :
  stub_style_name s d = Ok name -> lower name = name.
Proof.
  unfold stub_style_name.
  destruct (negb (String.eqb s "")).
  - intros H. apply Ok_inj in H. subst. apply lower_idem.
  - cbv zeta. destruct (truthy (dget_or "style" VNone d)).
    + destruct (dget_or "style" VNone d); try discriminate.
      intros H. apply Ok_inj in H. subst. apply lower_idem.
    + intros H. apply Ok_inj in H. subst. reflexivity.
Qed.







Lemma uniform_between clk k a b :
  a <= b -> 0 <= rnd clk k <= 1 -> a <= uniform clk k a b <= b.
Proof.
  intros Hab [H0 H1]. unfold uniform. rewrite Qred_correct.
  assert (Hd : 0 <= b - a) by lra.
  assert (Hm : 0 <= (b - a) * rnd clk k)
    by (apply Qmult_le_0_compat; assumption).
  assert (Hu : (b - a) * rnd clk k <= (b - a) * 1).
  { rewrite !(Qmult_comm (b - a)). apply Qmult_le_compat_r; assumption. }
  split; lra.
Qed.

(** X26.  The structures of what [stub_apply_patch] returns are the input's
    (none when [structures] is absent or not a list) followed by at most
    one floating island and then at most one crystal tower, each added
    exactly when the lower-cased text contains "add" and the word; with
    random draws in [0, 1], the island lies in the box
    [-30, 30] x [15, 20] x [-30, 30] and the tower in
    [-20, 20] x [10, 30] x [-20, 20]. *)
Theorem stub_added_structures :
  forall clk d e r,
    (forall k, 0 <= rnd clk k <= 1) ->
    stub_apply_patch clk (VDict d) e = Ok r ->
    exists islands towers,
      field "structures" r
      = Some (VList ((match dget "structures" d with
                      | Some (VList ss) => ss
                      | _ => []
                      end) ++ islands ++ towers)) /\
      (if contains "add" (lower e) && contains "island" (lower e)
       then exists s, islands = [s] /\
                      placed "floating_island" (4 # 5) (-30) 30 15 20 s
       else islands = []) /\
      (if contains "add" (lower e) && contains "tower" (lower e)
       then exists s, towers = [s] /\
                      placed "crystal_tower" (11 # 10) (-20) 20 10 30 s
       else towers = []).
Proof.
  intros clk d e r Hrnd. unfold stub_apply_patch. cbv zeta. intros H.
  inv_bind H. destruct x as [p1 a1].
  inv_bind H. destruct x as [[p2 a2] drawn].
  inv_bind H. destruct x as [p3 a3].
  inv_bind H. destruct x as [p4 a4].
  inv_bind H. destruct x as [p5 a5].
  inv_bind H. destruct x as [p6 a6].
  inv_bind H. rename x into p7. inv_bind H. rename x into p8.
  apply Ok_inj in H. subst r.
  rewrite (foldM_ext _ _ _ _ (stub_color_step_with (lower e))) in E.
  apply color_fold_spec in E. destruct E as (_ & Hk1 & _).
  rewrite <- !wants_both.
  set (ss := match dget "structures" d with
             | Some (VList ss) => ss
             | _ => []
             end).
  assert (H1 : dget "structures" p1 = Some (VList ss)).
  { rewrite Hk1 by discriminate. unfold _ensure_lists.
    rewrite !ensure_list_other by discriminate.
    unfold ensure_list, ss.
    destruct (dget "structures" d) as [[]|] eqn:Ed;
      try (now rewrite dget_dset_same); exact Ed. }
  assert (H2 : exists islands,
             dget "structures" p2 = Some (VList (ss ++ islands)) /\
             (if wants "island" (lower e)
              then exists s, islands = [s] /\
                             placed "floating_island" (4 # 5) (-30) 30 15 20 s
              else islands = [])).
  { destruct (wants "island" (lower e)).
    - inv_bind E0. inversion E0; subst; clear E0.
      apply append_at_spec in E. destruct E as ((xs & Hx & Hx') & _).
      rewrite H1 in Hx. inversion Hx; subst xs.
      eexists. split; [exact Hx'|]. eexists. split; [reflexivity|].
      unfold placed, field. dsimp. repeat split; try reflexivity.
      do 3 eexists. split; [reflexivity|].
      pose proof (uniform_between clk 0 (-30) 30 ltac:(lra) (Hrnd _)).
      pose proof (uniform_between clk 1 0 5 ltac:(lra) (Hrnd _)).
      pose proof (uniform_between clk 2 (-30) 30 ltac:(lra) (Hrnd _)).
      rewrite Qred_correct. repeat split; lra.
    - inversion E0; subst. exists []. now rewrite app_nil_r. }
  destruct H2 as (islands & H2 & Hisl).
  assert (H3 : exists towers,
             dget "structures" p3
             = Some (VList (ss ++ islands ++ towers)) /\
             (if wants "tower" (lower e)
              then exists s, towers = [s] /\
                             placed "crystal_tower" (11 # 10) (-20) 20 10 30 s
              else towers = [])).
  { destruct (wants "tower" (lower e)).
    - inv_bind E1. inversion E1; subst; clear E1.
      apply append_at_spec in E. destruct E as ((xs & Hx & Hx') & _).
      rewrite H2 in Hx. inversion Hx; subst xs.
      eexists. split; [rewrite Hx', <- app_assoc; reflexivity|].
      eexists. split; [reflexivity|].
      unfold placed, field. dsimp. repeat split; try reflexivity.
      do 3 eexists. split; [reflexivity|].
      pose proof (uniform_between clk drawn (-20) 20 ltac:(lra) (Hrnd _)).
      pose proof (uniform_between clk (drawn + 1) 0 20 ltac:(lra) (Hrnd _)).
      pose proof (uniform_between clk (drawn + 2) (-20) 20 ltac:(lra)
                                  (Hrnd _)).
      rewrite Qred_correct. repeat split; lra.
    - inversion E1; subst. exists []. now rewrite !app_nil_r. }
  destruct H3 as (towers & H3 & Htow).
  exists islands, towers. split; [|split; assumption].
  apply speed_stage_spec in E2. simpl fst in E2. destruct E2 as (_ & Hk4 & _).
  apply speed_stage_spec in E3. simpl fst in E3. destruct E3 as (_ & Hk5 & _).
  assert (H56 : dget "structures" p6 = dget "structures" p5).
  { destruct a5.
    - inv_bind E4. inversion E4; subst.
      eapply append_to_other; [|exact E]. discriminate.
    - now inversion E4. }
  unfold field.
  rewrite (append_to_other "structures" "assumptions" _ _ _
             ltac:(discriminate) E6).
  rewrite (append_to_other "structures" "patchHistory" _ _ _
             ltac:(discriminate) E5).
  rewrite H56, Hk5, Hk4 by discriminate. exact H3.
Qed.

Lemma stub_added_structures_witness :
  exists r islands towers,
    stub_apply_patch sample_clock (VDict healthy_scene)
                     "Add a tower and an island" = Ok r /\
    field "structures" r
    = Some (VList ([VDict [("id", VStr "s1")]] ++ islands ++ towers)) /\
    (exists s, islands = [s] /\
               placed "floating_island" (4 # 5) (-30) 30 15 20 s) /\
    (exists s, towers = [s] /\
               placed "crystal_tower" (11 # 10) (-20) 20 10 30 s).
Proof.
  assert (Hrnd : forall k, 0 <= rnd sample_clock k <= 1)
    by (intros k; simpl; split; discriminate).
  destruct (stub_added_structures sample_clock healthy_scene
              "Add a tower and an island" _ Hrnd eq_refl)
    as (islands & towers & Hs & Hi & Ht).
  eexists. exists islands, towers. split; [reflexivity|].
  split; [exact Hs|]. split; [exact Hi | exact Ht].
Defined.
